(** * async-retry: a shallow embedding of the retry policy engine

    The development follows [retry.ts], [createRetry.ts], [errors.ts] and
    [types.ts].  It is organised as the source is:

    - [JSNumber]: the fragment of JavaScript numbers the engine computes with;
    - [JSString]: [trim], [toLowerCase], [Number(string)];
    - [JSValue]: the duck-typed values the engine inspects (thrown errors,
      headers, response bodies);
    - [Engine]: the option normaliser, the default classifier, the delay
      planner, the cancellable sleeper and the retry loop, written in a small
      state-and-exception monad over an abstract host world;
    - the theorems, one per specified property. *)

From Stdlib Require Import ZArith QArith Qround Qminmax Qpower Qabs Qreduction
  String Ascii List Lia Lqa Bool.
From Stdlib Require Import DecimalString.
Import ListNotations.
Local Open Scope Z_scope.
Set Warnings "-register-all".

(* ================================================================== *)
(** ** JavaScript numbers *)
(* ================================================================== *)

(** A JavaScript number is a double.  Finite doubles are embedded as the
    rationals they denote, next to the three non-finite values; the sign of
    zero is not kept (nothing the engine computes depends on it).  A product
    and the reading of a string as a number round to the nearest double,
    ties to even, and overflow to an infinity: this is [round64].  The
    operator [**] is left to the host, as ECMAScript leaves it
    (implementation-approximated), but for the exponent 0.  Sums and
    differences are exact: the engine adds and subtracts whole numbers of
    milliseconds (clock readings, elapsed times, delays), which doubles
    represent exactly below 2^53.  Floor, truncation, minimum, maximum and
    the comparisons are exact on doubles. *)
Module JSNumber.

Inductive number : Type :=
| Fin (q : Q)
| PInf
| NInf
| NaN.

Definition ofZ (z : Z) : number := Fin (inject_Z z).

(** [Number.isFinite(n)] for a value already known to be a number. *)
Definition isFinite (n : number) : bool :=
  match n with Fin _ => true | _ => false end.

Definition Qltb (x y : Q) : bool :=
  match (x ?= y)%Q with Lt => true | _ => false end.

(** [a < b]; every comparison with [NaN] is false. *)
Definition ltb (a b : number) : bool :=
  match a, b with
  | NaN, _ | _, NaN => false
  | Fin x, Fin y => Qltb x y
  | NInf, NInf => false
  | NInf, _ => true
  | _, PInf => match a with PInf => false | _ => true end
  | _, _ => false
  end.

(** [a === b] on numbers. *)
Definition eqb (a b : number) : bool :=
  match a, b with
  | Fin x, Fin y => Qeq_bool x y
  | PInf, PInf => true
  | NInf, NInf => true
  | _, _ => false
  end.

Definition gtb (a b : number) : bool := ltb b a.
Definition leb (a b : number) : bool := ltb a b || eqb a b.
Definition geb (a b : number) : bool := leb b a.

Definition Qsign (q : Q) : comparison := (q ?= 0)%Q.

(** *** Rounding to a double *)

(** The nearest integer, ties to even. *)
Definition rne (q : Q) : Z :=
  let f := Qfloor q in
  match (q - inject_Z f ?= 1 # 2)%Q with
  | Lt => f
  | Gt => f + 1
  | Eq => if Z.even f then f else f + 1
  end.

(** [floor(log2 q)] for a positive [q]. *)
Definition binade (q : Q) : Z :=
  let l := Z.log2 (Qnum q) - Z.log2 (Zpos (Qden q)) in
  if Qltb q (2 ^ l) then l - 1 else l.

(** A positive [a] brought to the nearest multiple of the unit in the last
    place of its binade: 53 bits of precision, the unit never below
    2^-1074; ties to even. *)
Definition nearest (a : Q) : Q :=
  let e := Z.max (-1074) (binade a - 52) in
  inject_Z (rne (a / 2 ^ e)) * 2 ^ e.

(** The double nearest to [q] (binary64), ties to even; a result of
    magnitude 2^1024 or more is an infinity. *)
Definition round64 (q : Q) : number :=
  let q := Qred q in
  match (q ?= 0)%Q with
  | Eq => Fin 0
  | c =>
      let v := Qred (nearest (Qabs q)) in
      if Qle_bool (2 ^ 1024) v then match c with Lt => NInf | _ => PInf end
      else Fin (match c with Lt => - v | _ => v end)
  end.

Definition neg (a : number) : number :=
  match a with
  | Fin q => Fin (- q)
  | PInf => NInf
  | NInf => PInf
  | NaN => NaN
  end.

(** [a + b] *)
Definition add (a b : number) : number :=
  match a, b with
  | NaN, _ | _, NaN => NaN
  | Fin x, Fin y => Fin (x + y)
  | PInf, NInf | NInf, PInf => NaN
  | PInf, _ | _, PInf => PInf
  | NInf, _ | _, NInf => NInf
  end.

(** [a - b] *)
Definition sub (a b : number) : number := add a (neg b).

Definition inf_of_sign (c : comparison) : number :=
  match c with Gt => PInf | Lt => NInf | Eq => NaN end.

(** [a * b]: the product rounded to a double; an infinity times zero is
    [NaN]. *)
Definition mul (a b : number) : number :=
  match a, b with
  | NaN, _ | _, NaN => NaN
  | Fin x, Fin y => round64 (x * y)
  | Fin x, PInf | PInf, Fin x => inf_of_sign (Qsign x)
  | Fin x, NInf | NInf, Fin x => inf_of_sign (CompOpp (Qsign x))
  | PInf, PInf | NInf, NInf => PInf
  | PInf, NInf | NInf, PInf => NInf
  end.

(** The power [b ** e] rounded to the nearest double, for an integral [e]:
    one of the values that ECMAScript allows an engine to return. *)
Definition powNearest (b : number) (e : Z) : number :=
  match e with
  | Z0 => Fin 1
  | Zpos p =>
      match b with
      | Fin q => round64 (q ^ e)
      | PInf => PInf
      | NInf => if Z.even e then PInf else NInf
      | NaN => NaN
      end
  | Zneg p =>
      match b with
      | Fin q => if Qeq_bool q 0 then PInf else round64 (q ^ e)
      | PInf | NInf => Fin 0
      | NaN => NaN
      end
  end.

(** [Math.min(a, b)] and [Math.max(a, b)]: [NaN] if either argument is. *)
Definition Math_min (a b : number) : number :=
  match a, b with
  | NaN, _ | _, NaN => NaN
  | _, _ => if ltb b a then b else a
  end.

Definition Math_max (a b : number) : number :=
  match a, b with
  | NaN, _ | _, NaN => NaN
  | _, _ => if ltb a b then b else a
  end.

(** Rounding towards zero of a rational. *)
Definition Qtrunc (q : Q) : Z := Z.quot (Qnum q) (Zpos (Qden q)).

(** [Math.floor(a)] and [Math.trunc(a)] *)
Definition Math_floor (a : number) : number :=
  match a with Fin q => ofZ (Qfloor q) | _ => a end.

Definition Math_trunc (a : number) : number :=
  match a with Fin q => ofZ (Qtrunc q) | _ => a end.

End JSNumber.
Export JSNumber.

(* ================================================================== *)
(** ** JavaScript strings *)
(* ================================================================== *)

(** Strings are sequences of code units below 256 (Latin-1). *)
Module JSString.

Definition code (c : ascii) : N := N_of_ascii c.

(** White space and line terminators below 256: TAB, LF, VT, FF, CR, SP,
    NBSP. *)
Definition isWhiteSpace (c : ascii) : bool :=
  let n := code c in
  ((9 <=? n) && (n <=? 13) || (n =? 32) || (n =? 160))%N.

Fixpoint trimStart (s : string) : string :=
  match s with
  | EmptyString => EmptyString
  | String c r => if isWhiteSpace c then trimStart r else s
  end.

(** Drops the trailing white space: a character is kept when it is not white
    space or when something is kept after it. *)
Fixpoint trimEnd (s : string) : string :=
  match s with
  | EmptyString => EmptyString
  | String c r =>
      match trimEnd r with
      | EmptyString => if isWhiteSpace c then EmptyString else String c EmptyString
      | r' => String c r'
      end
  end.

(** [s.trim()] *)
Definition trim (s : string) : string := trimEnd (trimStart s).

Definition lowerChar (c : ascii) : ascii :=
  let n := code c in
  if ((65 <=? n) && (n <=? 90)
      || (192 <=? n) && (n <=? 222) && negb (n =? 215))%N
  then ascii_of_N (n + 32) else c.

(** [s.toLowerCase()] *)
Fixpoint toLowerCase (s : string) : string :=
  match s with
  | EmptyString => EmptyString
  | String c r => String (lowerChar c) (toLowerCase r)
  end.

(** [s.includes(p)] *)
Fixpoint includes (p s : string) : bool :=
  prefix p s ||
  match s with
  | EmptyString => false
  | String _ r => includes p r
  end.

(** Only the ASCII letters fold under the [i] flag of a non-unicode regular
    expression onto ASCII pattern letters. *)
Definition foldAscii (c : ascii) : ascii :=
  let n := code c in
  if ((65 <=? n) && (n <=? 90))%N then ascii_of_N (n + 32) else c.

Fixpoint foldCase (s : string) : string :=
  match s with
  | EmptyString => EmptyString
  | String c r => String (foldAscii c) (foldCase r)
  end.

(** [/network|fetch|timeout/i.test(s)] *)
Definition testNetworkish (s : string) : bool :=
  let t := foldCase s in
  includes "network" t || includes "fetch" t || includes "timeout" t.

(** *** [Number(s)]: the StringNumericLiteral grammar *)

(** The mathematical value of the literal is read exactly and then rounded
    to the nearest double, as the engines do for a literal of any
    length. *)

Definition digitOf (radix : N) (c : ascii) : option Z :=
  let n := code c in
  let v :=
    if ((48 <=? n) && (n <=? 57))%N then Some (n - 48)%N
    else if ((97 <=? n) && (n <=? 102))%N then Some (n - 87)%N
    else if ((65 <=? n) && (n <=? 70))%N then Some (n - 55)%N
    else None in
  match v with
  | Some d => if (d <? radix)%N then Some (Z.of_N d) else None
  | None => None
  end.

(** Reads the longest run of digits at the head of [s]: the value read so
    far, the number of digits and the rest. *)
Fixpoint takeDigits (radix : N) (s : string) (acc : Z) (cnt : Z)
  : Z * Z * string :=
  match s with
  | EmptyString => (acc, cnt, s)
  | String c r =>
      match digitOf radix c with
      | Some d => takeDigits radix r (acc * Z.of_N radix + d) (cnt + 1)
      | None => (acc, cnt, s)
      end
  end.

(** A string of one or more digits in the radix, and nothing else. *)
Definition allDigits (radix : N) (s : string) : option Z :=
  match takeDigits radix s 0 0 with
  | (v, cnt, EmptyString) => if 0 <? cnt then Some v else None
  | _ => None
  end.

(** The optional exponent part, up to the end of the string; [m] is the
    mantissa read as an integer and [frac] the number of its digits that
    follow the point. *)
Definition withExponent (m frac : Z) (s : string) : option Q :=
  match s with
  | EmptyString => Some (inject_Z m * 10 ^ (- frac))%Q
  | String c r =>
      if Ascii.eqb c "e" || Ascii.eqb c "E" then
        let '(sign, r1) :=
          match r with
          | String "+" r1 => (1, r1)
          | String "-" r1 => (-1, r1)
          | _ => (1, r)
          end in
        match allDigits 10 r1 with
        | Some x => Some (inject_Z m * 10 ^ (sign * x - frac))%Q
        | None => None
        end
      else None
  end.

(** StrUnsignedDecimalLiteral without [Infinity]. *)
Definition unsignedDecimal (s : string) : option Q :=
  let '(ip, n1, r1) := takeDigits 10 s 0 0 in
  match r1 with
  | String "." r2 =>
      let '(m, n12, r3) := takeDigits 10 r2 ip n1 in
      if n12 =? 0 then None else withExponent m (n12 - n1) r3
  | _ => if n1 =? 0 then None else withExponent ip 0 r1
  end.

Definition unsignedLiteral (s : string) : number :=
  if (s =? "Infinity")%string then PInf
  else match unsignedDecimal s with
       | Some q => round64 q
       | None => NaN
       end.

(** [Number(s)] *)
Definition Number (s : string) : number :=
  match trim s with
  | EmptyString => Fin 0
  | String "+" r => unsignedLiteral r
  | String "-" r => neg (unsignedLiteral r)
  | String "0" (String p r) as t =>
      let radix :=
        if Ascii.eqb p "x" || Ascii.eqb p "X" then Some 16%N
        else if Ascii.eqb p "o" || Ascii.eqb p "O" then Some 8%N
        else if Ascii.eqb p "b" || Ascii.eqb p "B" then Some 2%N
        else None in
      match radix with
      | Some k =>
          match allDigits k r with
          | Some v => round64 (inject_Z v)
          | None => NaN
          end
      | None => unsignedLiteral t
      end
  | t => unsignedLiteral t
  end.

End JSString.
Export JSString.

(* ================================================================== *)
(** ** Duck-typed values *)
(* ================================================================== *)

(** The values the engine inspects without knowing their type: what a task
    throws, the headers and the body attached to it.  Objects are plain data
    objects: a prototype tag for [instanceof] and the data properties in
    the order [Object.entries] lists them (the order of insertion, for keys
    that are not array indices), each key once.  Reading a property has no
    effect.  A function value carries its [name] and what it returns for a
    string argument, which is how the engine calls [headers.get(name)]. *)
Module JSValue.

Inductive Proto : Type := ProtoObject | ProtoError | ProtoTypeError.

Inductive value : Type :=
| VUndefined
| VNull
| VBool (b : bool)
| VNum (n : number)
| VStr (s : string)
| VArr (items : list value)
| VObj (proto : Proto) (props : list (string * value))
| VFun (name : string) (call : string -> value).

Fixpoint lookup (k : string) (props : list (string * value)) : value :=
  match props with
  | [] => VUndefined
  | (k', v) :: rest => if (k' =? k)%string then v else lookup k rest
  end.

(** [v[k]] for a [v] that is neither [null] nor [undefined], at the property
    names the engine reads ([name], [code], [message], [status],
    [statusCode], [response], [headers], [data], [rawError], [retry_after],
    [get]): none of them is inherited by a primitive or by an array. *)
Definition getProp (v : value) (k : string) : value :=
  match v with
  | VObj _ props => lookup k props
  | VFun name _ => if (k =? "name")%string then VStr name else VUndefined
  | _ => VUndefined
  end.

(** [v?.k] *)
Definition optProp (v : value) (k : string) : value :=
  match v with
  | VUndefined | VNull => VUndefined
  | _ => getProp v k
  end.

(** [a ?? b] *)
Definition nullish (a b : value) : value :=
  match a with
  | VUndefined | VNull => b
  | _ => a
  end.

(** [!v] *)
Definition falsy (v : value) : bool :=
  match v with
  | VUndefined | VNull => true
  | VBool b => negb b
  | VNum n => match n with
              | Fin q => Qeq_bool q 0
              | NaN => true
              | _ => false
              end
  | VStr s => match s with EmptyString => true | _ => false end
  | _ => false
  end.

(** [v === s] for a string literal [s] *)
Definition isStr (v : value) (s : string) : bool :=
  match v with
  | VStr t => (t =? s)%string
  | _ => false
  end.

Definition indexKey (i : nat) : string :=
  NilEmpty.string_of_uint (Nat.to_uint i).

Fixpoint indexed (i : nat) (items : list value) : list (string * value) :=
  match items with
  | [] => []
  | v :: rest => (indexKey i, v) :: indexed (S i) rest
  end.

(** [Object.entries(v)] for a [v] whose [typeof] is ['object'] *)
Definition entries (v : value) : list (string * value) :=
  match v with
  | VObj _ props => props
  | VArr items => indexed 0 items
  | _ => []
  end.

End JSValue.
Export JSValue.

(* ================================================================== *)
(** ** errors.ts and types.ts *)
(* ================================================================== *)

Inductive Jitter : Type := JitterFull | JitterNone.

Inductive BodyUnit : Type := UnitSeconds | UnitMilliseconds | UnitFalse.

Inductive Reason : Type := ReasonRetryAfter | ReasonBackoff.

(** An optional property of an options object: not there, there and
    [undefined], or there with a value.  The difference between the first
    two is seen by object spread only. *)
Inductive Field (A : Type) : Type :=
| Absent
| Undefined
| Value (a : A).
Arguments Absent {A}.
Arguments Undefined {A}.
Arguments Value {A} a.

(** [f ?? d] *)
Definition orDefault {A} (f : Field A) (d : A) : A :=
  match f with Value a => a | _ => d end.

(** [f] as read by [f != null], [f?.x] and [f?.()] *)
Definition present {A} (f : Field A) : option A :=
  match f with Value a => Some a | _ => None end.

(** The own properties of [{ ...d, ...o }], property by property. *)
Definition spreadField {A} (d o : Field A) : Field A :=
  match o with Absent => d | _ => o end.

(** A property of a shallow merge of [o] over [d]: the whole of what [o]
    has there, if [o] has the property at all, and what [d] has there
    otherwise. *)
Definition replacedWholesale {A} (d o r : Field A) : Prop :=
  (o <> Absent -> r = o) /\ (o = Absent -> r = d).

(** What [retry] rejects with: a value thrown by the caller's code and let
    through as it is, [RangeError] from the validation (its message is made
    of the option's name and the number received), or one of the three
    errors of [errors.ts] with the fields their constructors store. *)
Inductive Thrown : Type :=
| ThrownValue (v : value)
| RangeError (name : string) (received : number)
| AbortError (message : string)
| RetryTimeoutError (attempts : Z) (elapsedMs : Z) (maxElapsedMs : number)
    (cause : option value)
| RetryExhaustedError (attempts : Z) (elapsedMs : Z) (maxAttempts : number)
    (startedAt : number) (cause : value).

(** What awaiting the caller's code gives: it returns (or its promise is
    fulfilled), or it throws (or its promise is rejected). *)
Inductive Settled (A : Type) : Type :=
| Fulfilled (a : A)
| Rejected (err : value).
Arguments Fulfilled {A} a.
Arguments Rejected {A} err.

(** [toIntMs]: the result is an integer, kept as one. *)
Definition toIntMs (ms : number) : Z :=
  match ms with
  | Fin q => Z.max 0 (Qtrunc q)
  | _ => 0
  end.

Definition isAbortLikeError (err : value) : bool :=
  isStr (optProp err "name") "AbortError"
  || isStr (optProp err "code") "ABORT_ERR"
  || isStr (optProp err "code") "ERR_CANCELED".

(** [getStatus]: [Number.isFinite] is false of everything that is not a
    number. *)
Definition getStatus (err : value) : option number :=
  let s := nullish (nullish (optProp (optProp err "response") "status")
                            (optProp err "status"))
                   (optProp err "statusCode") in
  let n := match s with VStr t => VNum (Number t) | _ => s end in
  match n with
  | VNum (Fin q) => Some (Fin q)
  | _ => None
  end.

Definition getCode (err : value) : option string :=
  match optProp err "code" with VStr c => Some c | _ => None end.

Definition getMessage (err : value) : option string :=
  match optProp err "message" with VStr m => Some m | _ => None end.

Definition DEFAULT_RETRIABLE_STATUS : list Z :=
  [408; 425; 429; 500; 502; 503; 504].

Definition DEFAULT_RETRIABLE_CODES : list string :=
  ["ECONNRESET"; "ETIMEDOUT"; "EAI_AGAIN"; "ENOTFOUND"; "ECONNREFUSED";
   "EPIPE"]%string.

(** [DEFAULT_RETRIABLE_STATUS.has(n)] *)
Definition hasStatus (n : number) : bool :=
  existsb (fun z => eqb n (ofZ z)) DEFAULT_RETRIABLE_STATUS.

(** [DEFAULT_RETRIABLE_CODES.has(c)] *)
Definition hasCode (c : string) : bool :=
  existsb (fun k => (k =? c)%string) DEFAULT_RETRIABLE_CODES.

(** [err instanceof TypeError] *)
Definition isTypeError (err : value) : bool :=
  match err with VObj ProtoTypeError _ => true | _ => false end.

(** [getHeader] *)
Fixpoint findHeader (target : string) (es : list (string * value))
  : option string :=
  match es with
  | [] => None
  | (k, v) :: rest =>
      if negb (toLowerCase k =? target)%string then findHeader target rest
      else match v with
           | VStr s => Some s
           | VArr (VStr s :: _) => Some s
           | _ => findHeader target rest
           end
  end.

Definition getHeader (headers : value) (name : string) : option string :=
  if falsy headers then None
  else match getProp headers "get" with
       | VFun _ get =>
           match get name with VStr v => Some v | _ => None end
       | _ =>
           match headers with
           | VObj _ _ | VArr _ => findHeader (toLowerCase name) (entries headers)
           | _ => None
           end
       end.

Definition readRetryAfterBody (err : value) : value :=
  nullish
    (nullish
       (optProp (optProp (optProp err "response") "data") "retry_after")
       (optProp (optProp err "rawError") "retry_after"))
    (optProp (optProp err "data") "retry_after").

Definition parseRetryAfterBodyMs (v : value) (unit : BodyUnit) : option Z :=
  match v with
  | VUndefined | VNull => None
  | _ =>
      let n := match v with
               | VNum n => n
               | VStr s => Number (trim s)
               | _ => NaN
               end in
      if negb (isFinite n) then None
      else match unit with
           | UnitSeconds => Some (toIntMs (mul n (ofZ 1000)))
           | _ => Some (toIntMs n)
           end
  end.

(** The literal [0.999999999]: the double nearest to it. *)
Definition jitterCeiling : number := round64 0.999999999.

(** [applyFullJitter] on the number [r] that [rng()] returned *)
Definition jitterOf (backoffMs : Z) (r : number) : Z :=
  let x := if isFinite r then r else ofZ 0 in
  let clamped := Math_max (ofZ 0) (Math_min jitterCeiling x) in
  toIntMs (Math_floor (mul clamped (ofZ backoffMs))).

(* ================================================================== *)
(** ** The engine over a host world *)
(* ================================================================== *)

(** How a computation ends: with a value, with an exception, or still
    running when the fuel of the model is spent. *)
Inductive Completion (A : Type) : Type :=
| Normal (a : A)
| Throw (e : Thrown)
| Pending.
Arguments Normal {A} a.
Arguments Throw {A} e.
Arguments Pending {A}.

(** An [AbortSignal]: its [aborted] flag is read from the world. *)
Record AbortSignal (W : Type) : Type := { aborted : W -> bool }.
Arguments aborted {W} _ _.

(** What the engine asks of its host, over the state [W] of everything
    outside the engine (the clock, the timers, the abort signals, whatever
    the caller's functions read and write):
    - [Date.now()], [Date.parse(s)], [Math.random()];
    - [await new Promise(r => setTimeout(r, ms))], the world when the timer
      has fired;
    - the promise of [sleep] that settles on the first of the timer and the
      abort event, [true] when the abort listener ran first;
    - [b ** e] for an exponent other than zero, which ECMAScript lets the
      engine approximate. *)
Class Host (W : Type) : Type := {
  Date_now : W -> number * W;
  Date_parse : string -> number;
  Math_random : W -> number * W;
  awaitTimeout : Z -> W -> W;
  awaitTimeoutOrAbort : Z -> AbortSignal W -> W -> bool * W;
  exponentiate : number -> number -> number
}.

Section Engine.

(** [W] is the world of the host, [T] what the task resolves with. *)
Context {W T : Type} {host : Host W}.

Record RetryContext : Type := {
  ctx_attempt : Z;
  ctx_maxAttempts : number;
  ctx_startedAt : number;
  ctx_elapsedMs : Z;
  ctx_signal : option (AbortSignal W)
}.

Record RetryEvent : Type := {
  ev_error : value;
  ev_reason : Reason;
  ev_delayMs : Z;
  ev_nextAttempt : Z;
  ev_ctx : RetryContext
}.

(** The functions of the caller run in the world of the host and settle.
    A context is a value here.  In the engine it is an object that the
    task may keep and write to, [{ ...ctx, elapsedMs }] copies what is
    then in it, and the classifier may write to that copy before it goes
    into the event: so of the context of the classifier the theorems use
    the [elapsedMs] the engine has just put there, and of the context of
    an event nothing. *)
Definition ShouldRetry : Type :=
  value -> RetryContext -> W -> Settled bool * W.

Definition Task : Type := RetryContext -> W -> Settled T * W.

(** The options.  [rng] is taken to return a number: a source that throws
    would end the run with what it threw, as a header's [get] would, and
    the theorems on what a run rejects with speak of the engine's own
    errors only. *)
Record RetryOptions : Type := {
  maxAttempts : Field number;
  baseMs : Field number;
  capMs : Field number;
  factor : Field number;
  jitter : Field Jitter;
  rng : Field (W -> number * W);
  signal : Field (AbortSignal W);
  maxElapsedMs : Field number;
  shouldRetry : Field ShouldRetry;
  onRetry : Field (RetryEvent -> W -> Settled unit * W);
  respectRetryAfter : Field bool;
  retryAfterHeaderName : Field string;
  retryAfterBodyUnit : Field BodyUnit;
  wrapError : Field bool
}.

(** [{}] *)
Definition emptyOptions : RetryOptions :=
  {| maxAttempts := Absent; baseMs := Absent; capMs := Absent;
     factor := Absent; jitter := Absent; rng := Absent; signal := Absent;
     maxElapsedMs := Absent; shouldRetry := Absent; onRetry := Absent;
     respectRetryAfter := Absent; retryAfterHeaderName := Absent;
     retryAfterBodyUnit := Absent; wrapError := Absent |}.

(** [{ ...d, ...o }] *)
Definition spread (d o : RetryOptions) : RetryOptions :=
  {| maxAttempts := spreadField (maxAttempts d) (maxAttempts o);
     baseMs := spreadField (baseMs d) (baseMs o);
     capMs := spreadField (capMs d) (capMs o);
     factor := spreadField (factor d) (factor o);
     jitter := spreadField (jitter d) (jitter o);
     rng := spreadField (rng d) (rng o);
     signal := spreadField (signal d) (signal o);
     maxElapsedMs := spreadField (maxElapsedMs d) (maxElapsedMs o);
     shouldRetry := spreadField (shouldRetry d) (shouldRetry o);
     onRetry := spreadField (onRetry d) (onRetry o);
     respectRetryAfter :=
       spreadField (respectRetryAfter d) (respectRetryAfter o);
     retryAfterHeaderName :=
       spreadField (retryAfterHeaderName d) (retryAfterHeaderName o);
     retryAfterBodyUnit :=
       spreadField (retryAfterBodyUnit d) (retryAfterBodyUnit o);
     wrapError := spreadField (wrapError d) (wrapError o) |}.

(** What [normalizeOptions] returns: the ten defaulted properties and the
    four that it passes through, as the loop reads them. *)
Record Normalized : Type := {
  opts_maxAttempts : number;
  opts_baseMs : number;
  opts_capMs : number;
  opts_factor : number;
  opts_jitter : Jitter;
  opts_rng : W -> number * W;
  opts_respectRetryAfter : bool;
  opts_retryAfterHeaderName : string;
  opts_retryAfterBodyUnit : BodyUnit;
  opts_shouldRetry : ShouldRetry;
  opts_signal : option (AbortSignal W);
  opts_maxElapsedMs : option number;
  opts_onRetry : option (RetryEvent -> W -> Settled unit * W);
  opts_wrapError : bool
}.

(** *** Validation *)

Definition assertFiniteNonNegative (name : string) (n : option number)
  : option Thrown :=
  match n with
  | None => None
  | Some n =>
      if negb (isFinite n) || ltb n (ofZ 0) then Some (RangeError name n)
      else None
  end.

Definition assertFinitePositive (name : string) (n : option number)
  : option Thrown :=
  match n with
  | None => None
  | Some n =>
      if negb (isFinite n) || leb n (ofZ 0) then Some (RangeError name n)
      else None
  end.

Definition assertValidMaxAttempts (n : number) : option Thrown :=
  if negb (isFinite n) || ltb n (ofZ 1) || negb (eqb (Math_floor n) n)
  then Some (RangeError "maxAttempts" n)
  else None.

(** [signal?.aborted] *)
Definition signalAborted (s : option (AbortSignal W)) (w : W) : bool :=
  match s with
  | Some sg => aborted sg w
  | None => false
  end.

Definition defaultShouldRetry (err : value) (ctx : RetryContext) (w : W)
  : bool :=
  if signalAborted (ctx_signal ctx) w then false
  else if isAbortLikeError err then false
  else match getStatus err with
       | Some status => hasStatus status
       | None =>
           if match getCode err with
              | Some code => hasCode code
              | None => false
              end
           then true
           else if isTypeError err
                   && match getMessage err with
                      | Some EmptyString => false
                      | Some msg => testNetworkish msg
                      | None => false
                      end
           then true
           else true
       end.

(** A sequence of checks stops at the first that throws. *)
Fixpoint firstThrown (checks : list (option Thrown)) : option Thrown :=
  match checks with
  | [] => None
  | Some e :: _ => Some e
  | None :: rest => firstThrown rest
  end.

Definition normalizeOptions (options : RetryOptions) : Thrown + Normalized :=
  let maxAttempts_ := orDefault (maxAttempts options) (ofZ 3) in
  let baseMs_ := orDefault (baseMs options) (ofZ 200) in
  let capMs_ := orDefault (capMs options) (ofZ 2000) in
  let factor_ := orDefault (factor options) (ofZ 2) in
  let jitter_ := orDefault (jitter options) JitterFull in
  let rng_ := orDefault (rng options) Math_random in
  match firstThrown
          [ assertValidMaxAttempts maxAttempts_;
            assertFiniteNonNegative "baseMs" (Some baseMs_);
            assertFiniteNonNegative "capMs" (Some capMs_);
            assertFinitePositive "factor" (Some factor_);
            assertFiniteNonNegative "maxElapsedMs"
              (present (maxElapsedMs options)) ] with
  | Some e => inl e
  | None =>
      let name := trim (orDefault (retryAfterHeaderName options) "retry-after"%string) in
      inr {| opts_maxAttempts := maxAttempts_;
             opts_baseMs := baseMs_;
             opts_capMs := capMs_;
             opts_factor := factor_;
             opts_jitter := jitter_;
             opts_rng := rng_;
             opts_respectRetryAfter :=
               orDefault (respectRetryAfter options) true;
             opts_retryAfterHeaderName :=
               match name with EmptyString => "retry-after"%string | _ => name end;
             opts_retryAfterBodyUnit :=
               orDefault (retryAfterBodyUnit options) UnitFalse;
             opts_shouldRetry :=
               orDefault (shouldRetry options)
                 (fun err ctx w => (Fulfilled (defaultShouldRetry err ctx w), w));
             opts_signal := present (signal options);
             opts_maxElapsedMs := present (maxElapsedMs options);
             opts_onRetry := present (onRetry options);
             opts_wrapError := orDefault (wrapError options) false |}
  end.

(** *** The monad of the loop *)

(** What an observer of a run sees the engine do, in order: the task called
    with a context, the classifier consulted, the random source drawn from,
    the hook called with an event (each with what came back), and [sleep]
    entered with a delay. *)
Inductive Obs : Type :=
| ObsTask (ctx : RetryContext) (r : Settled T)
| ObsShouldRetry (err : value) (ctx : RetryContext) (r : Settled bool)
| ObsRng (r : number)
| ObsRetry (ev : RetryEvent) (r : Settled unit)
| ObsSleep (ms : Z).

Record St : Type := { world : W; log : list Obs }.

Definition M (A : Type) : Type := St -> Completion A * St.

Definition ret {A} (a : A) : M A := fun s => (Normal a, s).

Definition bind {A B} (c : M A) (k : A -> M B) : M B :=
  fun s =>
    match c s with
    | (Normal a, s') => k a s'
    | (Throw e, s') => (Throw e, s')
    | (Pending, s') => (Pending, s')
    end.

Definition throw {A} (e : Thrown) : M A := fun s => (Throw e, s).

Definition pending {A} : M A := fun s => (Pending, s).

Notation "x <- c ;; k" := (bind c (fun x => k))
  (at level 100, c at next level, right associativity).
Notation "c ;;; k" := (bind c (fun _ => k))
  (at level 100, right associativity).

(** A host operation that changes the world. *)
Definition liftW {A} (f : W -> A * W) : M A :=
  fun s => let '(a, w) := f (world s) in
           (Normal a, {| world := w; log := log s |}).

(** A read of the world. *)
Definition readW {A} (f : W -> A) : M A :=
  fun s => (Normal (f (world s)), s).

Definition emit (o : Obs) : M unit :=
  fun s => (Normal tt, {| world := world s; log := log s ++ [o] |}).

(** A call out of the engine, recorded with what it returned. *)
Definition observe {A} (f : W -> A * W) (o : A -> Obs) : M A :=
  r <- liftW f ;;
  emit (o r) ;;;
  ret r.

(** A failure of the caller's code where the engine does not catch it. *)
Definition orThrow {A} (r : Settled A) : M A :=
  match r with
  | Fulfilled a => ret a
  | Rejected err => throw (ThrownValue err)
  end.

Definition now : M number := liftW Date_now.

(** *** The cancellable sleeper *)

Definition sleep (ms : number) (sg : option (AbortSignal W)) : M unit :=
  let waitMs := toIntMs ms in
  emit (ObsSleep waitMs) ;;;
  if waitMs =? 0 then
    a <- readW (signalAborted sg) ;;
    if a then throw (AbortError "Retry aborted") else
    liftW (fun w => (tt, awaitTimeout 0 w)) ;;;
    a <- readW (signalAborted sg) ;;
    if a then throw (AbortError "Retry aborted") else
    ret tt
  else
    match sg with
    | None => liftW (fun w => (tt, awaitTimeout waitMs w))
    | Some s =>
        a <- readW (aborted s) ;;
        if a then throw (AbortError "Retry aborted") else
        lost <- liftW (awaitTimeoutOrAbort waitMs s) ;;
        if lost then throw (AbortError "Retry aborted") else ret tt
    end.

(** *** The delay planner *)

(** [b ** e] for the whole number [e]: 1 when [e] is zero, whatever [b]
    is, and what the host computes otherwise. *)
Definition pow (b : number) (e : Z) : number :=
  match e with
  | Z0 => Fin 1
  | _ => exponentiate b (ofZ e)
  end.

Definition computeBackoffMs (attempt : Z) (baseMs capMs factor : number) : Z :=
  let raw := mul baseMs (pow factor (attempt - 1)) in
  let capped := Math_min capMs raw in
  toIntMs capped.

Definition parseRetryAfterHeaderMs (v : string) : M (option Z) :=
  let trimmed := trim v in
  let n := Number trimmed in
  if isFinite n then ret (Some (toIntMs (mul n (ofZ 1000))))
  else
    let t := Date_parse trimmed in
    if isFinite t then
      t0 <- now ;;
      ret (Some (toIntMs (sub t t0)))
    else ret None.

Definition applyFullJitter (backoffMs : Z) (rng_ : W -> number * W) : M Z :=
  r <- observe rng_ ObsRng ;;
  ret (jitterOf backoffMs r).

(** [status === 429] *)
Definition is429 (status : option number) : bool :=
  match status with
  | Some n => eqb n (ofZ 429)
  | None => false
  end.

(** Lines 324-343 of [retry]: the delay a retry hint asks for, if any. *)
Definition hintDelay (opts : Normalized) (err : value) : M (option Z) :=
  if opts_respectRetryAfter opts && is429 (getStatus err) then
    let headers := optProp (optProp err "response") "headers" in
    fromHeader <-
      match getHeader headers (opts_retryAfterHeaderName opts) with
      | Some h => parseRetryAfterHeaderMs h
      | None => ret None
      end ;;
    match fromHeader, opts_retryAfterBodyUnit opts with
    | Some parsed, _ => ret (Some parsed)
    | None, UnitFalse => ret None
    | None, unit => ret (parseRetryAfterBodyMs (readRetryAfterBody err) unit)
    end
  else ret None.

(** Lines 319-350 of [retry]: [reason] and [delayMs]. *)
Definition planDelay (opts : Normalized) (attempt : Z) (err : value)
  : M (Reason * Z) :=
  hint <- hintDelay opts err ;;
  match hint with
  | Some delayMs => ret (ReasonRetryAfter, toIntMs (ofZ delayMs))
  | None =>
      let backoff :=
        computeBackoffMs attempt (opts_baseMs opts) (opts_capMs opts)
          (opts_factor opts) in
      delayMs <-
        match opts_jitter opts with
        | JitterFull => applyFullJitter backoff (opts_rng opts)
        | JitterNone => ret backoff
        end ;;
      ret (ReasonBackoff, toIntMs (ofZ delayMs))
  end.

(** *** The retry loop *)

(** What giving up throws: the error, wrapped if [wrapError] is set. *)
Definition giveUp (opts : Normalized) (attempt elapsedMs : Z)
  (startedAt : number) (err : value) : Thrown :=
  if opts_wrapError opts then
    RetryExhaustedError attempt elapsedMs (opts_maxAttempts opts) startedAt err
  else ThrownValue err.

(** [opts.maxElapsedMs != null && ms > opts.maxElapsedMs] *)
Definition overBudget (opts : Normalized) (ms : Z) : option number :=
  match opts_maxElapsedMs opts with
  | Some m => if gtb (ofZ ms) m then Some m else None
  | None => None
  end.

(** [{ ...ctx, elapsedMs }] *)
Definition withElapsed (ctx : RetryContext) (elapsedMs : Z) : RetryContext :=
  {| ctx_attempt := ctx_attempt ctx;
     ctx_maxAttempts := ctx_maxAttempts ctx;
     ctx_startedAt := ctx_startedAt ctx;
     ctx_elapsedMs := elapsedMs;
     ctx_signal := ctx_signal ctx |}.

(** The context of an attempt (lines 285-291). *)
Definition contextOf (opts : Normalized) (startedAt : number)
  (attempt elapsedMs : Z) : RetryContext :=
  {| ctx_attempt := attempt;
     ctx_maxAttempts := opts_maxAttempts opts;
     ctx_startedAt := startedAt;
     ctx_elapsedMs := elapsedMs;
     ctx_signal := opts_signal opts |}.

(** The event of a retry (lines 356-362). *)
Definition eventOf (err : value) (reason : Reason) (delayMs attempt : Z)
  (updatedCtx : RetryContext) : RetryEvent :=
  {| ev_error := err;
     ev_reason := reason;
     ev_delayMs := delayMs;
     ev_nextAttempt := attempt + 1;
     ev_ctx := updatedCtx |}.

(** The [catch] block of the loop (lines 295-367), [attempt] already
    incremented. *)
Definition onFailure (opts : Normalized) (startedAt : number) (attempt : Z)
  (ctx : RetryContext) (err : value) : M unit :=
  if isAbortLikeError err then throw (ThrownValue err) else
  t <- now ;;
  let elapsedMs := toIntMs (sub t startedAt) in
  if geb (ofZ attempt) (opts_maxAttempts opts) then
    throw (giveUp opts attempt elapsedMs startedAt err)
  else
  a <- readW (signalAborted (opts_signal opts)) ;;
  if a then throw (AbortError "Retry aborted") else
  let updatedCtx := withElapsed ctx elapsedMs in
  answer <- observe (opts_shouldRetry opts err updatedCtx)
              (ObsShouldRetry err updatedCtx) ;;
  retriable <- orThrow answer ;;
  if negb retriable then throw (giveUp opts attempt elapsedMs startedAt err)
  else
  plan <- planDelay opts attempt err ;;
  let '(reason, delayMs) := plan in
  match overBudget opts (elapsedMs + delayMs) with
  | Some m => throw (RetryTimeoutError attempt elapsedMs m (Some err))
  | None =>
      let event := eventOf err reason delayMs attempt updatedCtx in
      match opts_onRetry opts with
      | Some hook =>
          back <- observe (hook event) (ObsRetry event) ;;
          orThrow back
      | None => ret tt
      end ;;;
      sleep (ofZ delayMs) (opts_signal opts)
  end.

(** One turn of [for (;;)]: the value the task resolved with, or [None] when
    the loop goes round again. *)
Definition iteration (opts : Normalized) (startedAt : number) (task : Task)
  (attempt : Z) : M (option T) :=
  a <- readW (signalAborted (opts_signal opts)) ;;
  if a then throw (AbortError "Retry aborted") else
  t0 <- now ;;
  let elapsedMs0 := toIntMs (sub t0 startedAt) in
  match overBudget opts elapsedMs0 with
  | Some m => throw (RetryTimeoutError attempt elapsedMs0 m None)
  | None =>
      let attempt := attempt + 1 in
      t1 <- now ;;
      let ctx := contextOf opts startedAt attempt (toIntMs (sub t1 startedAt)) in
      r <- observe (task ctx) (ObsTask ctx) ;;
      match r with
      | Fulfilled v => ret (Some v)
      | Rejected err => onFailure opts startedAt attempt ctx err ;;; ret None
      end
  end.

(** The loop, for as many turns as there is fuel. *)
Fixpoint retryLoop (fuel : nat) (opts : Normalized) (startedAt : number)
  (task : Task) (attempt : Z) : M T :=
  match fuel with
  | O => pending
  | S fuel' =>
      r <- iteration opts startedAt task attempt ;;
      match r with
      | Some v => ret v
      | None => retryLoop fuel' opts startedAt task (attempt + 1)
      end
  end.

(** A parameter [options: RetryOptions = {}]; [None] is the omitted
    argument. *)
Definition orEmpty (options : option RetryOptions) : RetryOptions :=
  match options with
  | Some o => o
  | None => emptyOptions
  end.

(** [retry(task, options)] *)
Definition retry (fuel : nat) (task : Task) (options : option RetryOptions)
  : M T :=
  match normalizeOptions (orEmpty options) with
  | inl e => throw e
  | inr opts =>
      startedAt <- now ;;
      retryLoop fuel opts startedAt task 0
  end.

(** [createRetry(defaultOptions)], applied to [task] and [options]. *)
Definition createRetry (defaultOptions : option RetryOptions) (fuel : nat)
  (task : Task) (options : option RetryOptions) : M T :=
  retry fuel task (Some (spread (orEmpty defaultOptions) (orEmpty options))).

(** *** The runs of the loop as traces *)

(** The delay planner can return [reason] and [delayMs] for the failure
    [err] of attempt [k], drawing [rngs] from the random source. *)
Definition Planned (opts : Normalized) (k : Z) (err : value)
  (reason : Reason) (delayMs : Z) (rngs : list Obs) : Prop :=
  exists s1 s2,
    planDelay opts k err s1 = (Normal (reason, delayMs), s2)
    /\ log s2 = log s1 ++ rngs.

(** What the hook adds to the trace when it returns. *)
Definition hookObs (opts : Normalized) (ev : RetryEvent) : list Obs :=
  match opts_onRetry opts with
  | Some _ => [ObsRetry ev (Fulfilled tt)]
  | None => []
  end.

(** The ways through the [catch] block for the failure [err] of attempt
    [k]: what is observed and how the block ends. *)
Inductive Failure (opts : Normalized) (startedAt : number) (k : Z)
  (ctx : RetryContext) (err : value)
  : list Obs -> Completion unit -> Prop :=
| F_cancelled :
    isAbortLikeError err = true ->
    Failure opts startedAt k ctx err [] (Throw (ThrownValue err))
| F_exhausted e :
    isAbortLikeError err = false ->
    geb (ofZ k) (opts_maxAttempts opts) = true ->
    Failure opts startedAt k ctx err []
      (Throw (giveUp opts k e startedAt err))
| F_aborted :
    isAbortLikeError err = false ->
    geb (ofZ k) (opts_maxAttempts opts) = false ->
    Failure opts startedAt k ctx err [] (Throw (AbortError "Retry aborted"))
| F_classifierThrew e x :
    isAbortLikeError err = false ->
    geb (ofZ k) (opts_maxAttempts opts) = false ->
    Failure opts startedAt k ctx err
      [ObsShouldRetry err (withElapsed ctx e) (Rejected x)]
      (Throw (ThrownValue x))
| F_declined e :
    isAbortLikeError err = false ->
    geb (ofZ k) (opts_maxAttempts opts) = false ->
    Failure opts startedAt k ctx err
      [ObsShouldRetry err (withElapsed ctx e) (Fulfilled false)]
      (Throw (giveUp opts k e startedAt err))
| F_overBudget e reason d rngs m :
    isAbortLikeError err = false ->
    geb (ofZ k) (opts_maxAttempts opts) = false ->
    Planned opts k err reason d rngs ->
    overBudget opts (e + d) = Some m ->
    Failure opts startedAt k ctx err
      (ObsShouldRetry err (withElapsed ctx e) (Fulfilled true) :: rngs)
      (Throw (RetryTimeoutError k e m (Some err)))
| F_hookThrew e reason d rngs x :
    isAbortLikeError err = false ->
    geb (ofZ k) (opts_maxAttempts opts) = false ->
    Planned opts k err reason d rngs ->
    overBudget opts (e + d) = None ->
    Failure opts startedAt k ctx err
      (ObsShouldRetry err (withElapsed ctx e) (Fulfilled true)
         :: rngs
         ++ [ObsRetry (eventOf err reason d k (withElapsed ctx e))
               (Rejected x)])
      (Throw (ThrownValue x))
| F_sleep e reason d rngs r :
    isAbortLikeError err = false ->
    geb (ofZ k) (opts_maxAttempts opts) = false ->
    Planned opts k err reason d rngs ->
    overBudget opts (e + d) = None ->
    r = Normal tt \/ r = Throw (AbortError "Retry aborted") ->
    Failure opts startedAt k ctx err
      (ObsShouldRetry err (withElapsed ctx e) (Fulfilled true)
         :: rngs
         ++ hookObs opts (eventOf err reason d k (withElapsed ctx e))
         ++ [ObsSleep d])
      r.

(** The ways through one turn of the loop entered with [attempt = a]. *)
Inductive Turn (opts : Normalized) (startedAt : number) (a : Z)
  : list Obs -> Completion (option T) -> Prop :=
| T_aborted :
    Turn opts startedAt a [] (Throw (AbortError "Retry aborted"))
| T_overBudget e0 m :
    overBudget opts e0 = Some m ->
    Turn opts startedAt a [] (Throw (RetryTimeoutError a e0 m None))
| T_resolved e v :
    Turn opts startedAt a
      [ObsTask (contextOf opts startedAt (a + 1) e) (Fulfilled v)]
      (Normal (Some v))
| T_failed e err obs r :
    Failure opts startedAt (a + 1) (contextOf opts startedAt (a + 1) e) err
      obs r ->
    Turn opts startedAt a
      (ObsTask (contextOf opts startedAt (a + 1) e) (Rejected err) :: obs)
      (match r with
       | Normal _ => Normal None
       | Throw x => Throw x
       | Pending => Pending
       end).

(** The runs of the loop from [attempt = a]: turns that go round, then one
    that settles, or the fuel of the model spent. *)
Inductive Run (opts : Normalized) (startedAt : number)
  : Z -> list Obs -> Completion T -> Prop :=
| Run_pending a :
    Run opts startedAt a [] Pending
| Run_resolved a obs v :
    Turn opts startedAt a obs (Normal (Some v)) ->
    Run opts startedAt a obs (Normal v)
| Run_rejected a obs x :
    Turn opts startedAt a obs (Throw x) ->
    Run opts startedAt a obs (Throw x)
| Run_again a obs obs' r :
    Turn opts startedAt a obs (Normal None) ->
    Run opts startedAt (a + 1) obs' r ->
    Run opts startedAt a (obs ++ obs') r.


End Engine.

Arguments RetryContext W : clear implicits.
Arguments RetryEvent W : clear implicits.
Arguments ShouldRetry W : clear implicits.
Arguments Task W T : clear implicits.
Arguments RetryOptions W : clear implicits.
Arguments Normalized W : clear implicits.
Arguments Obs W T : clear implicits.
Arguments St W T : clear implicits.
Arguments M W T A : clear implicits.

(* ================================================================== *)
(** ** What the specification calls an invalid configuration *)
(* ================================================================== *)

(** An integer that is at least 1: the denominator divides the numerator. *)
Definition integerAtLeast1 (n : number) : bool :=
  match n with
  | Fin q => (Qnum q mod Zpos (Qden q) =? 0) && Qle_bool 1 q
  | _ => false
  end.

(** Finite and at least 0. *)
Definition finiteAtLeast0 (n : number) : bool :=
  match n with
  | Fin q => Qle_bool 0 q
  | _ => false
  end.

(** Finite and above 0. *)
Definition finiteAbove0 (n : number) : bool :=
  match n with
  | Fin q => negb (Qle_bool q 0)
  | _ => false
  end.

(** The option is present and is not as it must be. *)
Definition presentButNot {A} (ok : A -> bool) (f : Field A) : bool :=
  match f with
  | Value a => negb (ok a)
  | _ => false
  end.

Definition invalidConfiguration {W} (o : RetryOptions W) : bool :=
  presentButNot integerAtLeast1 (maxAttempts o)
  || presentButNot finiteAtLeast0 (baseMs o)
  || presentButNot finiteAtLeast0 (capMs o)
  || presentButNot finiteAtLeast0 (maxElapsedMs o)
  || presentButNot finiteAbove0 (factor o).

(* ================================================================== *)
(** ** The backoff delays as formulas *)
(* ================================================================== *)

(** [min(capMs, baseMs * factor^(k-1))], over the rationals. *)
Definition cappedBackoff (b c f : Q) (k : Z) : Q :=
  Qmin c (b * f ^ (k - 1)).

(** The delay after attempt [k] under full jitter as the specification
    states it: [floor(r * min(capMs, baseMs * factor^(k-1)))], over the
    rationals. *)
Definition specFullJitterDelay (r b c f : Q) (k : Z) : Z :=
  Qfloor (r * cappedBackoff b c f k).

(** The double that the literal [0.999999999] denotes. *)
Definition jitterCeilingQ : Q := 9007199245733793 # 9007199254740992.

(** A draw of the random source clamped to [[0, 0.999999999]], a draw that
    is not finite counting as 0. *)
Definition clampDraw (r : number) : Q :=
  Qmax 0 (Qmin jitterCeilingQ (match r with Fin x => x | _ => 0 end)).

(** The number [x] is finite and is the rational [q]: where [x] is a
    product or a power, no rounding was needed. *)
Definition exactly (x : number) (q : Q) : Prop :=
  exists v, x = Fin v /\ (v == q)%Q.

Section Formulas.

Context {W : Type} {host : Host W}.

(** The delay after attempt [k] without jitter, as the engine has it: the
    capped backoff brought to a whole number that is not negative, the
    product and the power being those of doubles. *)
Definition noJitterDelay (b c f : Q) (k : Z) : Z :=
  toIntMs (Math_min (Fin c) (mul (Fin b) (pow (Fin f) (k - 1)))).

(** The delay after attempt [k] under full jitter, as the engine has it:
    the floor of the product, a double, of the clamped draw and the delay
    without jitter. *)
Definition fullJitterDelay (r : number) (b c f : Q) (k : Z) : Z :=
  toIntMs (Math_floor (mul (Fin (clampDraw r))
                         (ofZ (noJitterDelay b c f k)))).

End Formulas.

(* ================================================================== *)
(** ** Reading traces *)
(* ================================================================== *)

Section Traces.

Context {W T : Type}.

(** The contexts the task was called with, in order. *)
Fixpoint taskCalls (l : list (Obs W T)) : list (RetryContext W) :=
  match l with
  | [] => []
  | ObsTask ctx _ :: rest => ctx :: taskCalls rest
  | _ :: rest => taskCalls rest
  end.

(** The events the hook was called with, in order. *)
Fixpoint retryEvents (l : list (Obs W T)) : list (RetryEvent W) :=
  match l with
  | [] => []
  | ObsRetry ev _ :: rest => ev :: retryEvents rest
  | _ :: rest => retryEvents rest
  end.

(** The delays [sleep] was entered with, in order. *)
Fixpoint sleeps (l : list (Obs W T)) : list Z :=
  match l with
  | [] => []
  | ObsSleep ms :: rest => ms :: sleeps rest
  | _ :: rest => sleeps rest
  end.

(** The errors the classifier was consulted about, in order. *)
Fixpoint classified (l : list (Obs W T)) : list value :=
  match l with
  | [] => []
  | ObsShouldRetry err _ _ :: rest => err :: classified rest
  | _ :: rest => classified rest
  end.

(** What holds of every event delivered to the hook: its error is not
    cancellation-like, the attempt that failed (one before the next) is
    below the ceiling, the classifier was asked about the error and
    accepted, and the delay is not negative and fits the budget from the
    elapsed time the classifier was given. *)
Definition Scheduled (opts : Normalized W) (l : list (Obs W T))
  (ev : RetryEvent W) : Prop :=
  isAbortLikeError (ev_error ev) = false
  /\ geb (ofZ (ev_nextAttempt ev - 1)) (opts_maxAttempts opts) = false
  /\ (exists c,
        In (ObsShouldRetry (ev_error ev) c (Fulfilled true)) l
        /\ overBudget opts (ctx_elapsedMs c + ev_delayMs ev) = None)
  /\ 0 <= ev_delayMs ev.



End Traces.

(* ================================================================== *)
(** ** Reading headers, as a search *)
(* ================================================================== *)

(** What [getHeader] makes of the value of a header: a string, or the first
    element of an array when that is a string. *)
Definition usableHeader (x : value) : option string :=
  match x with
  | VStr s => Some s
  | VArr (VStr s :: _) => Some s
  | _ => None
  end.

(** The entry is for the header [name], whatever the case, and its value is
    usable. *)
Definition matchesHeader (name : string) (kx : string * value) : bool :=
  (toLowerCase (fst kx) =? toLowerCase name)%string
  && match usableHeader (snd kx) with Some _ => true | None => false end.

(** The object has a callable [get]. *)
Definition hasGetAccessor (props : list (string * value)) : bool :=
  match lookup "get" props with
  | VFun _ _ => true
  | _ => false
  end.

(* ================================================================== *)
(** ** More readings of a trace *)
(* ================================================================== *)

(** The numbers drawn from the random source, in order. *)
Fixpoint draws {W T} (l : list (Obs W T)) : list number :=
  match l with
  | [] => []
  | ObsRng r :: rest => r :: draws rest
  | _ :: rest => draws rest
  end.

(** What an error of the engine's own says about the run [obs] it ends:
    it is never a [RangeError], its [AbortError] has the one message, its
    [RetryTimeoutError] reports the configured budget, and its
    [RetryExhaustedError] is thrown only with [wrapError], for the failure
    of the last call of the task, either the last attempt allowed or one
    the classifier declined.  A value thrown by the caller's code (the
    task, the classifier, the hook, the random source, a header's [get])
    passes through the engine; nothing is said of it here. *)
Definition Rejection {W T} (opts : Normalized W) (startedAt : number)
  (obs : list (Obs W T)) (x : Thrown) : Prop :=
  match x with
  | RangeError _ _ => False
  | AbortError message => message = "Retry aborted"%string
  | RetryTimeoutError _ _ m _ => opts_maxElapsedMs opts = Some m
  | RetryExhaustedError k e mx st cause =>
      opts_wrapError opts = true
      /\ mx = opts_maxAttempts opts
      /\ st = startedAt
      /\ isAbortLikeError cause = false
      /\ exists l ctx rest,
           obs = l ++ ObsTask ctx (Rejected cause) :: rest
           /\ ctx_attempt ctx = k
           /\ ((rest = [] /\ geb (ofZ k) mx = true)
               \/ exists c, rest = [ObsShouldRetry cause c (Fulfilled false)])
  | ThrownValue _ => True
  end.

(* ================================================================== *)
(** ** errors.ts: the engine's errors as objects *)
(* ================================================================== *)

Section Errors.

(** How a number prints in a template literal is left to the host. *)
Variable show : number -> string.

(** The own properties that the constructor of [AsyncRetryError] assigns,
    in order, when called through the class [name]: [message] (by
    [Error]), [name], [code], and [cause] unless it is [undefined]. *)
Definition AsyncRetryError (name message code : string) (cause : value)
  : list (string * value) :=
  [("message"%string, VStr message); ("name"%string, VStr name);
   ("code"%string, VStr code)]
  ++ match cause with
     | VUndefined => []
     | _ => [("cause"%string, cause)]
     end.

(** [new AbortError(message)]: the name is assigned again, to the same
    string. *)
Definition newAbortError (message : string) : value :=
  VObj ProtoError
    (AsyncRetryError "AbortError"%string message
       "ERR_ASYNC_RETRY_ABORTED"%string VUndefined).

(** [new RetryTimeoutError({ attempts, elapsedMs, maxElapsedMs }, cause)] *)
Definition newRetryTimeoutError (attempts elapsedMs : Z)
  (maxElapsedMs : number) (cause : value) : value :=
  VObj ProtoError
    (AsyncRetryError "RetryTimeoutError"%string
       ("Retry timeout: elapsed=" ++ show (ofZ elapsedMs)
        ++ "ms exceeded budget=" ++ show maxElapsedMs ++ "ms")%string
       "ERR_ASYNC_RETRY_TIMEOUT"%string cause
     ++ [("attempts"%string, VNum (ofZ attempts));
         ("elapsedMs"%string, VNum (ofZ elapsedMs));
         ("maxElapsedMs"%string, VNum maxElapsedMs)]).

(** [new RetryExhaustedError({ attempts, elapsedMs, maxAttempts,
    startedAt }, cause)] *)
Definition newRetryExhaustedError (attempts elapsedMs : Z)
  (maxAttempts startedAt : number) (cause : value) : value :=
  VObj ProtoError
    (AsyncRetryError "RetryExhaustedError"%string
       ("Retry exhausted: attempts=" ++ show (ofZ attempts) ++ "/"
        ++ show maxAttempts ++ ", elapsed=" ++ show (ofZ elapsedMs) ++ "ms")%string
       "ERR_ASYNC_RETRY_EXHAUSTED"%string cause
     ++ [("attempts"%string, VNum (ofZ attempts));
         ("elapsedMs"%string, VNum (ofZ elapsedMs));
         ("maxAttempts"%string, VNum maxAttempts);
         ("startedAt"%string, VNum startedAt)]).

(** The value that a rejection of [retry] is to the code that awaits it:
    what the caller's code threw, or the object that the engine
    constructs.  The [RangeError] of the validation is the host's own and
    is left out. *)
Definition thrownObject (e : Thrown) : option value :=
  match e with
  | ThrownValue v => Some v
  | RangeError _ _ => None
  | AbortError message => Some (newAbortError message)
  | RetryTimeoutError attempts elapsedMs m cause =>
      Some (newRetryTimeoutError attempts elapsedMs m
              match cause with Some err => err | None => VUndefined end)
  | RetryExhaustedError attempts elapsedMs mx startedAt cause =>
      Some (newRetryExhaustedError attempts elapsedMs mx startedAt cause)
  end.

End Errors.

(** The context that an observation carries: that of the call of the
    task, of the classifier, or of the event given to the hook. *)
Definition obsContext {W T} (o : Obs W T) : option (RetryContext W) :=
  match o with
  | ObsTask ctx _ => Some ctx
  | ObsShouldRetry _ ctx _ => Some ctx
  | ObsRetry ev _ => Some (ev_ctx ev)
  | _ => None
  end.

(* ================================================================== *)
(** ** The promise inside [sleep], event by event *)
(* ================================================================== *)

(** Lines 128-145 of [sleep] and [addAbortHandler], below the await that
    [awaitTimeoutOrAbort] stands for: what the executor closes over, and
    what the timer and the abort event do to it. *)
Module Sleeper.

(** The functions pushed on [cleanups]. *)
Inductive Cleanup : Type :=
| ClearTimeout           (* [() => clearTimeout(t)] *)
| RemoveAbortListener.   (* [() => signal.removeEventListener('abort', onAbort)] *)

Record Exec : Type := {
  done : bool;                       (* [let done] *)
  cleanups : list Cleanup;           (* [const cleanups] *)
  timer : option Z;                  (* the timeout [t], while scheduled *)
  listener : bool;                   (* [onAbort] is registered on the signal *)
  settled : option (option Thrown)   (* the promise: resolved, or rejected *)
}.

Definition call (fn : Cleanup) (x : Exec) : Exec :=
  match fn with
  | ClearTimeout =>
      {| done := done x; cleanups := cleanups x; timer := None;
         listener := listener x; settled := settled x |}
  | RemoveAbortListener =>
      {| done := done x; cleanups := cleanups x; timer := timer x;
         listener := false; settled := settled x |}
  end.

(** [resolve()] and [reject(err)]: a promise settles once. *)
Definition settle (err : option Thrown) (x : Exec) : Exec :=
  match settled x with
  | Some _ => x
  | None =>
      {| done := done x; cleanups := cleanups x; timer := timer x;
         listener := listener x; settled := Some err |}
  end.

(** [finish(err)] *)
Definition finish (err : option Thrown) (x : Exec) : Exec :=
  if done x then x
  else
    let spliced := cleanups x in
    let x1 := {| done := true; cleanups := []; timer := timer x;
                 listener := listener x; settled := settled x |} in
    settle err (fold_left (fun st fn => call fn st) spliced x1).

(** [addAbortHandler(signal, onAbort)]: [hasSignal] is [!!signal]. *)
Definition addAbortHandler (hasSignal : bool) (x : Exec)
  : option Cleanup * Exec :=
  if negb hasSignal then (None, x)
  else (Some RemoveAbortListener,
        {| done := done x; cleanups := cleanups x; timer := timer x;
           listener := true; settled := settled x |}).

(** The executor, run to its end. *)
Definition executor (waitMs : Z) (hasSignal : bool) : Exec :=
  let x0 := {| done := false; cleanups := []; timer := Some waitMs;
               listener := false; settled := None |} in
  let x1 := {| done := done x0; cleanups := cleanups x0 ++ [ClearTimeout];
               timer := timer x0; listener := listener x0;
               settled := settled x0 |} in
  let '(rmAbort, x2) := addAbortHandler hasSignal x1 in
  match rmAbort with
  | Some fn =>
      {| done := done x2; cleanups := cleanups x2 ++ [fn];
         timer := timer x2; listener := listener x2;
         settled := settled x2 |}
  | None => x2
  end.

(** What can happen next: the timer fires, or the signal dispatches
    [abort]. *)
Inductive Event : Type := TimerFires | AbortFires.

(** A timer fires once, if it has not been cleared; a listener registered
    with [{ once: true }] is removed when it runs. *)
Definition step (x : Exec) (ev : Event) : Exec :=
  match ev with
  | TimerFires =>
      match timer x with
      | Some _ =>
          finish None
            {| done := done x; cleanups := cleanups x; timer := None;
               listener := listener x; settled := settled x |}
      | None => x
      end
  | AbortFires =>
      if listener x then
        finish (Some (AbortError "Retry aborted"))
          {| done := done x; cleanups := cleanups x; timer := timer x;
             listener := false; settled := settled x |}
      else x
  end.

Definition outcome (ev : Event) : option Thrown :=
  match ev with
  | TimerFires => None
  | AbortFires => Some (AbortError "Retry aborted")
  end.

End Sleeper.

(* ================================================================== *)
(** ** A host, some errors and some tasks *)
(* ================================================================== *)

(** A small host to run the engine on: its world is the time on the clock,
    the number of times the task has been called and the time, if any, at
    which the caller aborts its signal; timers advance the clock. *)
Module Scenario.

Record World : Type := { clock : Z; calls : Z; abortAt : option Z }.

Definition advance (ms : Z) (w : World) : World :=
  {| clock := clock w + ms; calls := calls w; abortAt := abortAt w |}.

Definition called (w : World) : World :=
  {| clock := clock w; calls := calls w + 1; abortAt := abortAt w |}.

(** The signal of the caller's [AbortController]. *)
Definition controllerSignal : AbortSignal World :=
  {| aborted := fun w =>
                  match abortAt w with
                  | Some t => t <=? clock w
                  | None => false
                  end |}.

(** A timer of [ms] against the abort: the abort wins when it comes before
    the timer fires. *)
Definition race (ms : Z) (w : World) : bool * World :=
  match abortAt w with
  | Some t =>
      if t <? clock w + ms
      then (true, advance (Z.max 0 (t - clock w)) w)
      else (false, advance ms w)
  | None => (false, advance ms w)
  end.

(** A [**] that rounds the power to the nearest double; the engine raises
    to whole numbers only. *)
Definition nearestPower (b e : number) : number :=
  match e with
  | Fin q => if Qeq_bool (inject_Z (Qfloor q)) q then powNearest b (Qfloor q)
             else NaN
  | _ => NaN
  end.

#[export] Instance host : Host World := {|
  Date_now := fun w => (ofZ (clock w), w);
  Date_parse := fun _ => NaN;
  Math_random := fun w => (Fin 0.5, w);
  awaitTimeout := advance;
  awaitTimeoutOrAbort := fun ms _ w => race ms w;
  exponentiate := nearestPower
|}.

Definition start : St World string :=
  {| world := {| clock := 0; calls := 0; abortAt := None |}; log := [] |}.

(** The same, with the signal aborted at time [t]. *)
Definition startAbortingAt (t : Z) : St World string :=
  {| world := {| clock := 0; calls := 0; abortAt := Some t |}; log := [] |}.

(** [new Error('fail')] *)
Definition boom : value :=
  VObj ProtoError [("message", VStr "fail")]%string.

(** [{ status: 404, code: 'ECONNRESET' }] *)
Definition notFoundReset : value :=
  VObj ProtoObject
    [("status", VNum (ofZ 404)); ("code", VStr "ECONNRESET")]%string.

(** [{ code: 'ABORT_ERR' }] *)
Definition abortLike : value :=
  VObj ProtoObject [("code", VStr "ABORT_ERR")]%string.

(** [{ response: { status: 429, headers: { 'Retry-After': h } } }] *)
Definition tooMany (h : string) : value :=
  VObj ProtoObject
    [("response",
      VObj ProtoObject
        [("status", VNum (ofZ 429));
         ("headers", VObj ProtoObject [("Retry-After", VStr h)])])]%string.

(** [async () => { throw err }] *)
Definition failing (err : value) : Task World string :=
  fun _ w => (Rejected err, called w).

(** [async () => 'ok'] *)
Definition succeeding : Task World string :=
  fun _ w => (Fulfilled "ok"%string, called w).

(** A task that throws [err] on its first [n] attempts, taking [ms] each
    time, and then resolves. *)
Definition flaky (n ms : Z) (err : value) : Task World string :=
  fun ctx w =>
    if ctx_attempt ctx <=? n then (Rejected err, advance ms (called w))
    else (Fulfilled "ok"%string, called w).

(** [(e) => {}] *)
Definition quietHook : RetryEvent World -> World -> Settled unit * World :=
  fun _ w => (Fulfilled tt, w).

(** [() => r] *)
Definition constantRng (r : number) : World -> number * World :=
  fun w => (r, w).

(** [{ maxAttempts: n }] *)
Definition onlyMaxAttempts (n : number) : RetryOptions World :=
  {| maxAttempts := Value n; baseMs := Absent; capMs := Absent;
     factor := Absent; jitter := Absent; rng := Absent; signal := Absent;
     maxElapsedMs := Absent; shouldRetry := Absent; onRetry := Absent;
     respectRetryAfter := Absent; retryAfterHeaderName := Absent;
     retryAfterBodyUnit := Absent; wrapError := Absent |}.

(** [{ baseMs, capMs, factor, jitter, rng: () => r, onRetry: (e) => {} }] *)
Definition backoffOptions (base cap fac : number) (j : Jitter) (r : number)
  : RetryOptions World :=
  {| maxAttempts := Absent; baseMs := Value base; capMs := Value cap;
     factor := Value fac; jitter := Value j; rng := Value (constantRng r);
     signal := Absent; maxElapsedMs := Absent; shouldRetry := Absent;
     onRetry := Value quietHook; respectRetryAfter := Absent;
     retryAfterHeaderName := Absent; retryAfterBodyUnit := Absent;
     wrapError := Absent |}.

(** [{ maxElapsedMs: m, baseMs: base, jitter: 'none', wrapError: true,
       onRetry: (e) => {} }] *)
Definition budgetOptions (m base : number) : RetryOptions World :=
  {| maxAttempts := Absent; baseMs := Value base; capMs := Absent;
     factor := Absent; jitter := Value JitterNone; rng := Absent;
     signal := Absent; maxElapsedMs := Value m; shouldRetry := Absent;
     onRetry := Value quietHook; respectRetryAfter := Absent;
     retryAfterHeaderName := Absent; retryAfterBodyUnit := Absent;
     wrapError := Value true |}.

(** [{ maxAttempts: 5, baseMs: 1000, rng: () => 0.5,
       signal: controller.signal, onRetry: (e) => {} }] *)
Definition abortable : RetryOptions World :=
  {| maxAttempts := Value (ofZ 5); baseMs := Value (ofZ 1000);
     capMs := Absent; factor := Absent; jitter := Absent;
     rng := Value (constantRng (Fin 0.5)); signal := Value controllerSignal;
     maxElapsedMs := Absent; shouldRetry := Absent;
     onRetry := Value quietHook; respectRetryAfter := Absent;
     retryAfterHeaderName := Absent; retryAfterBodyUnit := Absent;
     wrapError := Absent |}.

(** [{ maxAttempts: 2, baseMs: 100, jitter: 'none', retryAfterHeaderName,
       retryAfterBodyUnit, onRetry: (e) => {} }] *)
Definition hintOptions (name : Field string) (unit : Field BodyUnit)
  : RetryOptions World :=
  {| maxAttempts := Value (ofZ 2); baseMs := Value (ofZ 100);
     capMs := Absent; factor := Absent; jitter := Value JitterNone;
     rng := Absent; signal := Absent; maxElapsedMs := Absent;
     shouldRetry := Absent; onRetry := Value quietHook;
     respectRetryAfter := Absent; retryAfterHeaderName := name;
     retryAfterBodyUnit := unit; wrapError := Absent |}.

(** [{ response: { status: 429, headers } }] *)
Definition tooManyWith (headers : value) : value :=
  VObj ProtoObject
    [("response",
      VObj ProtoObject
        [("status", VNum (ofZ 429)); ("headers", headers)])]%string.

(** [{ get: (key) => key.toLowerCase() === 'retry-after' ? '2' : null }] *)
Definition fetchHeadersLike : value :=
  VObj ProtoObject
    [("get"%string,
      VFun "get"
        (fun key =>
           if (toLowerCase key =? "retry-after")%string then VStr "2"
           else VNull))].

(** [{ response: { status: 429, data: { retry_after: '2' } } }] *)
Definition tooManyBody : value :=
  VObj ProtoObject
    [("response",
      VObj ProtoObject
        [("status", VNum (ofZ 429));
         ("data", VObj ProtoObject [("retry_after", VStr "2")])])]%string.

(** [{ maxAttempts: 1, wrapError: true }] *)
Definition onceWrapped : RetryOptions World :=
  {| maxAttempts := Value (ofZ 1); baseMs := Absent; capMs := Absent;
     factor := Absent; jitter := Absent; rng := Absent; signal := Absent;
     maxElapsedMs := Absent; shouldRetry := Absent; onRetry := Absent;
     respectRetryAfter := Absent; retryAfterHeaderName := Absent;
     retryAfterBodyUnit := Absent; wrapError := Value true |}.

(** What [normalizeOptions] makes of [options]; [RangeError] does not
    occur at the options above. *)
Definition normalized (options : RetryOptions World) : Normalized World :=
  match normalizeOptions options with
  | inr opts => opts
  | inl _ =>
      {| opts_maxAttempts := NaN; opts_baseMs := NaN; opts_capMs := NaN;
         opts_factor := NaN; opts_jitter := JitterNone;
         opts_rng := Math_random; opts_respectRetryAfter := false;
         opts_retryAfterHeaderName := EmptyString; opts_retryAfterBodyUnit := UnitFalse;
         opts_shouldRetry := fun _ _ w => (Fulfilled false, w);
         opts_signal := None; opts_maxElapsedMs := None;
         opts_onRetry := None; opts_wrapError := false |}
  end.

(** The configuration of the example in the specification: [baseMs = 1000],
    [capMs = 1500], [factor = 2], full jitter, a random source that always
    returns 0.5. *)
Definition exampleOptions : RetryOptions World :=
  backoffOptions (ofZ 1000) (ofZ 1500) (ofZ 2) JitterFull (Fin 0.5).

(** [baseMs = 1.5], [capMs = 1500], [factor = 2], full jitter, a random
    source that always returns 0.75. *)
Definition fractionalOptions : RetryOptions World :=
  backoffOptions (Fin 1.5) (ofZ 1500) (ofZ 2) JitterFull (Fin 0.75).

(** [{ maxElapsedMs: 100, baseMs: 150, jitter: 'none', wrapError: true }] *)
Definition tightBudget : RetryOptions World :=
  budgetOptions (ofZ 100) (ofZ 150).

(** The context of the first attempt of a run started at time 0. *)
Definition firstContext (options : RetryOptions World) (elapsedMs : Z)
  : RetryContext World :=
  contextOf (normalized options) (ofZ 0) 1 elapsedMs.

(** [{ maxAttempts: undefined }] *)
Definition undefinedMaxAttempts : RetryOptions World :=
  {| maxAttempts := Undefined; baseMs := Absent; capMs := Absent;
     factor := Absent; jitter := Absent; rng := Absent; signal := Absent;
     maxElapsedMs := Absent; shouldRetry := Absent; onRetry := Absent;
     respectRetryAfter := Absent; retryAfterHeaderName := Absent;
     retryAfterBodyUnit := Absent; wrapError := Absent |}.

(** An HTTP date, and the host above with a [Date.parse] that reads it. *)
Definition httpDate : string := "Wed, 21 Oct 2015 07:28:00 GMT".

Definition datedHost : Host World := {|
  Date_now := fun w => (ofZ (clock w), w);
  Date_parse := fun s =>
                  if (s =? httpDate)%string then ofZ 1445412480000 else NaN;
  Math_random := fun w => (Fin 0.5, w);
  awaitTimeout := advance;
  awaitTimeoutOrAbort := fun ms _ w => race ms w;
  exponentiate := nearestPower
|}.

(** The clock reads [t]. *)
Definition startAt (t : Z) : St World string :=
  {| world := {| clock := t; calls := 0; abortAt := None |}; log := [] |}.

(** How the integers print. *)
Definition showInteger (n : number) : string :=
  match n with
  | Fin q => NilZero.string_of_int (Z.to_int (Qfloor q))
  | PInf => "Infinity"
  | NInf => "-Infinity"
  | NaN => "NaN"
  end.

End Scenario.

(* ================================================================== *)
(** ** Properties *)
(* ================================================================== *)

(** *** Numbers *)

Lemma Qtrunc_inject_Z (z : Z) : Qtrunc (inject_Z z) = z.
Proof. unfold Qtrunc; simpl. apply Z.quot_1_r. Qed.

Lemma toIntMs_nonneg (n : number) : 0 <= toIntMs n.
Proof. destruct n; simpl; lia. Qed.

Lemma toIntMs_ofZ (z : Z) : toIntMs (ofZ z) = Z.max 0 z.
Proof. unfold toIntMs, ofZ. now rewrite Qtrunc_inject_Z. Qed.

Lemma toIntMs_idem (n : number) : toIntMs (ofZ (toIntMs n)) = toIntMs n.
Proof. rewrite toIntMs_ofZ. pose proof (toIntMs_nonneg n). lia. Qed.

Lemma Qltb_lt (x y : Q) : Qltb x y = true <-> (x < y)%Q.
Proof.
  unfold Qltb. rewrite Qlt_alt. destruct (x ?= y)%Q; split; congruence.
Qed.

Lemma Qltb_ge (x y : Q) : Qltb x y = false <-> (y <= x)%Q.
Proof.
  rewrite Qle_alt. unfold Qltb. rewrite <- (Qcompare_antisym x y).
  destruct (x ?= y)%Q; simpl; split; congruence.
Qed.

(** *** Rounding *)

Lemma rne_le (q : Q) : (inject_Z (rne q) <= q + (1 # 2))%Q.
Proof.
  unfold rne. pose proof (Qfloor_le q) as Hf.
  destruct (q - inject_Z (Qfloor q) ?= 1 # 2)%Q eqn:C.
  - apply Qeq_alt in C. destruct (Z.even (Qfloor q)).
    + lra.
    + rewrite inject_Z_plus. change (inject_Z 1) with 1%Q. lra.
  - lra.
  - apply Qgt_alt in C. rewrite inject_Z_plus. change (inject_Z 1) with 1%Q.
    lra.
Qed.

Lemma rne_nonneg (q : Q) : (0 <= q)%Q -> 0 <= rne q.
Proof.
  intros H. apply (Qfloor_resp_le 0 q) in H. change (Qfloor 0) with 0 in H.
  unfold rne. destruct (_ ?= _)%Q; [destruct (Z.even _)| |]; lia.
Qed.

Lemma pow2_pos (e : Z) : (0 < 2 ^ e)%Q.
Proof. apply Qpower_0_lt. reflexivity. Qed.

(** The binade of [q] starts at or below [q]. *)
Lemma binade_le (q : Q) : (0 < q)%Q -> (2 ^ binade q <= q)%Q.
Proof.
  intros Hq. unfold binade.
  set (a := Z.log2 (Qnum q)). set (b := Z.log2 (Zpos (Qden q))).
  destruct (Qltb q (2 ^ (a - b))) eqn:C.
  2:{ now apply Qltb_ge in C. }
  assert (0 < Qnum q) as Hn.
  { destruct q as [n d]. unfold Qlt in Hq. simpl in *. lia. }
  destruct (Z.log2_spec (Qnum q) Hn) as [Ha _]. fold a in Ha.
  destruct (Z.log2_spec (Zpos (Qden q)) eq_refl) as [_ Hb]. fold b in Hb.
  assert (0 <= a) by apply Z.log2_nonneg.
  assert (0 <= b) by apply Z.log2_nonneg.
  replace (a - b - 1) with (a - (b + 1)) by lia.
  rewrite Qpower_minus by discriminate.
  change 2%Q with (inject_Z 2).
  rewrite <- !Zpower_Qpower by lia.
  replace (Z.succ b) with (b + 1) in Hb by lia.
  assert (0 < 2 ^ (b + 1)) as Hp by (apply Z.pow_pos_nonneg; lia).
  apply Qle_shift_div_r.
  - change 0%Q with (inject_Z 0). rewrite <- Zlt_Qlt. exact Hp.
  - destruct q as [n d]. unfold Qle. cbn [Qnum Qden inject_Z Qmult] in *.
    rewrite Pos.mul_1_r, Z.mul_1_r. nia.
Qed.

Lemma binade_lt (q : Q) : (0 < q)%Q -> (q < 2 ^ (binade q + 1))%Q.
Proof.
  intros Hq. unfold binade.
  set (a := Z.log2 (Qnum q)). set (b := Z.log2 (Zpos (Qden q))).
  destruct (Qltb q (2 ^ (a - b))) eqn:C.
  { apply Qltb_lt in C. now replace (a - b - 1 + 1) with (a - b) by lia. }
  assert (0 < Qnum q) as Hn.
  { destruct q as [n d]. unfold Qlt in Hq. simpl in *. lia. }
  destruct (Z.log2_spec (Qnum q) Hn) as [_ Ha]. fold a in Ha.
  destruct (Z.log2_spec (Zpos (Qden q)) eq_refl) as [Hb _]. fold b in Hb.
  assert (0 <= a) by apply Z.log2_nonneg.
  assert (0 <= b) by apply Z.log2_nonneg.
  replace (a - b + 1) with (a + 1 - b) by lia.
  rewrite Qpower_minus by discriminate.
  change 2%Q with (inject_Z 2).
  rewrite <- !Zpower_Qpower by lia.
  replace (Z.succ a) with (a + 1) in Ha by lia.
  assert (0 < 2 ^ b) as Hp by (apply Z.pow_pos_nonneg; lia).
  apply Qlt_shift_div_l.
  - change 0%Q with (inject_Z 0). rewrite <- Zlt_Qlt. exact Hp.
  - destruct q as [n d]. unfold Qlt. cbn [Qnum Qden inject_Z Qmult] in *.
    rewrite Z.mul_1_r. nia.
Qed.

Lemma pow2_le (x y : Z) : x <= y -> (2 ^ x <= 2 ^ y)%Q.
Proof. intros H. apply Qpower_le_compat_l; [assumption | discriminate]. Qed.

Lemma pow2_lt_inv (x y : Z) : (2 ^ x < 2 ^ y)%Q -> x < y.
Proof. intros H. apply (Qpower_lt_compat_l_inv 2); [assumption | reflexivity]. Qed.

Lemma binade_mono (p q : Q) : (0 < p)%Q -> (p <= q)%Q -> binade p <= binade q.
Proof.
  intros Hp Hpq.
  assert (0 < q)%Q as Hq by lra.
  pose proof (binade_le p Hp). pose proof (binade_lt q Hq).
  assert (2 ^ binade p < 2 ^ (binade q + 1))%Q as H1 by lra.
  apply pow2_lt_inv in H1. lia.
Qed.

Lemma rne_bounds (q : Q) : Qfloor q <= rne q <= Qfloor q + 1.
Proof.
  unfold rne. destruct (_ ?= _)%Q; [destruct (Z.even _)| |]; lia.
Qed.

Lemma rne_comp (x y : Q) : (x == y)%Q -> rne x = rne y.
Proof.
  intros H. unfold rne. rewrite (Qfloor_comp _ _ H).
  assert ((x - inject_Z (Qfloor y) ?= 1 # 2) = (y - inject_Z (Qfloor y) ?= 1 # 2))%Q
    as -> by (apply Qcompare_comp; [rewrite H|]; reflexivity).
  reflexivity.
Qed.

Lemma rne_Z (z : Z) : rne (inject_Z z) = z.
Proof.
  unfold rne. rewrite Qfloor_Z.
  unfold Qminus. rewrite Qplus_opp_r. reflexivity.
Qed.

Lemma rne_mono (x y : Q) : (x <= y)%Q -> rne x <= rne y.
Proof.
  intros H. pose proof (Qfloor_resp_le _ _ H) as Hf.
  pose proof (rne_bounds x). pose proof (rne_bounds y).
  destruct (Z.eq_dec (Qfloor x) (Qfloor y)) as [E|E]; [|lia].
  clear - H E. unfold rne. rewrite E.
  destruct (Qcompare_spec (x - inject_Z (Qfloor y)) (1 # 2)) as [Cx|Cx|Cx];
    destruct (Qcompare_spec (y - inject_Z (Qfloor y)) (1 # 2)) as [Cy|Cy|Cy];
    try (destruct (Z.even (Qfloor y))); try lia; exfalso; lra.
Qed.

Lemma pow2_Z (n : Z) : 0 <= n -> (2 ^ n == inject_Z (2 ^ n))%Q.
Proof. intros H. change 2%Q with (inject_Z 2). now rewrite Zpower_Qpower. Qed.

Lemma nearest_upper (a : Q) :
  (0 < a)%Q -> (nearest a <= 2 ^ (binade a + 1))%Q.
Proof.
  intros Ha. unfold nearest.
  set (B := binade a). set (e := Z.max (-1074) (B - 52)).
  pose proof (pow2_pos e) as He.
  pose proof (binade_lt a Ha) as Hlt. fold B in Hlt.
  destruct (Z_le_gt_dec e (B + 1)) as [Hle|Hgt].
  - (* the top of the binade is on the grid *)
    assert (a / 2 ^ e <= inject_Z (2 ^ (B + 1 - e)))%Q as Hd.
    { rewrite <- pow2_Z by lia. rewrite Qpower_minus by discriminate.
      apply Qmult_le_compat_r; [lra|]. apply Qlt_le_weak.
      apply Qinv_lt_0_compat. exact He. }
    apply rne_mono in Hd. rewrite rne_Z in Hd.
    assert (inject_Z (rne (a / 2 ^ e)) <= inject_Z (2 ^ (B + 1 - e)))%Q as Hq
        by (rewrite <- Zle_Qle; exact Hd).
    rewrite <- pow2_Z in Hq by lia.
    assert (2 ^ (B + 1) == 2 ^ (B + 1 - e) * 2 ^ e)%Q as ->.
    { rewrite <- Qpower_plus by discriminate. now replace (B + 1 - e + e) with (B + 1) by lia. }
    apply Qmult_le_compat_r; lra.
  - (* below half of the smallest step *)
    assert (a / 2 ^ e < 1 # 2)%Q as Hd.
    { apply Qlt_shift_div_r; [exact He|].
      assert (2 ^ (B + 1) <= (1 # 2) * 2 ^ e)%Q; [|lra].
      assert ((1 # 2) * 2 ^ e == 2 ^ (e - 1))%Q as ->.
      { rewrite Qpower_minus by discriminate. change (2 ^ 1)%Q with 2%Q.
        unfold Qdiv. change (/ 2)%Q with (1 # 2)%Q. ring. }
      apply pow2_le. lia. }
    assert (0 <= a / 2 ^ e)%Q as Hd0.
    { apply Qle_shift_div_l; [exact He|]. lra. }
    assert (rne (a / 2 ^ e) = 0) as ->.
    { assert (Qfloor (a / 2 ^ e) = 0) as Hf.
      { pose proof (Qfloor_resp_le _ _ Hd0) as H1. change (Qfloor 0) with 0 in H1.
        assert (a / 2 ^ e <= 1 # 2)%Q as H2 by lra.
        apply Qfloor_resp_le in H2. change (Qfloor (1 # 2)) with 0 in H2. lia. }
      unfold rne. rewrite Hf.
      destruct (Qcompare_spec (a / 2 ^ e - inject_Z 0) (1 # 2)) as [C|C|C];
        [exfalso|reflexivity|exfalso];
        change (inject_Z 0) with 0%Q in C; lra. }
    pose proof (pow2_pos (B + 1)). change (inject_Z 0) with 0%Q. lra.
Qed.

Lemma nearest_lower (a : Q) :
  (0 < a)%Q -> -1074 < binade a - 52 -> (2 ^ binade a <= nearest a)%Q.
Proof.
  intros Ha Hn. unfold nearest.
  set (B := binade a). fold B in Hn.
  rewrite Z.max_r by lia.
  pose proof (pow2_pos (B - 52)) as He.
  pose proof (binade_le a Ha) as Hle. fold B in Hle.
  assert (inject_Z (2 ^ 52) <= a / 2 ^ (B - 52))%Q as Hd.
  { rewrite <- pow2_Z by lia. apply Qle_shift_div_l; [exact He|].
    rewrite <- Qpower_plus by discriminate.
    now replace (52 + (B - 52)) with B by lia. }
  apply rne_mono in Hd. rewrite rne_Z in Hd.
  assert (inject_Z (2 ^ 52) <= inject_Z (rne (a / 2 ^ (B - 52))))%Q as Hq
      by (rewrite <- Zle_Qle; exact Hd).
  rewrite <- pow2_Z in Hq by lia.
  assert (2 ^ B == 2 ^ 52 * 2 ^ (B - 52))%Q as ->.
  { rewrite <- Qpower_plus by discriminate. now replace (52 + (B - 52)) with B by lia. }
  apply Qmult_le_compat_r; lra.
Qed.

Lemma nearest_mono (a a' : Q) :
  (0 < a)%Q -> (a <= a')%Q -> (nearest a <= nearest a')%Q.
Proof.
  intros Ha Hle. assert (0 < a')%Q as Ha' by lra.
  pose proof (binade_mono a a' Ha Hle) as Hb.
  destruct (Z.eq_dec (Z.max (-1074) (binade a - 52))
              (Z.max (-1074) (binade a' - 52))) as [E|E].
  - unfold nearest. rewrite <- E.
    set (e := Z.max (-1074) (binade a - 52)).
    pose proof (pow2_pos e) as He.
    assert (a / 2 ^ e <= a' / 2 ^ e)%Q as Hd.
    { apply Qmult_le_compat_r; [assumption|]. apply Qlt_le_weak.
      apply Qinv_lt_0_compat. exact He. }
    apply rne_mono in Hd.
    apply Qmult_le_compat_r; [|lra]. rewrite <- Zle_Qle. exact Hd.
  - assert (-1074 < binade a' - 52 /\ binade a + 1 <= binade a') as [H1 H2] by lia.
    pose proof (nearest_upper a Ha). pose proof (nearest_lower a' Ha' H1).
    pose proof (pow2_le _ _ H2). lra.
Qed.

(** What [round64] does with a positive number. *)
Lemma round64_pos (q : Q) :
  (0 < q)%Q ->
  exists a,
    (a == q)%Q
    /\ ((2 ^ 1024 <= nearest a)%Q /\ round64 q = PInf
        \/ (nearest a < 2 ^ 1024)%Q
           /\ exists v, round64 q = Fin v /\ (v == nearest a)%Q).
Proof.
  intros Hq. unfold round64.
  pose proof (Qred_correct q) as Hr.
  set (p := Qred q) in *. cbv zeta.
  destruct (Qcompare_spec p 0) as [C|C|C]; [lra | lra |].
  exists (Qabs p). split; [rewrite Qabs_pos; lra|].
  fold (nearest (Qabs p)).
  pose proof (Qred_correct (nearest (Qabs p))) as Hv.
  destruct (Qle_bool (2 ^ 1024) (Qred (nearest (Qabs p)))) eqn:O.
  - left. apply Qle_bool_iff in O. split; [lra | reflexivity].
  - right. split.
    + destruct (Qlt_le_dec (nearest (Qabs p)) (2 ^ 1024)) as [H|H];
        [exact H|].
      assert (Qle_bool (2 ^ 1024) (Qred (nearest (Qabs p))) = true)
        by (apply Qle_bool_iff; lra).
      congruence.
    + eexists. split; [reflexivity | exact Hv].
Qed.

Lemma nearest_nonneg (a : Q) : (0 < a)%Q -> (0 <= nearest a)%Q.
Proof.
  intros Ha. unfold nearest.
  set (e := Z.max (-1074) (binade a - 52)).
  pose proof (pow2_pos e) as He.
  apply Qmult_le_0_compat; [|lra].
  change 0%Q with (inject_Z 0). rewrite <- Zle_Qle.
  pose proof (rne_bounds (a / 2 ^ e)) as [Hb _].
  assert (0 <= a / 2 ^ e)%Q as Hd.
  { apply Qle_shift_div_l; [exact He|]. lra. }
  apply Qfloor_resp_le in Hd. change (Qfloor 0) with 0 in Hd. lia.
Qed.

(** Rounding keeps the order of numbers that are not negative. *)
Lemma round64_mono (q q' : Q) :
  (0 <= q)%Q -> (q <= q')%Q ->
  round64 q' = PInf
  \/ exists v v',
       round64 q = Fin v /\ round64 q' = Fin v' /\ (0 <= v)%Q /\ (v <= v')%Q.
Proof.
  intros H0 Hle.
  destruct (Qlt_le_dec 0 q') as [Hq'|Hq'].
  - destruct (round64_pos q' Hq') as (a' & Ea' & [[_ ->]|[Hb' (v' & -> & Ev')]]);
      [now left|right].
    destruct (Qlt_le_dec 0 q) as [Hq|Hq].
    + destruct (round64_pos q Hq) as (a & Ea & [[Ho _]|[_ (v & -> & Ev)]]).
      * exfalso.
        assert (nearest a <= nearest a')%Q by (apply nearest_mono; lra).
        lra.
      * exists v, v'. split; [reflexivity|]. split; [reflexivity|].
        assert (nearest a <= nearest a')%Q by (apply nearest_mono; lra).
        assert (0 <= nearest a)%Q by (apply nearest_nonneg; lra).
        split; lra.
    + assert (q == 0)%Q as E by lra.
      exists 0%Q, v'. split.
      * unfold round64. rewrite (Qred_complete q 0 E). reflexivity.
      * split; [reflexivity|]. split; [lra|].
        assert (0 <= nearest a')%Q by (apply nearest_nonneg; lra). lra.
  - assert (q' == 0)%Q as E' by lra. assert (q == 0)%Q as E by lra.
    right. exists 0%Q, 0%Q.
    split; [unfold round64; rewrite (Qred_complete q 0 E); reflexivity|].
    split; [unfold round64; rewrite (Qred_complete q' 0 E'); reflexivity|].
    split; lra.
Qed.

(** A number with at most 53 significant bits and an exponent that a
    double can have is not changed by rounding. *)
Lemma nearest_exact (a : Q) (m k : Z) :
  0 < m < 2 ^ 53 -> -1074 <= k ->
  (a == inject_Z m * 2 ^ k)%Q ->
  (nearest a == a)%Q.
Proof.
  intros Hm Hk Ea.
  pose proof (pow2_pos k) as Hpk.
  assert (0 < inject_Z m)%Q as Hm0
      by (change 0%Q with (inject_Z 0); rewrite <- Zlt_Qlt; lia).
  assert (0 < a)%Q as Ha.
  { rewrite Ea. apply Qmult_lt_0_compat; assumption. }
  unfold nearest.
  set (B := binade a). set (e := Z.max (-1074) (B - 52)).
  pose proof (pow2_pos e) as He.
  assert (e <= k) as Hek.
  { pose proof (binade_le a Ha) as Hl. fold B in Hl.
    assert (a < 2 ^ (53 + k))%Q as Hu.
    { rewrite Ea, Qpower_plus by discriminate.
      apply Qmult_lt_compat_r; [exact Hpk|].
      rewrite pow2_Z by lia. rewrite <- Zlt_Qlt. lia. }
    assert (2 ^ B < 2 ^ (53 + k))%Q as Hlt by lra.
    apply pow2_lt_inv in Hlt. unfold e. lia. }
  assert (a / 2 ^ e == inject_Z (m * 2 ^ (k - e)))%Q as Hd.
  { rewrite inject_Z_mult, <- pow2_Z by lia.
    rewrite Ea, Qpower_minus by discriminate. field. lra. }
  rewrite (rne_comp _ _ Hd), rne_Z.
  rewrite inject_Z_mult, <- pow2_Z by lia.
  rewrite Ea, Qpower_minus by discriminate. field. lra.
Qed.

Lemma round64_exact (q : Q) (m k : Z) :
  0 <= m < 2 ^ 53 -> -1074 <= k -> k <= 971 ->
  (q == inject_Z m * 2 ^ k)%Q ->
  exactly (round64 q) q.
Proof.
  intros Hm Hk Hk' Eq. unfold exactly.
  destruct (Z.eq_dec m 0) as [->|Hne].
  - assert (q == 0)%Q as E by (rewrite Eq; ring).
    exists 0%Q. split; [|lra].
    unfold round64. rewrite (Qred_complete q 0 E). reflexivity.
  - pose proof (pow2_pos k) as Hpk.
    assert (0 < inject_Z m)%Q as Hm0
        by (change 0%Q with (inject_Z 0); rewrite <- Zlt_Qlt; lia).
    assert (0 < q)%Q as Hq.
    { rewrite Eq. apply Qmult_lt_0_compat; assumption. }
    destruct (round64_pos q Hq) as (a & Ea & H).
    assert (nearest a == a)%Q as En.
    { apply (nearest_exact a m k); [lia | assumption | lra]. }
    assert (a < 2 ^ 1024)%Q as Hu.
    { rewrite Ea, Eq.
      assert (inject_Z m * 2 ^ k < 2 ^ 53 * 2 ^ k)%Q as H1.
      { apply Qmult_lt_compat_r; [exact Hpk|].
        rewrite pow2_Z by lia. rewrite <- Zlt_Qlt. lia. }
      assert (2 ^ 53 * 2 ^ k <= 2 ^ 1024)%Q as H2.
      { rewrite <- Qpower_plus by discriminate. apply pow2_le. lia. }
      lra. }
    destruct H as [[Ho _]|[_ (v & -> & Ev)]]; [lra|].
    exists v. split; [reflexivity | lra].
Qed.

(** Whole numbers below 2^53 are doubles. *)
Lemma round64_whole (q : Q) (z : Z) :
  0 <= z < 2 ^ 53 -> (q == inject_Z z)%Q -> exactly (round64 q) q.
Proof.
  intros Hz E. apply (round64_exact q z 0); try lia.
  rewrite E. change (2 ^ 0)%Q with 1%Q. ring.
Qed.

(** Rounding does not tell equal rationals apart. *)
Lemma round64_Qeq (x y : Q) : (x == y)%Q -> round64 x = round64 y.
Proof. intros H. unfold round64. now rewrite (Qred_complete x y H). Qed.

Lemma jitterCeiling_value : jitterCeiling = Fin jitterCeilingQ.
Proof. vm_compute. reflexivity. Qed.

(** Rounding a number that is not negative gives a number that is not
    negative, off by at most half a unit in the last place; so a product
    with a factor of at most 0.999999999 stays below the other factor when
    that is at least 1. *)
Lemma round64_below (q z : Q) :
  (0 <= q)%Q -> (1 <= z)%Q -> (q <= jitterCeilingQ * z)%Q ->
  round64 q = PInf \/ exists v, round64 q = Fin v /\ (0 <= v)%Q /\ (v < z)%Q.
Proof.
  intros H0 Hz Hq. unfold round64, nearest.
  pose proof (Qred_correct q) as Hr.
  set (p := Qred q) in *. cbv zeta.
  destruct (p ?= 0)%Q eqn:C.
  - right. exists 0%Q. split; [reflexivity|]. split; lra.
  - apply Qlt_alt in C. lra.
  - apply Qgt_alt in C.
    set (a := Qabs p).
    assert (a == q)%Q as Ea by (unfold a; rewrite Qabs_pos; lra).
    set (e := Z.max (-1074) (binade a - 52)).
    set (m := rne (a / 2 ^ e)).
    pose proof (Qred_correct (inject_Z m * 2 ^ e)) as Hv.
    set (v := Qred (inject_Z m * 2 ^ e)) in *.
    destruct (Qle_bool (2 ^ 1024) v); [now left|]. right.
    exists v. split; [reflexivity|].
    pose proof (pow2_pos e) as He.
    assert (0 <= a / 2 ^ e)%Q as Hd.
    { apply Qle_shift_div_l; [assumption|]. lra. }
    split.
    + rewrite Hv. apply Qmult_le_0_compat; [|lra].
      change 0%Q with (inject_Z 0). rewrite <- Zle_Qle.
      now apply rne_nonneg.
    + pose proof (rne_le (a / 2 ^ e)) as Hm. fold m in Hm.
      assert (v <= a + (1 # 2) * 2 ^ e)%Q as Hu.
      { rewrite Hv.
        assert (inject_Z m * 2 ^ e <= (a / 2 ^ e + (1 # 2)) * 2 ^ e)%Q as Hx
            by (apply Qmult_le_compat_r; lra).
        assert ((a / 2 ^ e + (1 # 2)) * 2 ^ e == a + (1 # 2) * 2 ^ e)%Q as Hy
            by (field; lra).
        lra. }
      assert ((1 # 2) * 2 ^ e < (1 - jitterCeilingQ) * z)%Q as Hb.
      { unfold e.
        destruct (Z.max_spec (-1074) (binade a - 52)) as [[_ ->]|[_ ->]].
        - assert (0 < a)%Q as Ha by lra.
          pose proof (binade_le a Ha) as Hl.
          replace (binade a - 52) with (binade a + (-52)) by lia.
          rewrite Qpower_plus by discriminate.
          assert ((1 # 2) * (2 ^ binade a * 2 ^ (-52))
                  <= a * ((1 # 2) * 2 ^ (-52)))%Q as H1.
          { assert (0 <= (1 # 2) * 2 ^ (-52))%Q by (vm_compute; discriminate).
            assert ((1 # 2) * (2 ^ binade a * 2 ^ (-52))
                    == 2 ^ binade a * ((1 # 2) * 2 ^ (-52)))%Q as -> by ring.
            apply Qmult_le_compat_r; assumption. }
          assert (a * ((1 # 2) * 2 ^ (-52))
                  <= jitterCeilingQ * ((1 # 2) * 2 ^ (-52)) * z)%Q as H2.
          { assert (0 <= (1 # 2) * 2 ^ (-52))%Q by (vm_compute; discriminate).
            assert (jitterCeilingQ * ((1 # 2) * 2 ^ (-52)) * z
                    == (jitterCeilingQ * z) * ((1 # 2) * 2 ^ (-52)))%Q as ->
                by ring.
            apply Qmult_le_compat_r; lra. }
          assert (jitterCeilingQ * ((1 # 2) * 2 ^ (-52))
                  < 1 - jitterCeilingQ)%Q as H3 by (vm_compute; reflexivity).
          assert (jitterCeilingQ * ((1 # 2) * 2 ^ (-52)) * z
                  < (1 - jitterCeilingQ) * z)%Q as H4
              by (apply Qmult_lt_compat_r; lra).
          lra.
        - assert ((1 # 2) * 2 ^ (-1074) < 1 - jitterCeilingQ)%Q as H3
              by (vm_compute; reflexivity).
          assert (0 < 1 - jitterCeilingQ)%Q as H5 by (vm_compute; reflexivity).
          assert ((1 - jitterCeilingQ) * 1 <= (1 - jitterCeilingQ) * z)%Q
            by (apply Qmult_le_l; lra).
          lra. }
      assert (jitterCeilingQ * z + (1 - jitterCeilingQ) * z == z)%Q as Hs
          by ring.
      lra.
Qed.

Lemma geb_integral (m : number) (N k : Z) :
  eqb m (ofZ N) = true -> geb (ofZ k) m = (N <=? k).
Proof.
  destruct m as [q| | |]; simpl; try discriminate.
  intros E. apply Qeq_bool_iff in E.
  unfold geb, leb, ltb, eqb, ofZ, Qltb.
  destruct (q ?= inject_Z k)%Q eqn:C.
  - apply Qeq_alt in C. rewrite E in C.
    apply (proj1 (inject_Z_injective N k)) in C. subst.
    rewrite Z.leb_refl. simpl. apply Qeq_bool_iff. exact E.
  - apply Qlt_alt in C. rewrite E in C. rewrite <- Zlt_Qlt in C.
    simpl. symmetry. apply Z.leb_le. lia.
  - apply Qgt_alt in C. rewrite E in C. rewrite <- Zlt_Qlt in C.
    simpl. destruct (Qeq_bool q (inject_Z k)) eqn:F.
    + apply Qeq_bool_iff in F. rewrite E in F.
      apply (proj1 (inject_Z_injective N k)) in F. lia.
    + symmetry. apply Z.leb_gt. lia.
Qed.

(** *** One step of symbolic execution *)

Ltac inv H := inversion H; subst; clear H.

Lemma Throw_inj {A : Type} (e e' : Thrown) :
  @Throw A e = Throw e' -> e = e'.
Proof. congruence. Qed.

Lemma Normal_inj {A : Type} (a a' : A) : Normal a = Normal a' -> a = a'.
Proof. congruence. Qed.

Lemma pair_eq_inv {A B : Type} (a a' : A) (b b' : B) :
  (a, b) = (a', b') -> a = a' /\ b = b'.
Proof.
  intros H. split; [exact (f_equal fst H) | exact (f_equal snd H)].
Qed.

Ltac run_step :=
  match goal with
  | H : Throw _ = Throw _ |- _ => apply Throw_inj in H; subst
  | H : Normal _ = Normal _ |- _ => apply Normal_inj in H; subst
  | H : (_, _) = (_, _) |- _ =>
      apply pair_eq_inv in H; destruct H; subst
  | H : context [let '(_, _) := ?x in _] |- _ => destruct x eqn:?
  | H : context [match ?x with _ => _ end] |- _ =>
      lazymatch x with
      | context [match _ with _ => _ end] => fail
      | _ => destruct x eqn:?
      end
  end.

Ltac simp := cbn beta iota zeta delta [log world fst snd negb] in *.

Ltac run := repeat (run_step; simp); try congruence.

Ltac run_in H :=
  cbv beta delta [bind ret throw pending liftW readW emit observe orThrow] in H;
  cbv beta iota zeta in H.

Section Properties.

Context {W T : Type}.
Context {host : Host W}.

(** *** The sleeper and the planner *)

Lemma sleep_spec (ms : number) (sg : option (AbortSignal W)) (s s' : St W T)
  (r : Completion unit) :
  sleep ms sg s = (r, s') ->
  log s' = log s ++ [ObsSleep (toIntMs ms)]
  /\ (r = Normal tt \/ r = Throw (AbortError "Retry aborted")).
Proof.
  unfold sleep. intros H. run_in H.
  run; auto.
Qed.

Lemma hintDelay_spec (opts : Normalized W) (err : value) (s s' : St W T)
  (c : Completion (option Z)) :
  hintDelay opts err s = (c, s') ->
  (exists h, c = Normal h) /\ log s' = log s.
Proof.
  unfold hintDelay, parseRetryAfterHeaderMs, now. intros H. run_in H.
  run; eauto.
Qed.

Lemma planDelay_spec (opts : Normalized W) (k : Z) (err : value)
  (s s' : St W T) (c : Completion (Reason * Z)) :
  planDelay opts k err s = (c, s') ->
  exists reason d rngs,
    c = Normal (reason, d) /\ 0 <= d /\ log s' = log s ++ rngs
    /\ (rngs = [] \/ exists r, rngs = [ObsRng r]).
Proof.
  unfold planDelay, applyFullJitter. intros H. run_in H.
  destruct (hintDelay opts err s) as [c0 s0] eqn:Hh.
  apply hintDelay_spec in Hh. destruct Hh as [[h ->] Hl].
  run;
    do 3 eexists; (split; [reflexivity|]);
    (split; [apply toIntMs_nonneg|]); rewrite Hl.
  - split; [symmetry; apply app_nil_r | now left].
  - split; [reflexivity | right; eauto].
  - split; [symmetry; apply app_nil_r | now left].
Qed.

Lemma planDelay_Planned (opts : Normalized W) (k : Z) (err : value)
  (s s' : St W T) (reason : Reason) (d : Z) (rngs : list (Obs W T)) :
  planDelay opts k err s = (Normal (reason, d), s') ->
  log s' = log s ++ rngs ->
  Planned opts k err reason d rngs.
Proof. intros H1 H2. exists s, s'. auto. Qed.

(** *** The loop refines its traces *)

Ltac use_specs :=
  match goal with
  | E : planDelay _ _ _ ?s = (?c, _) |- _ =>
      is_var c;
      let reason := fresh "reason" in
      let d := fresh "d" in
      let rngs := fresh "rngs" in
      let Hd := fresh "Hd" in
      let Hl := fresh "Hl" in
      let Hr := fresh "Hr" in
      pose proof (planDelay_spec _ _ _ _ _ _ E)
        as (reason & d & rngs & -> & Hd & Hl & Hr)
  | E : sleep _ _ ?s = (?c, _) |- _ =>
      let Hl := fresh "Hl" in
      let Hr := fresh "Hr" in
      pose proof (sleep_spec _ _ _ _ _ E) as [Hl Hr];
      revert E
  end.

Lemma onFailure_Failure (opts : Normalized W) (startedAt : number) (k : Z)
  (ctx : RetryContext W) (err : value) (s s' : St W T) (r : Completion unit) :
  onFailure opts startedAt k ctx err s = (r, s') ->
  exists obs, log s' = log s ++ obs /\ Failure opts startedAt k ctx err obs r.
Proof.
  unfold onFailure, now. intros H. run_in H.
  repeat first [use_specs; simp | run_step; simp]; try congruence.
  all: intros.
  all: repeat match goal with
         | H : negb ?a = _ |- _ =>
             destruct a; simpl in H; try discriminate H; clear H
         | u : unit |- _ => destruct u
         end.
  all: rewrite ?toIntMs_ofZ, ?Z.max_r in * by assumption.
  all: repeat match goal with
         | E : planDelay _ _ _ _ = _, H : log _ = _ ++ ?rngs |- _ =>
             pose proof (planDelay_Planned _ _ _ _ _ _ _ _ E H); clear E
         end.
  all: repeat match goal with
         | H : log ?s = _ |- _ => rewrite H in *; clear H
         end.
  all: rewrite <- ?app_assoc.
  all: eexists; (split; [first [reflexivity | symmetry; apply app_nil_r]|]).
  - now apply F_cancelled.
  - now apply F_exhausted.
  - now apply F_aborted.
  - now apply F_declined.
  - eapply F_overBudget; eauto.
  - match goal with
    | Hh : opts_onRetry opts = _, Hp : Planned _ _ _ _ _ _, Hs : _ \/ _,
      Hb : overBudget _ _ = None |- _ =>
        pose proof (F_sleep opts startedAt k ctx err _ _ _ _ _
                      Heqb Heqb0 Hp Hb Hs) as F;
        unfold hookObs in F; rewrite Hh in F; exact F
    end.
  - match goal with
    | Hh : opts_onRetry opts = _, Hp : Planned _ _ _ _ _ _, Hs : _ \/ _,
      Hb : overBudget _ _ = None |- _ =>
        pose proof (F_sleep opts startedAt k ctx err _ _ _ _ _
                      Heqb Heqb0 Hp Hb Hs) as F;
        unfold hookObs in F; rewrite Hh in F; exact F
    end.
  - eapply F_hookThrew; eauto.
  - now apply F_classifierThrew.
Qed.

Lemma iteration_Turn (opts : Normalized W) (startedAt : number)
  (task : Task W T) (a : Z) (s s' : St W T) (r : Completion (option T)) :
  iteration opts startedAt task a s = (r, s') ->
  exists obs, log s' = log s ++ obs /\ Turn opts startedAt a obs r.
Proof.
  unfold iteration, now. intros H. run_in H.
  repeat first
    [ match goal with
      | E : onFailure _ _ _ _ _ _ = (?c, _) |- _ =>
          is_var c; apply onFailure_Failure in E as (obs & Hl & Hf)
      end
    | run_step; simp ]; try congruence.
  all: repeat match goal with
         | H : log ?s = _ |- _ => rewrite H in *; clear H
         end.
  all: rewrite <- ?app_assoc.
  all: eexists; (split; [first [reflexivity | symmetry; apply app_nil_r]|]).
  - apply T_aborted.
  - now apply T_overBudget.
  - apply T_resolved.
  - apply (T_failed _ _ _ _ _ _ _ Hf).
  - apply (T_failed _ _ _ _ _ _ _ Hf).
  - apply (T_failed _ _ _ _ _ _ _ Hf).
Qed.

Lemma retryLoop_Run (fuel : nat) (opts : Normalized W) (startedAt : number)
  (task : Task W T) :
  forall (a : Z) (s s' : St W T) (r : Completion T),
    retryLoop fuel opts startedAt task a s = (r, s') ->
    exists obs, log s' = log s ++ obs /\ Run opts startedAt a obs r.
Proof.
  induction fuel as [|fuel IH]; intros a s s' r H.
  - cbn in H. apply pair_eq_inv in H as [<- <-].
    exists []. split; [symmetry; apply app_nil_r | apply Run_pending].
  - cbn [retryLoop] in H. unfold bind in H.
    destruct (iteration opts startedAt task a s) as [c s1] eqn:E.
    apply iteration_Turn in E as (obs & Hl & Ht).
    destruct c as [[v|]| |].
    + apply pair_eq_inv in H as [<- <-].
      exists obs. split; [assumption | now apply Run_resolved].
    + apply IH in H as (obs' & Hl' & Hr).
      exists (obs ++ obs'). split.
      * rewrite Hl', Hl. now rewrite app_assoc.
      * eapply Run_again; eassumption.
    + apply pair_eq_inv in H as [<- <-].
      exists obs. split; [assumption | now apply Run_rejected].
    + (* a turn is never left pending *)
      exfalso. inv Ht.
      match goal with
      | F : Failure _ _ _ _ _ _ ?r, E : _ = Pending |- _ =>
          destruct r; try discriminate E; inv F
      end;
        match goal with
        | D : _ \/ _ |- _ => destruct D; discriminate
        end.
Qed.

(** *** Validation *)

Lemma assertValidMaxAttempts_None (n : number) :
  assertValidMaxAttempts n = None ->
  exists N, 1 <= N /\ eqb n (ofZ N) = true.
Proof.
  unfold assertValidMaxAttempts.
  destruct n as [q| | |]; simpl; try discriminate.
  destruct (Qltb q (inject_Z 1)) eqn:A; simpl; try discriminate.
  destruct (Qeq_bool (inject_Z (Qfloor q)) q) eqn:B; simpl; try discriminate.
  intros _. exists (Qfloor q). split.
  - apply Qltb_ge in A. apply (Qfloor_resp_le 1 q) in A. exact A.
  - apply Qeq_bool_iff. apply Qeq_bool_iff in B. now symmetry.
Qed.

Lemma normalizeOptions_maxAttempts (o : RetryOptions W) (opts : Normalized W) :
  normalizeOptions o = inr opts ->
  exists N, 1 <= N /\ eqb (opts_maxAttempts opts) (ofZ N) = true.
Proof.
  unfold normalizeOptions. cbn [firstThrown].
  destruct (assertValidMaxAttempts (orDefault (maxAttempts o) (ofZ 3))) eqn:A;
    try discriminate.
  apply assertValidMaxAttempts_None in A.
  repeat match goal with
         | |- context [match ?x with Some _ => _ | None => _ end] =>
             destruct x; try discriminate
         end.
  intros H. inv H. exact A.
Qed.

(** *** Reading the traces of a run *)

Lemma taskCalls_app (l1 l2 : list (Obs W T)) :
  taskCalls (l1 ++ l2) = taskCalls l1 ++ taskCalls l2.
Proof.
  induction l1 as [|[] l1 IH]; simpl; auto. now rewrite IH.
Qed.

Lemma retryEvents_app (l1 l2 : list (Obs W T)) :
  retryEvents (l1 ++ l2) = retryEvents l1 ++ retryEvents l2.
Proof.
  induction l1 as [|[] l1 IH]; simpl; auto. now rewrite IH.
Qed.

Lemma sleeps_app (l1 l2 : list (Obs W T)) :
  sleeps (l1 ++ l2) = sleeps l1 ++ sleeps l2.
Proof.
  induction l1 as [|[] l1 IH]; simpl; auto. now rewrite IH.
Qed.

Lemma classified_app (l1 l2 : list (Obs W T)) :
  classified (l1 ++ l2) = classified l1 ++ classified l2.
Proof.
  induction l1 as [|[] l1 IH]; simpl; auto. now rewrite IH.
Qed.

Lemma Planned_rngs (opts : Normalized W) (k : Z) (err : value)
  (reason : Reason) (d : Z) (rngs : list (Obs W T)) :
  Planned opts k err reason d rngs ->
  0 <= d /\ (rngs = [] \/ exists r, rngs = [ObsRng r]).
Proof.
  intros (s1 & s2 & E & Hl).
  destruct (planDelay_spec _ _ _ _ _ _ E)
    as (reason' & d' & rngs' & Hc & Hd & Hl' & Hr).
  apply Normal_inj in Hc. apply pair_eq_inv in Hc as [-> ->].
  rewrite Hl in Hl'. apply app_inv_head in Hl'. subst. auto.
Qed.

Ltac planned :=
  repeat match goal with
         | P : Planned _ _ _ _ _ ?rngs |- _ =>
             is_var rngs;
             let Q := fresh in
             pose proof (Planned_rngs _ _ _ _ _ _ P) as [? Q];
             destruct Q as [->|[? ->]]
         end.

Lemma Failure_taskCalls (opts : Normalized W) (startedAt : number) (k : Z)
  (ctx : RetryContext W) (err : value) (obs : list (Obs W T))
  (r : Completion unit) :
  Failure opts startedAt k ctx err obs r -> taskCalls obs = [].
Proof.
  intros F. inv F; planned; unfold hookObs; simpl; auto;
    destruct (opts_onRetry opts); reflexivity.
Qed.

Lemma Failure_continues (opts : Normalized W) (startedAt : number) (k : Z)
  (ctx : RetryContext W) (err : value) (obs : list (Obs W T)) (u : unit) :
  Failure opts startedAt k ctx err obs (Normal u) ->
  geb (ofZ k) (opts_maxAttempts opts) = false.
Proof. intros F. inv F. assumption. Qed.

Lemma Turn_taskCalls (opts : Normalized W) (startedAt : number) (a : Z)
  (obs : list (Obs W T)) (r : Completion (option T)) :
  Turn opts startedAt a obs r ->
  (taskCalls obs = [] /\ r <> Normal None)
  \/ exists e, taskCalls obs = [contextOf opts startedAt (a + 1) e].
Proof.
  intros H. inv H.
  - left. split; [reflexivity | discriminate].
  - left. split; [reflexivity | discriminate].
  - right. eexists. reflexivity.
  - right. eexists. simpl. erewrite Failure_taskCalls by eassumption.
    reflexivity.
Qed.

Lemma Turn_continues (opts : Normalized W) (startedAt : number) (a : Z)
  (obs : list (Obs W T)) :
  Turn opts startedAt a obs (Normal None) ->
  geb (ofZ (a + 1)) (opts_maxAttempts opts) = false.
Proof.
  intros H. inversion H as [| | |e err obs' r F Eo Er]; subst.
  destruct r; try discriminate. eapply Failure_continues. eassumption.
Qed.

(** The calls of the task in a run that enters the loop with [attempt = a]
    below the ceiling [N]: they are numbered from [a + 1] on, and there are
    at most [N - a] of them. *)
Lemma Run_taskCalls (opts : Normalized W) (startedAt : number) (N : Z) :
  eqb (opts_maxAttempts opts) (ofZ N) = true ->
  forall (a : Z) (obs : list (Obs W T)) (r : Completion T),
    Run opts startedAt a obs r ->
    a < N ->
    Z.of_nat (length (taskCalls obs)) <= N - a
    /\ forall i ctx,
         nth_error (taskCalls obs) i = Some ctx ->
         ctx_attempt ctx = a + 1 + Z.of_nat i
         /\ ctx_maxAttempts ctx = opts_maxAttempts opts.
Proof.
  intros HN a obs r R. induction R as [a|a obs v Ht|a obs x Ht|a obs obs' r Ht R IH];
    intros Ha.
  - simpl. split; [lia|]. intros [|i] ctx; discriminate.
  - apply Turn_taskCalls in Ht as [[-> _]|[e ->]]; simpl.
    + split; [lia|]. intros [|i] ctx; discriminate.
    + split; [lia|]. intros [|[|i]] ctx E; try discriminate.
      inv E. simpl. split; [lia | reflexivity].
  - apply Turn_taskCalls in Ht as [[-> _]|[e ->]]; simpl.
    + split; [lia|]. intros [|i] ctx; discriminate.
    + split; [lia|]. intros [|[|i]] ctx E; try discriminate.
      inv E. simpl. split; [lia | reflexivity].
  - pose proof (Turn_continues _ _ _ _ Ht) as Hc.
    rewrite (geb_integral _ N) in Hc by assumption.
    apply Z.leb_gt in Hc.
    destruct (IH ltac:(lia)) as [IHlen IHnth].
    rewrite taskCalls_app, length_app.
    apply Turn_taskCalls in Ht as [[_ Hne]|[e ->]]; [congruence|].
    simpl. split; [lia|].
    intros [|i] ctx E; simpl in E.
    + inv E. simpl. split; [lia | reflexivity].
    + apply IHnth in E as [E1 E2]. split; [lia | assumption].
Qed.

Lemma Turn_not_pending (opts : Normalized W) (startedAt : number) (a : Z)
  (obs : list (Obs W T)) :
  ~ Turn opts startedAt a obs Pending.
Proof.
  intros Ht. inversion Ht as [| | |e err obs' r F Eo Er]; subst.
  destruct r; try discriminate. inv F;
    match goal with
    | D : _ \/ _ |- _ => destruct D; discriminate
    end.
Qed.

(** Enough fuel for the attempts that are left: the loop settles. *)
Lemma retryLoop_settles (opts : Normalized W) (startedAt : number)
  (task : Task W T) (N : Z) :
  eqb (opts_maxAttempts opts) (ofZ N) = true ->
  forall (fuel : nat) (a : Z) (s : St W T),
    a < N ->
    N - a <= Z.of_nat fuel ->
    fst (retryLoop fuel opts startedAt task a s) <> Pending.
Proof.
  intros HN. induction fuel as [|fuel IH]; intros a s Ha Hf; [lia|].
  cbn [retryLoop]. unfold bind.
  destruct (iteration opts startedAt task a s) as [c s1] eqn:E.
  apply iteration_Turn in E as (obs & Hl & Ht).
  destruct c as [[v|]| |]; cbn [fst ret]; try discriminate.
  - pose proof (Turn_continues _ _ _ _ Ht) as Hc.
    rewrite (geb_integral _ N) in Hc by assumption.
    apply Z.leb_gt in Hc. apply IH; lia.
  - exfalso. eapply Turn_not_pending. eassumption.
Qed.

Lemma retry_Run (fuel : nat) (task : Task W T)
  (options : option (RetryOptions W)) (opts : Normalized W) (s : St W T) :
  normalizeOptions (orEmpty options) = inr opts ->
  exists startedAt obs,
    log (snd (retry fuel task options s)) = log s ++ obs
    /\ Run opts startedAt 0 obs (fst (retry fuel task options s)).
Proof.
  intros Hn. unfold retry. rewrite Hn. unfold bind, now, liftW.
  destruct (Date_now (world s)) as [t w] eqn:E.
  destruct (retryLoop fuel opts t task 0 {| world := w; log := log s |})
    as [r s'] eqn:L.
  apply retryLoop_Run in L as (obs & Hl & R).
  exists t, obs. auto.
Qed.

(** C1. For every valid configuration and every task, whatever the host
    does and however long the run is followed: the task is invoked at most
    [maxAttempts] times, the i-th invocation is passed [attempt = i]
    (counting from 1), which lies between 1 and [maxAttempts], and once
    [maxAttempts] turns of the loop are allowed for, the run has settled. *)
Theorem retry_attempts_bounded (fuel : nat) (task : Task W T)
  (options : option (RetryOptions W)) (opts : Normalized W) (s : St W T) :
  normalizeOptions (orEmpty options) = inr opts ->
  exists (N : Z) (obs : list (Obs W T)),
    1 <= N
    /\ eqb (opts_maxAttempts opts) (ofZ N) = true
    /\ log (snd (retry fuel task options s)) = log s ++ obs
    /\ Z.of_nat (length (taskCalls obs)) <= N
    /\ (forall i ctx,
          nth_error (taskCalls obs) i = Some ctx ->
          ctx_attempt ctx = Z.of_nat i + 1
          /\ 1 <= ctx_attempt ctx <= N)
    /\ (N <= Z.of_nat fuel -> fst (retry fuel task options s) <> Pending).
Proof.
  intros Hn.
  destruct (normalizeOptions_maxAttempts _ _ Hn) as (N & HN1 & HN).
  destruct (retry_Run fuel task options opts s Hn) as (t & obs & Hl & R).
  destruct (Run_taskCalls opts t N HN 0 obs _ R ltac:(lia)) as [Hlen Hnth].
  exists N, obs. repeat (split; [first [assumption | lia]|]). split.
  - intros i ctx E. destruct (Hnth i ctx E) as [E1 _].
    assert (i < length (taskCalls obs))%nat
      by (apply nth_error_Some; congruence).
    lia.
  - intros Hf. unfold retry. rewrite Hn. unfold bind, now, liftW.
    destruct (Date_now (world s)) as [t' w].
    apply (retryLoop_settles opts t' task N HN); lia.
Qed.

(** *** The validation is the one specified *)

Lemma Qfloor_fixed (q : Q) :
  Qeq_bool (inject_Z (Qfloor q)) q = (Qnum q mod Zpos (Qden q) =? 0).
Proof.
  destruct q as [n d]. unfold Qeq_bool, Qfloor, inject_Z. cbn [Qnum Qden].
  pose proof (Z.div_mod n (Zpos d) ltac:(lia)) as E.
  destruct (n mod Zpos d =? 0) eqn:M.
  - apply Z.eqb_eq in M. apply Z.eqb_eq. lia.
  - apply Z.eqb_neq in M. apply Z.eqb_neq. lia.
Qed.

Lemma Qltb_negb_le (x y : Q) : Qltb x y = negb (Qle_bool y x).
Proof.
  destruct (Qle_bool y x) eqn:L; simpl.
  - apply Qltb_ge. now apply Qle_bool_iff.
  - apply Qltb_lt. apply Qnot_le_lt. intros C.
    apply Qle_bool_iff in C. congruence.
Qed.

Lemma assertValidMaxAttempts_spec (n : number) :
  assertValidMaxAttempts n = None <-> integerAtLeast1 n = true.
Proof.
  unfold assertValidMaxAttempts, integerAtLeast1.
  destruct n as [q| | |]; simpl; try (split; discriminate).
  rewrite Qfloor_fixed. change (inject_Z 1) with 1%Q. rewrite Qltb_negb_le.
  destruct (Qle_bool 1 q), (Qnum q mod Zpos (Qden q) =? 0); simpl;
    split; congruence.
Qed.

Lemma assertFiniteNonNegative_spec (name : string) (n : number) :
  assertFiniteNonNegative name (Some n) = None <-> finiteAtLeast0 n = true.
Proof.
  unfold assertFiniteNonNegative, finiteAtLeast0.
  destruct n as [q| | |]; simpl; try (split; discriminate).
  change (inject_Z 0) with 0%Q. rewrite Qltb_negb_le.
  destruct (Qle_bool 0 q); simpl; split; congruence.
Qed.

Lemma Qltb_or_eq (x y : Q) : Qltb x y || Qeq_bool x y = Qle_bool x y.
Proof.
  destruct (Qle_bool x y) eqn:L.
  - apply Qle_bool_iff in L. apply Qle_lt_or_eq in L as [L|L].
    + apply Qltb_lt in L. now rewrite L.
    + apply Qeq_bool_iff in L. rewrite L. apply orb_true_r.
  - assert (~ (x <= y)%Q) as N
        by (intros C; apply Qle_bool_iff in C; congruence).
    apply orb_false_iff. split.
    + apply Qltb_ge. apply Qlt_le_weak. now apply Qnot_le_lt.
    + destruct (Qeq_bool x y) eqn:E; [|reflexivity].
      apply Qeq_bool_iff in E. exfalso. apply N. rewrite E. apply Qle_refl.
Qed.

Lemma assertFinitePositive_spec (name : string) (n : number) :
  assertFinitePositive name (Some n) = None <-> finiteAbove0 n = true.
Proof.
  unfold assertFinitePositive, finiteAbove0, leb.
  destruct n as [q| | |]; simpl; try (split; discriminate).
  change (inject_Z 0) with 0%Q. rewrite Qltb_or_eq.
  destruct (Qle_bool q 0); simpl; split; congruence.
Qed.

Lemma asserts_throw_RangeError (e : Thrown) :
  (forall n, assertValidMaxAttempts n = Some e ->
             exists name received, e = RangeError name received)
  /\ (forall name n, assertFiniteNonNegative name n = Some e ->
                     exists name received, e = RangeError name received)
  /\ (forall name n, assertFinitePositive name n = Some e ->
                     exists name received, e = RangeError name received).
Proof.
  unfold assertValidMaxAttempts, assertFiniteNonNegative, assertFinitePositive.
  repeat split; intros;
    repeat match goal with
           | H : context [match ?x with _ => _ end] |- _ => destruct x
           end;
    try discriminate;
    match goal with
    | H : Some _ = Some _ |- _ => inv H
    end; eauto.
Qed.

(** What [normalizeOptions] does, in the words of the specification: it
    throws a [RangeError] when the configuration is invalid and returns
    otherwise. *)
Lemma normalizeOptions_spec (o : RetryOptions W) :
  if invalidConfiguration o
  then exists name received, normalizeOptions o = inl (RangeError name received)
  else exists opts, normalizeOptions o = inr opts.
Proof.
  unfold normalizeOptions, invalidConfiguration. cbn [firstThrown].
  pose proof (assertValidMaxAttempts_spec (orDefault (maxAttempts o) (ofZ 3))) as A.
  pose proof (assertFiniteNonNegative_spec "baseMs" (orDefault (baseMs o) (ofZ 200))) as B.
  pose proof (assertFiniteNonNegative_spec "capMs" (orDefault (capMs o) (ofZ 2000))) as C.
  pose proof (assertFinitePositive_spec "factor" (orDefault (factor o) (ofZ 2))) as D.
  destruct (assertValidMaxAttempts _) as [e1|] eqn:E1.
  { destruct (proj1 (asserts_throw_RangeError e1) _ E1) as (nm & rc & ->).
    destruct (maxAttempts o) as [| |n]; simpl in *;
      try (destruct A as [_ A]; specialize (A eq_refl); discriminate).
    destruct (integerAtLeast1 n); simpl; eauto.
    destruct A as [_ A]; specialize (A eq_refl); discriminate. }
  destruct A as [A _]. specialize (A eq_refl).
  assert (presentButNot integerAtLeast1 (maxAttempts o) = false) as ->.
  { destruct (maxAttempts o); simpl in *; try reflexivity. now rewrite A. }
  destruct (assertFiniteNonNegative "baseMs" _) as [e2|] eqn:E2.
  { destruct (proj1 (proj2 (asserts_throw_RangeError e2)) _ _ E2)
      as (nm & rc & ->).
    destruct (baseMs o) as [| |n]; simpl in *;
      try (destruct B as [_ B]; specialize (B eq_refl); discriminate).
    destruct (finiteAtLeast0 n); simpl; eauto.
    destruct B as [_ B]; specialize (B eq_refl); discriminate. }
  destruct B as [B _]. specialize (B eq_refl).
  assert (presentButNot finiteAtLeast0 (baseMs o) = false) as ->.
  { destruct (baseMs o); simpl in *; try reflexivity. now rewrite B. }
  destruct (assertFiniteNonNegative "capMs" _) as [e3|] eqn:E3.
  { destruct (proj1 (proj2 (asserts_throw_RangeError e3)) _ _ E3)
      as (nm & rc & ->).
    destruct (capMs o) as [| |n]; simpl in *;
      try (destruct C as [_ C]; specialize (C eq_refl); discriminate).
    destruct (finiteAtLeast0 n); simpl; eauto.
    destruct C as [_ C]; specialize (C eq_refl); discriminate. }
  destruct C as [C _]. specialize (C eq_refl).
  assert (presentButNot finiteAtLeast0 (capMs o) = false) as ->.
  { destruct (capMs o); simpl in *; try reflexivity. now rewrite C. }
  destruct (assertFinitePositive "factor" _) as [e4|] eqn:E4.
  { destruct (proj2 (proj2 (asserts_throw_RangeError e4)) _ _ E4)
      as (nm & rc & ->).
    destruct (factor o) as [| |n]; simpl in *;
      try (destruct D as [_ D]; specialize (D eq_refl); discriminate).
    destruct (finiteAbove0 n); simpl; rewrite ?orb_true_r; eauto.
    destruct D as [_ D]; specialize (D eq_refl); discriminate. }
  destruct D as [D _]. specialize (D eq_refl).
  assert (presentButNot finiteAbove0 (factor o) = false) as ->.
  { destruct (factor o); simpl in *; try reflexivity. now rewrite D. }
  cbn [orb]. rewrite orb_false_r.
  destruct (maxElapsedMs o) as [| |n]; cbn [presentButNot present];
    try (cbn [assertFiniteNonNegative]; eauto; fail).
  pose proof (assertFiniteNonNegative_spec "maxElapsedMs" n) as F.
  destruct (assertFiniteNonNegative "maxElapsedMs" (Some n)) as [e5|] eqn:E5.
  - destruct (proj1 (proj2 (asserts_throw_RangeError e5)) _ _ E5)
      as (nm & rc & ->).
    destruct (finiteAtLeast0 n); cbn [negb]; eauto.
    destruct F as [_ F]; specialize (F eq_refl); discriminate.
  - destruct F as [F _]. rewrite (F eq_refl). cbn [negb]. eauto.
Qed.

(** C2. Whatever the task, the world and the fuel: [retry] with an invalid
    configuration throws a [RangeError] and leaves the world and the trace
    as they were: the clock is not read, the task is not invoked. *)
Theorem retry_invalid_configuration (o : RetryOptions W) :
  invalidConfiguration o = true ->
  forall (fuel : nat) (task : Task W T) (s : St W T),
  exists name received,
    retry fuel task (Some o) s = (Throw (RangeError name received), s).
Proof.
  intros Hi fuel task s.
  pose proof (normalizeOptions_spec o) as H. rewrite Hi in H.
  destruct H as (name & received & H).
  exists name, received. unfold retry, orEmpty. now rewrite H.
Qed.

Lemma normalizeOptions_ranges (o : RetryOptions W) (opts : Normalized W) :
  normalizeOptions o = inr opts ->
  integerAtLeast1 (opts_maxAttempts opts) = true
  /\ finiteAtLeast0 (opts_baseMs opts) = true
  /\ finiteAtLeast0 (opts_capMs opts) = true
  /\ finiteAbove0 (opts_factor opts) = true.
Proof.
  unfold normalizeOptions. cbn [firstThrown].
  destruct (assertValidMaxAttempts _) eqn:A; try discriminate.
  destruct (assertFiniteNonNegative "baseMs" _) eqn:B; try discriminate.
  destruct (assertFiniteNonNegative "capMs" _) eqn:C; try discriminate.
  destruct (assertFinitePositive "factor" _) eqn:D; try discriminate.
  destruct (assertFiniteNonNegative "maxElapsedMs" _); try discriminate.
  intros H. inv H. cbn.
  apply assertValidMaxAttempts_spec in A.
  apply assertFiniteNonNegative_spec in B, C.
  apply assertFinitePositive_spec in D. auto.
Qed.

(** *** The backoff path *)

Lemma Math_min_Fin (x y : Q) : Math_min (Fin x) (Fin y) = Fin (Qmin x y).
Proof.
  unfold Math_min, ltb, Qltb, Qmin, GenericMinMax.gmin.
  rewrite <- (Qcompare_antisym y x). destruct (y ?= x)%Q; reflexivity.
Qed.

Lemma Math_max_Fin (x y : Q) : Math_max (Fin x) (Fin y) = Fin (Qmax x y).
Proof.
  unfold Math_max, ltb, Qltb, Qmax, GenericMinMax.gmax.
  destruct (x ?= y)%Q; reflexivity.
Qed.

Lemma Qfloor_nonneg (q : Q) : (0 <= q)%Q -> 0 <= Qfloor q.
Proof. intros H. apply (Qfloor_resp_le 0 q) in H. exact H. Qed.

Lemma Qtrunc_nonneg (q : Q) : (0 <= q)%Q -> Qtrunc q = Qfloor q.
Proof.
  destruct q as [n d]. unfold Qle, Qtrunc, Qfloor. cbn [Qnum Qden].
  intros H. apply Z.quot_div_nonneg; lia.
Qed.

Lemma toIntMs_Fin_nonneg (q : Q) : (0 <= q)%Q -> toIntMs (Fin q) = Qfloor q.
Proof.
  intros H. unfold toIntMs. rewrite Qtrunc_nonneg by assumption.
  pose proof (Qfloor_nonneg q H). lia.
Qed.

Lemma Qmin_nonneg (x y : Q) : (0 <= x)%Q -> (0 <= y)%Q -> (0 <= Qmin x y)%Q.
Proof.
  intros Hx Hy. unfold Qmin, GenericMinMax.gmin.
  destruct (x ?= y)%Q; assumption.
Qed.

Lemma Qmax_nonneg_l (y : Q) : (0 <= Qmax 0 y)%Q.
Proof.
  unfold Qmax, GenericMinMax.gmax. destruct (0 ?= y)%Q eqn:C.
  - apply Qle_refl.
  - apply Qlt_le_weak. now apply Qlt_alt.
  - apply Qle_refl.
Qed.

Lemma cappedBackoff_nonneg (b c f : Q) (k : Z) :
  (0 <= b)%Q -> (0 <= c)%Q -> (0 < f)%Q -> (0 <= cappedBackoff b c f k)%Q.
Proof.
  intros Hb Hc Hf. apply Qmin_nonneg; [assumption|].
  apply Qmult_le_0_compat; [assumption|].
  apply Qpower_0_le. now apply Qlt_le_weak.
Qed.

Lemma toIntMs_Fin (q : Q) : toIntMs (Fin q) = Z.max 0 (Qfloor q).
Proof.
  destruct (Qlt_le_dec q 0) as [H|H].
  - destruct q as [n d]. unfold Qlt in H. unfold toIntMs, Qtrunc, Qfloor.
    cbn [Qnum Qden] in *.
    assert (n / Zpos d <= 0) by (apply Z.div_le_upper_bound; lia).
    assert (Z.quot n (Zpos d) <= 0).
    { replace n with (- - n) by lia. rewrite Z.quot_opp_l by lia.
      pose proof (Z.quot_pos (- n) (Zpos d)). lia. }
    lia.
  - rewrite toIntMs_Fin_nonneg by assumption.
    pose proof (Qfloor_nonneg q H). lia.
Qed.

(** The capped backoff never exceeds the cap, whatever the product and the
    power come to. *)
Lemma toIntMs_min_le_cap (c : Q) (raw : number) :
  0 <= toIntMs (Math_min (Fin c) raw) <= Z.max 0 (Qfloor c).
Proof.
  split; [apply toIntMs_nonneg|].
  destruct raw as [v| | |].
  - rewrite Math_min_Fin, !toIntMs_Fin.
    pose proof (Qfloor_resp_le _ _ (Q.le_min_l c v)). lia.
  - change (Math_min (Fin c) PInf) with (Fin c). rewrite toIntMs_Fin. lia.
  - change (toIntMs (Math_min (Fin c) NInf)) with 0. lia.
  - change (toIntMs (Math_min (Fin c) NaN)) with 0. lia.
Qed.

Lemma computeBackoffMs_le_cap (k : Z) (b f : number) (c : Q) :
  0 <= computeBackoffMs k b (Fin c) f <= Z.max 0 (Qfloor c).
Proof. unfold computeBackoffMs. apply toIntMs_min_le_cap. Qed.

Lemma clampDraw_bounds (r : number) :
  (0 <= clampDraw r)%Q /\ (clampDraw r <= jitterCeilingQ)%Q.
Proof.
  unfold clampDraw. split; [apply Qmax_nonneg_l|].
  apply Q.max_lub; [discriminate | apply Q.le_min_l].
Qed.

(** [applyFullJitter] with the clamp written out. *)
Lemma jitterOf_clamped (z : Z) (r : number) :
  jitterOf z r = toIntMs (Math_floor (mul (Fin (clampDraw r)) (ofZ z))).
Proof.
  unfold jitterOf, clampDraw. rewrite jitterCeiling_value.
  assert ((if isFinite r then r else ofZ 0)
          = Fin (match r with Fin x => x | _ => 0 end)) as ->
      by (destruct r; reflexivity).
  rewrite Math_min_Fin. unfold ofZ at 1. rewrite Math_max_Fin.
  reflexivity.
Qed.

Lemma jitterOf_bounds (z : Z) (r : number) :
  0 <= z -> 0 <= jitterOf z r <= z /\ (0 < z -> jitterOf z r < z).
Proof.
  intros Hz. rewrite jitterOf_clamped.
  destruct (clampDraw_bounds r) as [H0 H1].
  split; [split; [apply toIntMs_nonneg|]|].
  - destruct (Z.eq_dec z 0) as [->|Hne].
    + cbn [mul ofZ]. rewrite (round64_Qeq _ 0) by (simpl; ring).
      reflexivity.
    + cbn [mul ofZ].
      destruct (round64_below (clampDraw r * inject_Z z) (inject_Z z))
        as [->|(v & -> & Hv0 & Hv)].
      * apply Qmult_le_0_compat; [assumption|].
        change 0%Q with (inject_Z 0). rewrite <- Zle_Qle. exact Hz.
      * change 1%Q with (inject_Z 1). rewrite <- Zle_Qle. lia.
      * apply Qmult_le_compat_r; [assumption|].
        change 0%Q with (inject_Z 0). rewrite <- Zle_Qle. exact Hz.
      * simpl. exact Hz.
      * cbn [Math_floor]. rewrite toIntMs_ofZ.
        pose proof (Qfloor_nonneg v Hv0).
        pose proof (Qle_lt_trans _ _ _ (Qfloor_le v) Hv) as Hlt.
        rewrite <- Zlt_Qlt in Hlt. lia.
  - intros Hpos. cbn [mul ofZ].
    destruct (round64_below (clampDraw r * inject_Z z) (inject_Z z))
      as [->|(v & -> & Hv0 & Hv)].
    + apply Qmult_le_0_compat; [assumption|].
      change 0%Q with (inject_Z 0). rewrite <- Zle_Qle. exact Hz.
    + change 1%Q with (inject_Z 1). rewrite <- Zle_Qle. lia.
    + apply Qmult_le_compat_r; [assumption|].
      change 0%Q with (inject_Z 0). rewrite <- Zle_Qle. exact Hz.
    + simpl. exact Hpos.
    + cbn [Math_floor]. rewrite toIntMs_ofZ.
      pose proof (Qfloor_nonneg v Hv0).
      pose proof (Qle_lt_trans _ _ _ (Qfloor_le v) Hv) as Hlt.
      rewrite <- Zlt_Qlt in Hlt. lia.
Qed.

Lemma min_exactly (c v q : Q) :
  (v == q)%Q -> toIntMs (Math_min (Fin c) (Fin v)) = Z.max 0 (Qfloor (Qmin c q)).
Proof.
  intros E. rewrite Math_min_Fin, toIntMs_Fin.
  assert (Qmin c v == Qmin c q)%Q as H.
  { destruct (Q.min_spec c v) as [[H1 ->]|[H1 ->]];
      destruct (Q.min_spec c q) as [[H2 ->]|[H2 ->]]; lra. }
  now rewrite (Qfloor_comp _ _ H).
Qed.

Lemma finiteAtLeast0_Fin (n : number) :
  finiteAtLeast0 n = true -> exists q, n = Fin q /\ (0 <= q)%Q.
Proof.
  destruct n as [q| | |]; simpl; try discriminate.
  intros H. exists q. split; [reflexivity | now apply Qle_bool_iff].
Qed.

Lemma finiteAbove0_Fin (n : number) :
  finiteAbove0 n = true -> exists q, n = Fin q /\ (0 < q)%Q.
Proof.
  destruct n as [q| | |]; simpl; try discriminate.
  intros H. exists q. split; [reflexivity|].
  apply Qnot_le_lt. intros C. apply Qle_bool_iff in C. rewrite C in H.
  discriminate.
Qed.

(** Where no product and no power needs rounding, the engine's delays are
    those of exact arithmetic on the truncated backoff; and where the draw
    lies within the clamp and the capped backoff is a whole number, the
    delay under full jitter is the specified one. *)
Lemma delays_exact (r : number) (b c f : Q) (k : Z) :
  (0 <= b)%Q -> (0 <= c)%Q -> (0 < f)%Q ->
  exactly (pow (Fin f) (k - 1)) (f ^ (k - 1)) ->
  exactly (mul (Fin b) (Fin (f ^ (k - 1)))) (b * f ^ (k - 1)) ->
  let z := Qfloor (cappedBackoff b c f k) in
  noJitterDelay b c f k = z
  /\ (exactly (mul (Fin (clampDraw r)) (ofZ z)) (clampDraw r * inject_Z z) ->
      fullJitterDelay r b c f k = Qfloor (clampDraw r * inject_Z z)
      /\ (forall x,
            r = Fin x -> (0 <= x)%Q -> (x <= jitterCeilingQ)%Q ->
            (cappedBackoff b c f k == inject_Z z)%Q ->
            fullJitterDelay r b c f k = specFullJitterDelay x b c f k)).
Proof.
  intros Hb Hc Hf (p & Ep & Hp) (v & Ev & Hv) z.
  pose proof (cappedBackoff_nonneg b c f k Hb Hc Hf) as Hn.
  pose proof (Qfloor_nonneg _ Hn) as Hz0. fold z in Hz0.
  assert (noJitterDelay b c f k = z) as En.
  { unfold noJitterDelay. rewrite Ep. cbn [mul] in Ev |- *.
    rewrite (round64_Qeq (b * p) (b * f ^ (k - 1)))
      by (rewrite Hp; reflexivity).
    rewrite Ev, (min_exactly c v (b * f ^ (k - 1)) Hv).
    fold (cappedBackoff b c f k). fold z. lia. }
  split; [exact En|].
  intros (u & Eu & Hu).
  destruct (clampDraw_bounds r) as [Hr0 _].
  assert (fullJitterDelay r b c f k = Qfloor (clampDraw r * inject_Z z))
    as Ej.
  { unfold fullJitterDelay. rewrite En, Eu. cbn [Math_floor].
    rewrite toIntMs_ofZ, (Qfloor_comp _ _ Hu).
    apply Z.max_r. apply Qfloor_nonneg.
    apply Qmult_le_0_compat; [assumption|].
    change 0%Q with (inject_Z 0). rewrite <- Zle_Qle. exact Hz0. }
  split; [exact Ej|].
  intros x -> H0 H1 Hz. rewrite Ej. unfold specFullJitterDelay.
  apply Qfloor_comp. rewrite Hz.
  unfold clampDraw. rewrite (Q.min_r _ _ H1), (Q.max_r _ _ H0).
  reflexivity.
Qed.

(** C3. For a valid configuration, a failure of attempt [k] for which no
    retry hint applies and a random source that always returns [r], the
    delay without jitter is
    [B = trunc(min(capMs, baseMs * factor ** (k-1)))], a whole number
    between 0 and [capMs], and under full jitter it is
    [floor(clamp(r) * B)], between 0 and [B], where [clamp] brings [r]
    into [[0, 0.999999999]] (0 if [r] is not finite), each product is
    rounded to the nearest double and [**] is the host's (1 for the
    exponent 0).  Where the power and the products need no rounding, [B]
    is [floor(min(capMs, baseMs * factor^(k-1)))] and the delay under full
    jitter is [floor(clamp(r) * B)] of exact arithmetic, which is the
    specified [floor(r * min(capMs, baseMs * factor^(k-1)))] whenever [r]
    lies within the clamp and the capped backoff is a whole number, as in
    the example: 500 after attempt 1 and, where [2 ** 1] is 2, 750 after
    attempt 2. *)
Theorem planDelay_backoff (o : RetryOptions W) (opts : Normalized W) (k : Z)
  (err : value) (s s1 : St W T) (r : number) :
  normalizeOptions o = inr opts ->
  hintDelay opts err s = (Normal None, s1) ->
  (forall w, fst (opts_rng opts w) = r) ->
  exists b c f,
    opts_baseMs opts = Fin b
    /\ opts_capMs opts = Fin c
    /\ opts_factor opts = Fin f
    /\ fst (planDelay opts k err s)
       = Normal (ReasonBackoff,
                 match opts_jitter opts with
                 | JitterFull => fullJitterDelay r b c f k
                 | JitterNone => noJitterDelay b c f k
                 end)
    /\ 0 <= noJitterDelay b c f k <= Qfloor c
    /\ 0 <= fullJitterDelay r b c f k <= noJitterDelay b c f k
    /\ (exactly (pow (Fin f) (k - 1)) (f ^ (k - 1)) ->
        exactly (mul (Fin b) (Fin (f ^ (k - 1)))) (b * f ^ (k - 1)) ->
        let z := Qfloor (cappedBackoff b c f k) in
        noJitterDelay b c f k = z
        /\ (exactly (mul (Fin (clampDraw r)) (ofZ z))
              (clampDraw r * inject_Z z) ->
            fullJitterDelay r b c f k = Qfloor (clampDraw r * inject_Z z)
            /\ (forall x,
                  r = Fin x -> (0 <= x)%Q -> (x <= jitterCeilingQ)%Q ->
                  (cappedBackoff b c f k == inject_Z z)%Q ->
                  fullJitterDelay r b c f k
                  = specFullJitterDelay x b c f k)))
    /\ fullJitterDelay (Fin 0.5) 1000 1500 2 1 = 500
    /\ (exponentiate (Fin 2) (ofZ 1) = Fin 2 ->
        fullJitterDelay (Fin 0.5) 1000 1500 2 2 = 750).
Proof.
  intros Hn Hh Hr.
  destruct (normalizeOptions_ranges _ _ Hn) as (_ & Hb & Hc & Hf).
  apply finiteAtLeast0_Fin in Hb as (b & Eb & Hb).
  apply finiteAtLeast0_Fin in Hc as (c & Ec & Hc).
  apply finiteAbove0_Fin in Hf as (f & Ef & Hf).
  exists b, c, f. repeat (split; [assumption|]).
  assert (0 <= noJitterDelay b c f k <= Qfloor c) as Hz.
  { pose proof (toIntMs_min_le_cap c (mul (Fin b) (pow (Fin f) (k - 1)))) as H.
    pose proof (Qfloor_nonneg c Hc). unfold noJitterDelay. lia. }
  assert (forall r', 0 <= fullJitterDelay r' b c f k <= noJitterDelay b c f k)
    as Hj.
  { intros r'. unfold fullJitterDelay. rewrite <- jitterOf_clamped.
    apply jitterOf_bounds. lia. }
  split; [|split; [exact Hz|split; [apply Hj|split; [|split]]]].
  - unfold planDelay, applyFullJitter, bind, observe.
    rewrite Hh, Eb, Ec, Ef.
    change (computeBackoffMs k (Fin b) (Fin c) (Fin f))
      with (noJitterDelay b c f k).
    destruct (opts_jitter opts).
    + unfold bind, liftW, emit, ret. cbn [world log].
      specialize (Hr (world s1)).
      destruct (opts_rng opts (world s1)) as [r' w]. cbn [fst] in *. subst r'.
      rewrite jitterOf_clamped. fold (fullJitterDelay r b c f k).
      rewrite toIntMs_ofZ, Z.max_r; [reflexivity|]. apply Hj.
    + unfold ret. cbn [fst]. rewrite toIntMs_ofZ, Z.max_r; [reflexivity|].
      lia.
  - now apply delays_exact.
  - vm_compute. reflexivity.
  - intros Hp. unfold fullJitterDelay, noJitterDelay, pow.
    change (2 - 1) with 1. cbv iota. rewrite Hp. vm_compute. reflexivity.
Qed.

(** *** The retry-hint path *)

(** A header that reads as a finite number of seconds decides the plan: no
    draw from the random source, no reading of the clock. *)
Lemma planDelay_header_seconds (opts : Normalized W) (k : Z) (err : value)
  (s : St W T) (h : string) (n : Q) :
  opts_respectRetryAfter opts = true ->
  is429 (getStatus err) = true ->
  getHeader (optProp (optProp err "response") "headers")
    (opts_retryAfterHeaderName opts) = Some h ->
  Number (trim h) = Fin n ->
  planDelay opts k err s
  = (Normal (ReasonRetryAfter, toIntMs (mul (Fin n) (ofZ 1000))), s).
Proof.
  intros Hr H429 Hh Hn.
  unfold planDelay, hintDelay, parseRetryAfterHeaderMs, bind.
  rewrite Hr, H429, Hh, Hn. cbn [andb isFinite ret].
  destruct (opts_retryAfterBodyUnit opts); cbn [ret];
    rewrite toIntMs_idem; reflexivity.
Qed.

Lemma Planned_nonneg (opts : Normalized W) (k : Z) (err : value)
  (reason : Reason) (d : Z) (rngs : list (Obs W T)) :
  Planned opts k err reason d rngs -> 0 <= d.
Proof.
  intros (s1 & s2 & E & _).
  destruct (planDelay_spec _ _ _ _ _ _ E) as (reason' & d' & l & N & Hd & _).
  apply Normal_inj in N. apply pair_eq_inv in N as [_ ->]. exact Hd.
Qed.

(** Every event a run delivers to the hook carries a plan of the delay
    planner for its error and its attempt, and comes from an attempt below
    the ceiling. *)
Lemma Failure_events (opts : Normalized W) (startedAt : number) (k : Z)
  (ctx : RetryContext W) (err : value) (obs : list (Obs W T))
  (r : Completion unit) :
  Failure opts startedAt k ctx err obs r ->
  forall ev, In ev (retryEvents obs) ->
    exists e (rngs : list (Obs W T)),
      ev = eventOf err (ev_reason ev) (ev_delayMs ev) k (withElapsed ctx e)
      /\ Planned opts k err (ev_reason ev) (ev_delayMs ev) rngs
      /\ isAbortLikeError err = false
      /\ geb (ofZ k) (opts_maxAttempts opts) = false
      /\ In (ObsShouldRetry err (withElapsed ctx e) (Fulfilled true)) obs
      /\ overBudget opts (e + ev_delayMs ev) = None.
Proof.
  intros F ev Hin. inv F; try (simpl in Hin; contradiction).
  - planned; simpl in Hin; contradiction.
  - planned; simpl in Hin;
      destruct Hin as [<-|[]]; exists e; eexists;
      (split; [reflexivity|]); (split; [eassumption|]);
      (split; [assumption|]); (split; [assumption|]);
      (split; [simpl; auto | assumption]).
  - unfold hookObs in *.
    planned; destruct (opts_onRetry opts); simpl in Hin;
      try contradiction;
      destruct Hin as [<-|[]]; exists e; eexists;
      (split; [reflexivity|]); (split; [eassumption|]);
      (split; [assumption|]); (split; [assumption|]);
      (split; [simpl; auto | assumption]).
Qed.

Lemma Scheduled_app (opts : Normalized W) (l1 l2 : list (Obs W T))
  (ev : RetryEvent W) :
  Scheduled opts l1 ev \/ Scheduled opts l2 ev ->
  Scheduled opts (l1 ++ l2) ev.
Proof.
  unfold Scheduled.
  intros [(A & G & (c & Hin & B) & D)|(A & G & (c & Hin & B) & D)];
    repeat (split; [assumption|]); (split; [|assumption]);
    exists c; (split; [|assumption]); apply in_or_app; auto.
Qed.

Lemma Turn_events (opts : Normalized W) (startedAt : number) (a : Z)
  (obs : list (Obs W T)) (r : Completion (option T)) :
  Turn opts startedAt a obs r ->
  forall ev, In ev (retryEvents obs) ->
    (exists rngs : list (Obs W T),
        Planned opts (ev_nextAttempt ev - 1) (ev_error ev) (ev_reason ev)
          (ev_delayMs ev) rngs)
    /\ Scheduled opts obs ev.
Proof.
  intros Ht ev Hin. inv Ht; try (simpl in Hin; contradiction).
  simpl in Hin.
  destruct (Failure_events _ _ _ _ _ _ _ H ev Hin)
    as (e' & rngs & Ev & P & A & G & C & B).
  pose proof (Planned_nonneg _ _ _ _ _ _ P) as Hd.
  assert (ev_nextAttempt ev - 1 = a + 1) as Hk
      by (rewrite Ev; cbn [ev_nextAttempt eventOf]; lia).
  assert (ev_error ev = err) as He by (rewrite Ev; reflexivity).
  unfold Scheduled. rewrite Hk, He.
  split; [exists rngs; exact P|].
  repeat (split; [assumption|]). split; [|assumption].
  exists (withElapsed (contextOf opts startedAt (a + 1) e) e').
  split; [right; exact C | exact B].
Qed.

Lemma Run_events (opts : Normalized W) (startedAt : number) (a : Z)
  (obs : list (Obs W T)) (r : Completion T) :
  Run opts startedAt a obs r ->
  forall ev, In ev (retryEvents obs) ->
    (exists rngs : list (Obs W T),
        Planned opts (ev_nextAttempt ev - 1) (ev_error ev) (ev_reason ev)
          (ev_delayMs ev) rngs)
    /\ Scheduled opts obs ev.
Proof.
  intros R. induction R; intros ev Hin.
  - simpl in Hin. contradiction.
  - eapply Turn_events; eassumption.
  - eapply Turn_events; eassumption.
  - rewrite retryEvents_app in Hin. apply in_app_or in Hin as [Hin|Hin].
    + destruct (Turn_events _ _ _ _ _ H ev Hin) as [P S].
      split; [assumption | apply Scheduled_app; auto].
    + destruct (IHR ev Hin) as [P S].
      split; [assumption | apply Scheduled_app; auto].
Qed.

Lemma retry_events (fuel : nat) (task : Task W T)
  (options : option (RetryOptions W)) (opts : Normalized W) (s : St W T) :
  normalizeOptions (orEmpty options) = inr opts ->
  log s = [] ->
  forall ev, In ev (retryEvents (log (snd (retry fuel task options s)))) ->
    (exists rngs : list (Obs W T),
        Planned opts (ev_nextAttempt ev - 1) (ev_error ev) (ev_reason ev)
          (ev_delayMs ev) rngs)
    /\ Scheduled opts (log (snd (retry fuel task options s))) ev.
Proof.
  intros Hn Hs ev Hin.
  destruct (retry_Run fuel task options opts s Hn) as (t & obs & Hl & R).
  rewrite Hl, Hs in *. simpl in *.
  eapply Run_events; eassumption.
Qed.

Lemma Planned_header_seconds (opts : Normalized W) (k : Z) (err : value)
  (h : string) (n : Q) (reason : Reason) (d : Z) (rngs : list (Obs W T)) :
  opts_respectRetryAfter opts = true ->
  is429 (getStatus err) = true ->
  getHeader (optProp (optProp err "response") "headers")
    (opts_retryAfterHeaderName opts) = Some h ->
  Number (trim h) = Fin n ->
  Planned opts k err reason d rngs ->
  reason = ReasonRetryAfter /\ d = toIntMs (mul (Fin n) (ofZ 1000)).
Proof.
  intros Hr H429 Hh Hn (s1 & s2 & E & _).
  rewrite (planDelay_header_seconds opts k err s1 h n Hr H429 Hh Hn) in E.
  apply pair_eq_inv in E as [E _]. apply Normal_inj in E.
  apply pair_eq_inv in E as [<- <-]. auto.
Qed.

(** The [catch] block when every check lets the retry through and the plan
    leaves the state as it is: the classifier, the hook with the event,
    and, the hook returning, the sleep. *)
Lemma onFailure_retries (opts : Normalized W) (startedAt : number) (k : Z)
  (ctx : RetryContext W) (err : value) (s : St W T) (t : number) (w1 w2 : W)
  (reason : Reason) (d : Z)
  (hook : RetryEvent W -> W -> Settled unit * W) :
  isAbortLikeError err = false ->
  geb (ofZ k) (opts_maxAttempts opts) = false ->
  Date_now (world s) = (t, w1) ->
  signalAborted (opts_signal opts) w1 = false ->
  opts_shouldRetry opts err (withElapsed ctx (toIntMs (sub t startedAt))) w1
  = (Fulfilled true, w2) ->
  (forall s' : St W T, planDelay opts k err s' = (Normal (reason, d), s')) ->
  overBudget opts (toIntMs (sub t startedAt) + d) = None ->
  opts_onRetry opts = Some hook ->
  let c := withElapsed ctx (toIntMs (sub t startedAt)) in
  let ev := eventOf err reason d k c in
  log (snd (onFailure opts startedAt k ctx err s))
  = log s
      ++ ObsShouldRetry err c (Fulfilled true)
      :: ObsRetry ev (fst (hook ev w2))
      :: match fst (hook ev w2) with
         | Fulfilled _ => [ObsSleep d]
         | Rejected _ => []
         end.
Proof.
  intros A G Et Sg Ea Hp B Hh c ev.
  assert (0 <= d) as Hd.
  { destruct (planDelay_spec _ _ _ _ _ _ (Hp s))
      as (reason' & d' & l & N & Hd & _).
    apply Normal_inj in N. apply pair_eq_inv in N as [_ ->]. exact Hd. }
  unfold onFailure, now.
  cbv beta delta [bind ret throw liftW readW emit observe orThrow].
  cbv beta iota zeta.
  subst c ev.
  rewrite A. simp. rewrite Et. simp. rewrite G. simp. rewrite Sg. simp.
  rewrite Ea. simp. rewrite Hp. simp. rewrite B. simp. rewrite Hh. simp.
  match goal with
  | |- context [hook ?e w2] => destruct (hook e w2) as [[u|x] w3] eqn:Ek
  end; simp.
  - match goal with
    | |- context [sleep ?ms ?sg ?st] =>
        destruct (sleep ms sg st) as [r s4] eqn:Es
    end.
    apply sleep_spec in Es as [Hl _]. simp. rewrite Hl. simp.
    rewrite toIntMs_ofZ, Z.max_r by assumption.
    rewrite <- !app_assoc. reflexivity.
  - rewrite <- !app_assoc. reflexivity.
Qed.

Lemma exactly_toIntMs (x : number) (q : Q) :
  exactly x q -> toIntMs x = Z.max 0 (Qfloor q).
Proof.
  intros (v & -> & E). rewrite toIntMs_Fin. now rewrite (Qfloor_comp _ _ E).
Qed.

(** C4. With [respectRetryAfter] on, for an error
    whose status is 429 and whose configured header (its name matched
    whatever the case) holds a string that, trimmed, reads as the finite
    number [n]: the planner returns the reason ['retry-after'] and the
    delay [trunc(n * 1000)], at least 0, the product being that of doubles,
    whatever the jitter, the attempt and the world, without drawing from
    the random source or touching the world.  The delay is
    [max(0, floor(n * 1000))] when the product needs no rounding, and 0
    when it overflows.  Every event that a run delivers to the hook for
    that error carries that reason and that delay; and a [catch] block
    that lets the retry through (the error not cancellation-like, the
    attempt below the ceiling, the signal not aborted, the classifier
    accepting, the delay within the budget) calls the hook with that
    event and, the hook returning, enters [sleep] with that delay. *)
Theorem retry_after_header_seconds (opts : Normalized W) (err : value)
  (h : string) (n : Q) :
  opts_respectRetryAfter opts = true ->
  is429 (getStatus err) = true ->
  getHeader (optProp (optProp err "response") "headers")
    (opts_retryAfterHeaderName opts) = Some h ->
  Number (trim h) = Fin n ->
  let delayMs := toIntMs (mul (Fin n) (ofZ 1000)) in
  (forall (k : Z) (s : St W T),
      planDelay opts k err s = (Normal (ReasonRetryAfter, delayMs), s))
  /\ 0 <= delayMs
  /\ (exactly (mul (Fin n) (ofZ 1000)) (n * 1000) ->
      delayMs = Z.max 0 (Qfloor (n * 1000)))
  /\ (forall z : Z,
         (n == inject_Z z)%Q -> 0 <= z * 1000 < 2 ^ 53 ->
         delayMs = z * 1000)
  /\ (isFinite (mul (Fin n) (ofZ 1000)) = false -> delayMs = 0)
  /\ (forall (fuel : nat) (task : Task W T)
             (options : option (RetryOptions W)) (s : St W T),
         normalizeOptions (orEmpty options) = inr opts ->
         log s = [] ->
         forall ev,
           In ev (retryEvents (log (snd (retry fuel task options s)))) ->
           ev_error ev = err ->
           ev_reason ev = ReasonRetryAfter /\ ev_delayMs ev = delayMs)
  /\ (forall (startedAt : number) (k : Z) (ctx : RetryContext W)
             (s : St W T) (t : number) (w1 w2 : W)
             (hook : RetryEvent W -> W -> Settled unit * W),
         isAbortLikeError err = false ->
         geb (ofZ k) (opts_maxAttempts opts) = false ->
         Date_now (world s) = (t, w1) ->
         signalAborted (opts_signal opts) w1 = false ->
         let c := withElapsed ctx (toIntMs (sub t startedAt)) in
         opts_shouldRetry opts err c w1 = (Fulfilled true, w2) ->
         overBudget opts (ctx_elapsedMs c + delayMs) = None ->
         opts_onRetry opts = Some hook ->
         let ev := eventOf err ReasonRetryAfter delayMs k c in
         log (snd (onFailure opts startedAt k ctx err s))
         = log s
             ++ ObsShouldRetry err c (Fulfilled true)
             :: ObsRetry ev (fst (hook ev w2))
             :: match fst (hook ev w2) with
                | Fulfilled _ => [ObsSleep delayMs]
                | Rejected _ => []
                end).
Proof.
  intros Hr H429 Hh Hn delayMs.
  split; [|split; [|split; [|split; [|split; [|split]]]]].
  - intros k s. now apply planDelay_header_seconds with (h := h).
  - apply toIntMs_nonneg.
  - apply exactly_toIntMs.
  - intros z En Hz. unfold delayMs. cbn [mul ofZ].
    assert (n * inject_Z 1000 == inject_Z (z * 1000))%Q as E
        by (rewrite En, inject_Z_mult; reflexivity).
    destruct (round64_whole _ (z * 1000) Hz E) as (v & -> & Ev).
    rewrite toIntMs_Fin, (Qfloor_comp _ _ Ev), (Qfloor_comp _ _ E), Qfloor_Z.
    lia.
  - unfold delayMs. destruct (mul (Fin n) (ofZ 1000)); try discriminate;
      reflexivity.
  - intros fuel task options s Hno Hs ev Hin He.
    destruct (retry_events fuel task options opts s Hno Hs ev Hin)
      as [[rngs P] _].
    rewrite He in P.
    eapply Planned_header_seconds; eassumption.
  - intros startedAt k ctx s t w1 w2 hook A G Et Sg c Ea B Ho ev.
    apply (onFailure_retries opts startedAt k ctx err s t w1 w2
             ReasonRetryAfter delayMs hook); try assumption.
    intros s'. now apply planDelay_header_seconds with (h := h).
Qed.




(** *** The hook and the sleep *)







(** *** The first attempt, and the cancellation-like errors *)


Lemma Failure_cancelled (opts : Normalized W) (startedAt : number) (k : Z)
  (ctx : RetryContext W) (err : value) (obs : list (Obs W T))
  (r : Completion unit) :
  Failure opts startedAt k ctx err obs r ->
  (isAbortLikeError err = true -> obs = [] /\ r = Throw (ThrownValue err))
  /\ (forall e, In e (classified obs) -> isAbortLikeError e = false).
Proof.
  intros F. inv F; planned; unfold hookObs;
    try destruct (opts_onRetry opts); simpl;
    (split; [intros; try congruence; auto | intros e' Hin; simpl in Hin]);
    try contradiction; destruct Hin as [<-|[]]; assumption.
Qed.

Lemma Turn_cancelled (opts : Normalized W) (startedAt : number) (a : Z)
  (obs : list (Obs W T)) (r : Completion (option T)) :
  Turn opts startedAt a obs r ->
  (forall ctx err,
      In (ObsTask ctx (Rejected err)) obs ->
      isAbortLikeError err = true ->
      obs = [ObsTask ctx (Rejected err)] /\ r = Throw (ThrownValue err))
  /\ (forall e, In e (classified obs) -> isAbortLikeError e = false).
Proof.
  intros Ht. inv Ht; simpl;
    try (split; [intros ctx err []; try discriminate; contradiction
                | intros e' []]).
  destruct (Failure_cancelled _ _ _ _ _ _ _ H) as [Hc Hk].
  split; [|exact Hk].
  intros ctx err' [E|Hin] Ha.
  - inv E. destruct (Hc Ha) as [-> ->]. auto.
  - exfalso. clear - H Hin. inv H; planned; unfold hookObs in *;
      try destruct (opts_onRetry opts); simpl in Hin;
      repeat match goal with
             | D : _ \/ _ |- _ => destruct D
             | D : _ = _ |- _ => discriminate D
             end; auto.
Qed.

Lemma Run_cancelled (opts : Normalized W) (startedAt : number) (a : Z)
  (obs : list (Obs W T)) (r : Completion T) :
  Run opts startedAt a obs r ->
  (forall ctx err,
      In (ObsTask ctx (Rejected err)) obs ->
      isAbortLikeError err = true ->
      r = Throw (ThrownValue err)
      /\ exists l, obs = l ++ [ObsTask ctx (Rejected err)])
  /\ (forall e, In e (classified obs) -> isAbortLikeError e = false).
Proof.
  intros R. induction R.
  - split; intros; simpl in *; contradiction.
  - destruct (Turn_cancelled _ _ _ _ _ H) as [Hc Hk]. split; [|exact Hk].
    intros ctx err Hin Ha. destruct (Hc ctx err Hin Ha) as [_ E].
    discriminate.
  - destruct (Turn_cancelled _ _ _ _ _ H) as [Hc Hk]. split; [|exact Hk].
    intros ctx err Hin Ha. destruct (Hc ctx err Hin Ha) as [-> E].
    apply Throw_inj in E. subst. split; [reflexivity | now exists []].
  - destruct (Turn_cancelled _ _ _ _ _ H) as [Hc Hk].
    destruct IHR as [IHc IHk]. split.
    + intros ctx err Hin Ha. apply in_app_or in Hin as [Hin|Hin].
      * destruct (Hc ctx err Hin Ha) as [_ E]. discriminate.
      * destruct (IHc ctx err Hin Ha) as [-> [l ->]].
        split; [reflexivity|]. exists (obs ++ l). now rewrite app_assoc.
    + intros e Hin. rewrite classified_app in Hin.
      apply in_app_or in Hin as [Hin|Hin]; auto.
Qed.

(** *** The decisions not to retry *)



Lemma isAbortLikeError_spec (err : value) :
  isAbortLikeError err = true
  <-> optProp err "name" = VStr "AbortError"
      \/ optProp err "code" = VStr "ABORT_ERR"
      \/ optProp err "code" = VStr "ERR_CANCELED".
Proof.
  assert (forall v t, isStr v t = true <-> v = VStr t) as Hs.
  { intros v t. destruct v; simpl; try (split; discriminate).
    rewrite String.eqb_eq. split; congruence. }
  unfold isAbortLikeError. rewrite !orb_true_iff, !Hs. tauto.
Qed.

(** C6. A cancellation-like error (its [name] is ['AbortError'], or its
    [code] is ['ABORT_ERR'] or ['ERR_CANCELED']) thrown by the task ends
    the run with that very error: the [catch] block rethrows it first,
    touching nothing, whatever [wrapError], the attempt number and the
    budget are; in a run it is the last thing observed, and no error the
    classifier is asked about is cancellation-like. *)
Theorem cancellation_like_rethrown (fuel : nat) (task : Task W T)
  (options : option (RetryOptions W)) (opts : Normalized W) (s : St W T) :
  normalizeOptions (orEmpty options) = inr opts ->
  log s = [] ->
  (forall err,
      isAbortLikeError err = true
      <-> optProp err "name" = VStr "AbortError"
          \/ optProp err "code" = VStr "ABORT_ERR"
          \/ optProp err "code" = VStr "ERR_CANCELED")
  /\ (forall startedAt k ctx err (s1 : St W T),
         isAbortLikeError err = true ->
         onFailure opts startedAt k ctx err s1 = (Throw (ThrownValue err), s1))
  /\ (forall ctx err,
         In (ObsTask ctx (Rejected err))
           (log (snd (retry fuel task options s))) ->
         isAbortLikeError err = true ->
         fst (retry fuel task options s) = Throw (ThrownValue err)
         /\ exists l,
             log (snd (retry fuel task options s))
             = l ++ [ObsTask ctx (Rejected err)])
  /\ (forall err,
         In err (classified (log (snd (retry fuel task options s)))) ->
         isAbortLikeError err = false).
Proof.
  intros Hn Hs.
  destruct (retry_Run fuel task options opts s Hn) as (t & obs & Hl & R).
  rewrite Hs in Hl. simpl in Hl. rewrite Hl.
  destruct (Run_cancelled _ _ _ _ _ R) as [Hc Hk].
  split; [exact isAbortLikeError_spec|]. split; [|split].
  - intros startedAt k ctx err s1 Ha. unfold onFailure. now rewrite Ha.
  - exact Hc.
  - exact Hk.
Qed.

(** *** The budget *)

Lemma overBudget_spec (opts : Normalized W) (ms : Z) (m : number) :
  overBudget opts ms = Some m
  <-> opts_maxElapsedMs opts = Some m /\ gtb (ofZ ms) m = true.
Proof.
  unfold overBudget. destruct (opts_maxElapsedMs opts) as [m'|].
  - destruct (gtb (ofZ ms) m') eqn:G; split.
    + intros E. inv E. auto.
    + intros [E _]. exact E.
    + discriminate.
    + intros [E G']. inv E. congruence.
  - split; [discriminate | intros [E _]; discriminate].
Qed.





(** *** The factory *)

Lemma spread_emptyOptions_r (d : RetryOptions W) : spread d emptyOptions = d.
Proof. destruct d. reflexivity. Qed.

Lemma spreadField_replacedWholesale {A : Type} (d o : Field A) :
  replacedWholesale d o (spreadField d o).
Proof.
  unfold replacedWholesale. destruct o; simpl; split; congruence.
Qed.

(** C8. The function that [createRetry(defaults)] returns, called without
    overrides (or with [{}]), is [retry] called with [defaults]; called
    with overrides it is [retry] called with the shallow merge of the
    overrides over the defaults: every property of the merge is the whole
    of the override's property where the override has one, and the
    default's otherwise. *)
Theorem createRetry_shallow_merge (defaults overrides : option (RetryOptions W))
  (fuel : nat) (task : Task W T) (s : St W T) :
  createRetry defaults fuel task None s = retry fuel task defaults s
  /\ createRetry defaults fuel task (Some emptyOptions) s
     = retry fuel task defaults s
  /\ createRetry defaults fuel task overrides s
     = retry fuel task (Some (spread (orEmpty defaults) (orEmpty overrides))) s
  /\ let d := orEmpty defaults in
     let o := orEmpty overrides in
     let r := spread d o in
     replacedWholesale (maxAttempts d) (maxAttempts o) (maxAttempts r)
     /\ replacedWholesale (baseMs d) (baseMs o) (baseMs r)
     /\ replacedWholesale (capMs d) (capMs o) (capMs r)
     /\ replacedWholesale (factor d) (factor o) (factor r)
     /\ replacedWholesale (jitter d) (jitter o) (jitter r)
     /\ replacedWholesale (rng d) (rng o) (rng r)
     /\ replacedWholesale (signal d) (signal o) (signal r)
     /\ replacedWholesale (maxElapsedMs d) (maxElapsedMs o) (maxElapsedMs r)
     /\ replacedWholesale (shouldRetry d) (shouldRetry o) (shouldRetry r)
     /\ replacedWholesale (onRetry d) (onRetry o) (onRetry r)
     /\ replacedWholesale (respectRetryAfter d) (respectRetryAfter o)
          (respectRetryAfter r)
     /\ replacedWholesale (retryAfterHeaderName d) (retryAfterHeaderName o)
          (retryAfterHeaderName r)
     /\ replacedWholesale (retryAfterBodyUnit d) (retryAfterBodyUnit o)
          (retryAfterBodyUnit r)
     /\ replacedWholesale (wrapError d) (wrapError o) (wrapError r).
Proof.
  assert (forall o, createRetry defaults fuel task o s
                    = retry fuel task
                        (Some (spread (orEmpty defaults) (orEmpty o))) s)
    as Hc by reflexivity.
  assert (retry fuel task (Some (orEmpty defaults)) s
          = retry fuel task defaults s) as Hd
      by (destruct defaults; reflexivity).
  split; [|split; [|split]].
  - rewrite Hc. cbn [orEmpty]. now rewrite spread_emptyOptions_r.
  - rewrite Hc. cbn [orEmpty]. now rewrite spread_emptyOptions_r.
  - apply Hc.
  - cbv zeta. unfold spread. cbn.
    repeat split; apply spreadField_replacedWholesale.
Qed.

(** *** The default classifier *)

Lemma hasStatus_spec (q : Q) :
  hasStatus (Fin q) = true
  <-> (q == 408 \/ q == 425 \/ q == 429 \/ q == 500 \/ q == 502
       \/ q == 503 \/ q == 504)%Q.
Proof.
  unfold hasStatus, DEFAULT_RETRIABLE_STATUS. cbn [existsb eqb ofZ].
  rewrite !orb_true_iff, !Qeq_bool_iff.
  change (inject_Z 408) with 408%Q. change (inject_Z 425) with 425%Q.
  change (inject_Z 429) with 429%Q. change (inject_Z 500) with 500%Q.
  change (inject_Z 502) with 502%Q. change (inject_Z 503) with 503%Q.
  change (inject_Z 504) with 504%Q.
  intuition discriminate.
Qed.

(** C9. The default classifier, for an error that is not cancellation-like
    and a signal that is not aborted.  The status of an error is the first
    of [response.status], [status] and [statusCode] that is neither [null]
    nor [undefined], read as a number if it is a string, and counts when
    it is finite.  With a status, the error is retried exactly when the
    status is one of 408, 425, 429, 500, 502, 503, 504, whatever its code
    and message; without one it is retried, with a recognised code or
    not. *)
Theorem defaultShouldRetry_spec (err : value) (ctx : RetryContext W) (w : W) :
  signalAborted (ctx_signal ctx) w = false ->
  isAbortLikeError err = false ->
  (forall q,
      getStatus err = Some (Fin q) ->
      (defaultShouldRetry err ctx w = true
       <-> (q == 408 \/ q == 425 \/ q == 429 \/ q == 500 \/ q == 502
            \/ q == 503 \/ q == 504)%Q))
  /\ (getStatus err = None -> defaultShouldRetry err ctx w = true)
  /\ (forall n, getStatus err = Some n -> isFinite n = true)
  /\ (let s := nullish (nullish (optProp (optProp err "response") "status")
                               (optProp err "status"))
                      (optProp err "statusCode") in
      (forall q, s = VNum (Fin q) -> getStatus err = Some (Fin q))
      /\ (forall t q, s = VStr t -> Number t = Fin q ->
                      getStatus err = Some (Fin q))).
Proof.
  intros Hs Ha. unfold defaultShouldRetry. rewrite Hs, Ha.
  split; [|split; [|split]].
  - intros q ->. apply hasStatus_spec.
  - intros ->.
    repeat match goal with
           | |- context [if ?b then _ else _] => destruct b
           end; reflexivity.
  - unfold getStatus. intros n.
    repeat match goal with
           | |- context [match ?x with _ => _ end] => destruct x
           end; intros E; inv E; reflexivity.
  - cbv zeta. unfold getStatus. split.
    + intros q ->. reflexivity.
    + intros t q -> ->. reflexivity.
Qed.

(* ------------------------------------------------------------------ *)
(** *** More on the delays *)

(** X1. [toIntMs] always returns an integer that is at least 0: 0 for [NaN] and
    for both infinities, [max(0, floor(q))] for a finite [q].  It is
    idempotent, and monotone on finite numbers (not beyond: [Infinity]
    goes to 0). *)
Theorem toIntMs_normalises (x : number) :
  0 <= toIntMs x
  /\ (isFinite x = false -> toIntMs x = 0)
  /\ (forall q, x = Fin q -> toIntMs x = Z.max 0 (Qfloor q))
  /\ toIntMs (ofZ (toIntMs x)) = toIntMs x
  /\ (forall p q, x = Fin p -> (p <= q)%Q -> toIntMs x <= toIntMs (Fin q)).
Proof.
  split; [apply toIntMs_nonneg|]. split; [|split; [|split]].
  - destruct x; simpl; congruence.
  - intros q ->. apply toIntMs_Fin.
  - apply toIntMs_idem.
  - intros p q -> H. rewrite !toIntMs_Fin.
    pose proof (Qfloor_resp_le _ _ H). lia.
Qed.

(** X2. Full jitter, whatever the random source returns (a number outside
    [[0, 1)], an infinity, [NaN]): the delay is an integer from 0 up to the
    backoff, and strictly below the backoff when the backoff is not 0.  The
    source is drawn from once. *)
Theorem applyFullJitter_below_backoff (backoffMs : Z)
  (rng_ : W -> number * W) (s : St W T) :
  0 <= backoffMs ->
  exists d,
    applyFullJitter backoffMs rng_ s
    = (Normal d,
       {| world := snd (rng_ (world s));
          log := log s ++ [ObsRng (fst (rng_ (world s)))] |})
    /\ 0 <= d <= backoffMs
    /\ (0 < backoffMs -> d < backoffMs).
Proof.
  intros Hz. exists (jitterOf backoffMs (fst (rng_ (world s)))).
  split; [|now apply jitterOf_bounds].
  unfold applyFullJitter, observe, bind, liftW, emit, ret.
  destruct (rng_ (world s)); reflexivity.
Qed.

Lemma planDelay_reasons (opts : Normalized W) (k : Z) (err : value)
  (s s' : St W T) (reason : Reason) (d : Z) :
  planDelay opts k err s = (Normal (reason, d), s') ->
  match reason with
  | ReasonRetryAfter =>
      exists h, fst (hintDelay opts err s) = Normal (Some h)
                /\ d = toIntMs (ofZ h)
  | ReasonBackoff =>
      fst (hintDelay opts err s) = Normal None
      /\ let backoff :=
           computeBackoffMs k (opts_baseMs opts) (opts_capMs opts)
             (opts_factor opts) in
         match opts_jitter opts with
         | JitterFull => exists r, d = toIntMs (ofZ (jitterOf backoff r))
         | JitterNone => d = toIntMs (ofZ backoff)
         end
  end.
Proof.
  unfold planDelay, applyFullJitter. intros H. run_in H.
  destruct (hintDelay opts err s) as [c0 s0] eqn:Hh.
  apply hintDelay_spec in Hh as [[h ->] Hl]. simp.
  destruct h as [h|]; simp.
  - apply pair_eq_inv in H as [H _]. apply Normal_inj in H.
    apply pair_eq_inv in H as [<- <-]. eauto.
  - destruct (opts_jitter opts); run;
      repeat match goal with
             | H : (_, _) = (_, _) |- _ => apply pair_eq_inv in H as [? ?]; subst
             end; split; eauto.
Qed.

(** X3. A delay planned for the reason ['backoff'] under a valid configuration
    lies between 0 and [capMs], with or without jitter, whatever the
    attempt and the random source; so does the delay of every event with
    that reason that a run delivers. *)
Theorem backoff_within_cap (o : RetryOptions W) (opts : Normalized W) :
  normalizeOptions o = inr opts ->
  exists c,
    opts_capMs opts = Fin c
    /\ (forall k err (s s' : St W T) d,
          planDelay opts k err s = (Normal (ReasonBackoff, d), s') ->
          0 <= d <= Qfloor c)
    /\ (forall fuel task (s : St W T) ev,
          log s = [] ->
          In ev (retryEvents (log (snd (retry fuel task (Some o) s)))) ->
          ev_reason ev = ReasonBackoff ->
          0 <= ev_delayMs ev <= Qfloor c).
Proof.
  intros Hn.
  destruct (normalizeOptions_ranges _ _ Hn) as (_ & Hb & Hc & Hf).
  apply finiteAtLeast0_Fin in Hb as (b & Eb & Hb).
  apply finiteAtLeast0_Fin in Hc as (c & Ec & Hc).
  apply finiteAbove0_Fin in Hf as (f & Ef & Hf).
  exists c. split; [assumption|].
  assert (forall k err (s s' : St W T) d,
             planDelay opts k err s = (Normal (ReasonBackoff, d), s') ->
             0 <= d <= Qfloor c) as Hplan.
  { intros k err s s' d H. apply planDelay_reasons in H as [_ H].
    cbv zeta in H. rewrite Ec in H.
    pose proof (computeBackoffMs_le_cap k (opts_baseMs opts)
                  (opts_factor opts) c) as [Hz Hle].
    pose proof (Qfloor_nonneg c Hc) as Hc0.
    destruct (opts_jitter opts).
    - destruct H as [r ->].
      destruct (jitterOf_bounds _ r Hz) as [[H0 H1] _].
      rewrite toIntMs_ofZ. lia.
    - subst d. rewrite toIntMs_ofZ. lia. }
  split; [exact Hplan|].
  intros fuel task s ev Hs Hin Hr.
  destruct (retry_events fuel task (Some o) opts s Hn Hs ev Hin)
    as [[rngs (s1 & s2 & P & _)] _].
  rewrite Hr in P. eapply Hplan. eassumption.
Qed.

Lemma computeBackoffMs_steps (b c p : Q) (f : number) (k k' : Z) :
  (0 <= b)%Q ->
  pow f (k - 1) = Fin p -> (0 <= p)%Q ->
  (pow f (k' - 1) = PInf
   \/ exists p', pow f (k' - 1) = Fin p' /\ (p <= p')%Q) ->
  computeBackoffMs k (Fin b) (Fin c) f
  <= computeBackoffMs k' (Fin b) (Fin c) f.
Proof.
  intros Hb Ep Hp Hp'.
  pose proof (computeBackoffMs_le_cap k (Fin b) f c) as [_ Hcap].
  unfold computeBackoffMs in *. rewrite Ep in *. cbn [mul] in *.
  assert (0 <= b * p)%Q as H0 by (apply Qmult_le_0_compat; assumption).
  destruct Hp' as [->|(p' & -> & Hle)].
  - cbn [mul]. unfold Qsign.
    destruct (Qcompare_spec b 0) as [C|C|C]; [|exfalso; lra|].
    + assert (b * p == 0)%Q as E by (rewrite C; ring).
      rewrite (round64_Qeq _ 0 E).
      change (round64 0) with (Fin 0). rewrite Math_min_Fin, toIntMs_Fin.
      pose proof (Qfloor_resp_le _ _ (Q.le_min_r c 0)) as Hf.
      change (Qfloor 0) with 0 in Hf.
      pose proof (toIntMs_nonneg (Math_min (Fin c) (inf_of_sign Eq))). lia.
    + change (Math_min (Fin c) (inf_of_sign Gt)) with (Fin c).
      rewrite toIntMs_Fin. exact Hcap.
  - cbn [mul].
    assert (b * p <= b * p')%Q as H1.
    { rewrite !(Qmult_comm b). apply Qmult_le_compat_r; assumption. }
    destruct (round64_mono _ _ H0 H1) as [->|(v & v' & -> & -> & _ & Hv)].
    + change (Math_min (Fin c) PInf) with (Fin c).
      rewrite toIntMs_Fin. exact Hcap.
    + rewrite !Math_min_Fin, !toIntMs_Fin.
      pose proof (Qfloor_resp_le _ _ (Q.min_le_compat_l _ _ c Hv)). lia.
Qed.

(** X4. The backoff does not shrink from one attempt to the next where the
    power of the host does not: if [factor ** (k - 1)] is a finite number
    that is not negative, and [factor ** (k' - 1)] is at least that number
    or is [Infinity], then the backoff of attempt [k'] is at least the
    backoff of attempt [k], the rounding of the products notwithstanding. *)
Theorem computeBackoffMs_monotone (b c p : Q) (f : number) (k k' : Z) :
  (0 <= b)%Q ->
  pow f (k - 1) = Fin p -> (0 <= p)%Q ->
  (pow f (k' - 1) = PInf
   \/ exists p', pow f (k' - 1) = Fin p' /\ (p <= p')%Q) ->
  computeBackoffMs k (Fin b) (Fin c) f
  <= computeBackoffMs k' (Fin b) (Fin c) f.
Proof. apply computeBackoffMs_steps. Qed.

(* ------------------------------------------------------------------ *)
(** *** More on the retry hints *)

(** X5. Unless [respectRetryAfter] is on and the status is 429, no header and
    no body is looked at: the plan is a backoff, and so is every event of a
    run for that error. *)
Theorem hint_needs_429 (opts : Normalized W) (err : value) :
  opts_respectRetryAfter opts && is429 (getStatus err) = false ->
  (forall (s : St W T), hintDelay opts err s = (Normal None, s))
  /\ (forall k (s : St W T),
         exists d s', planDelay opts k err s = (Normal (ReasonBackoff, d), s'))
  /\ (forall fuel task options (s : St W T) ev,
         normalizeOptions (orEmpty options) = inr opts ->
         log s = [] ->
         In ev (retryEvents (log (snd (retry fuel task options s)))) ->
         ev_error ev = err ->
         ev_reason ev = ReasonBackoff).
Proof.
  intros H.
  assert (forall s : St W T, hintDelay opts err s = (Normal None, s)) as Hh
      by (intros s; unfold hintDelay; rewrite H; reflexivity).
  assert (forall k (s s' : St W T) reason d,
             planDelay opts k err s = (Normal (reason, d), s') ->
             reason = ReasonBackoff) as Hb.
  { intros k s s' reason d P. apply planDelay_reasons in P.
    destruct reason; [|reflexivity].
    destruct P as (h & P & _). rewrite Hh in P. discriminate. }
  split; [exact Hh|]. split.
  - intros k s. destruct (planDelay opts k err s) as [c s'] eqn:P.
    destruct (planDelay_spec _ _ _ _ _ _ P) as (reason & d & rngs & -> & _).
    rewrite (Hb _ _ _ _ _ P) in P |- *. eauto.
  - intros fuel task options s ev Hn Hs Hin He.
    destruct (retry_events fuel task options opts s Hn Hs ev Hin)
      as [[rngs (s1 & s2 & P & _)] _].
    rewrite He in P. eapply Hb. eassumption.
Qed.

(** X6. A header that does not read as a finite number but that [Date.parse]
    reads as the time [t]: the clock is read once and the delay is what is
    left until [t], 0 when [t] is past or the clock is not finite; the
    reason is ['retry-after'], the random source is not drawn from. *)
Theorem retry_after_http_date (opts : Normalized W) (k : Z) (err : value)
  (s : St W T) (h : string) (t : Q) (n : number) (w' : W) :
  opts_respectRetryAfter opts = true ->
  is429 (getStatus err) = true ->
  getHeader (optProp (optProp err "response") "headers")
    (opts_retryAfterHeaderName opts) = Some h ->
  isFinite (Number (trim h)) = false ->
  Date_parse (trim h) = Fin t ->
  Date_now (world s) = (n, w') ->
  planDelay opts k err s
  = (Normal (ReasonRetryAfter, toIntMs (sub (Fin t) n)),
     {| world := w'; log := log s |})
  /\ (forall q, n = Fin q ->
                toIntMs (sub (Fin t) n) = Z.max 0 (Qfloor (t - q)))
  /\ (forall q, n = Fin q -> (t <= q)%Q -> toIntMs (sub (Fin t) n) = 0)
  /\ (isFinite n = false -> toIntMs (sub (Fin t) n) = 0).
Proof.
  intros Hr H429 Hh Hn Hd Ht. split; [|split; [|split]].
  - unfold planDelay, hintDelay, parseRetryAfterHeaderMs.
    rewrite Hr, H429, Hh, Hn, Hd. cbn [andb isFinite].
    unfold now, bind, liftW, ret. rewrite Ht.
    destruct (opts_retryAfterBodyUnit opts); cbn [world log];
      now rewrite toIntMs_idem.
  - intros q ->. cbn [sub neg add]. apply toIntMs_Fin.
  - intros q -> Hle. cbn [sub neg add]. rewrite toIntMs_Fin.
    assert (t - q <= 0)%Q as Hneg.
    { apply (Qplus_le_l _ _ q). ring_simplify. exact Hle. }
    apply Qfloor_resp_le in Hneg. change (Qfloor 0) with 0 in Hneg.
    unfold Qminus in Hneg. lia.
  - destruct n; simpl; congruence.
Qed.

(** X7. No header for the hint, on a 429 with [respectRetryAfter] on: with
    [retryAfterBodyUnit] off the plan is a backoff; with a unit, a
    [retry_after] of the body that is a finite number [n], or a string
    that, trimmed, reads as one, gives the reason ['retry-after'] and the
    delay [trunc(n)], at least 0, for milliseconds and [trunc(n * 1000)],
    at least 0, for seconds, the product being that of doubles; anything
    else gives a backoff. *)
Theorem retry_after_body (opts : Normalized W) (k : Z) (err : value)
  (s : St W T) :
  opts_respectRetryAfter opts = true ->
  is429 (getStatus err) = true ->
  getHeader (optProp (optProp err "response") "headers")
    (opts_retryAfterHeaderName opts) = None ->
  hintDelay opts err s
  = (Normal match opts_retryAfterBodyUnit opts with
            | UnitFalse => None
            | unit => parseRetryAfterBodyMs (readRetryAfterBody err) unit
            end, s)
  /\ (forall n,
         readRetryAfterBody err = VNum (Fin n)
         \/ (exists t, readRetryAfterBody err = VStr t
                       /\ Number (trim t) = Fin n) ->
         opts_retryAfterBodyUnit opts <> UnitFalse ->
         planDelay opts k err s
         = (Normal (ReasonRetryAfter,
                    toIntMs match opts_retryAfterBodyUnit opts with
                            | UnitSeconds => mul (Fin n) (ofZ 1000)
                            | _ => Fin n
                            end), s))
  /\ (forall n, toIntMs (Fin n) = Z.max 0 (Qfloor n))
  /\ (forall n,
         exactly (mul (Fin n) (ofZ 1000)) (n * 1000) ->
         toIntMs (mul (Fin n) (ofZ 1000)) = Z.max 0 (Qfloor (n * 1000)))
  /\ (forall unit,
         match readRetryAfterBody err with
         | VNum x => isFinite x = false
         | VStr t => isFinite (Number (trim t)) = false
         | _ => True
         end ->
         parseRetryAfterBodyMs (readRetryAfterBody err) unit = None).
Proof.
  intros Hr H429 Hh.
  assert (hintDelay opts err s
          = (Normal match opts_retryAfterBodyUnit opts with
                    | UnitFalse => None
                    | unit => parseRetryAfterBodyMs (readRetryAfterBody err) unit
                    end, s)) as Hhint.
  { unfold hintDelay, bind, ret. rewrite Hr, H429, Hh. cbn [andb].
    destruct (opts_retryAfterBodyUnit opts); reflexivity. }
  split; [exact Hhint|]. split; [|split; [|split]].
  - intros n Hbody Hu. unfold planDelay, bind. rewrite Hhint.
    assert (parseRetryAfterBodyMs (readRetryAfterBody err)
              (opts_retryAfterBodyUnit opts)
            = Some (toIntMs match opts_retryAfterBodyUnit opts with
                            | UnitSeconds => mul (Fin n) (ofZ 1000)
                            | _ => Fin n
                            end)) as Hp.
    { unfold parseRetryAfterBodyMs.
      destruct Hbody as [->|(t & -> & Ht)]; [|rewrite Ht]; cbn [isFinite negb];
        destruct (opts_retryAfterBodyUnit opts); reflexivity. }
    destruct (opts_retryAfterBodyUnit opts); try congruence;
      rewrite Hp; unfold ret; rewrite toIntMs_idem; reflexivity.
  - apply toIntMs_Fin.
  - intros n. apply exactly_toIntMs.
  - intros unit Hv. unfold parseRetryAfterBodyMs.
    destruct (readRetryAfterBody err); try reflexivity;
      rewrite Hv; reflexivity.
Qed.

(* ------------------------------------------------------------------ *)
(** *** More on reading errors *)

Lemma lowerChar_idem (c : ascii) : lowerChar (lowerChar c) = lowerChar c.
Proof. destruct c as [[] [] [] [] [] [] [] []]; reflexivity. Qed.

Lemma toLowerCase_idem (s : string) :
  toLowerCase (toLowerCase s) = toLowerCase s.
Proof.
  induction s as [|c s IH]; simpl; [reflexivity|].
  now rewrite lowerChar_idem, IH.
Qed.

Lemma findHeader_find (target : string) (es : list (string * value)) :
  toLowerCase target = target ->
  findHeader target es
  = match find (matchesHeader target) es with
    | Some kx => usableHeader (snd kx)
    | None => None
    end.
Proof.
  intros Ht. induction es as [|[k x] es IH]; [reflexivity|].
  cbn [findHeader find]. unfold matchesHeader at 1. cbn [fst snd].
  rewrite Ht. destruct (toLowerCase k =? target)%string; cbn [negb andb].
  - destruct x as [| | | | |[|[] ?]| |]; cbn [usableHeader]; auto.
  - exact IH.
Qed.

Lemma find_agree {A} (f g : A -> bool) (l : list A) :
  (forall a, f a = g a) -> find f l = find g l.
Proof.
  intros E. induction l as [|a l IH]; simpl; [reflexivity|].
  now rewrite E, IH.
Qed.

Lemma matchesHeader_lower (name : string) (kx : string * value) :
  matchesHeader (toLowerCase name) kx = matchesHeader name kx.
Proof. unfold matchesHeader. now rewrite toLowerCase_idem. Qed.

(** X8. [getHeader] on a plain object without a callable [get]: the result is
    the usable value (a string, or the string that heads an array) of the
    first entry whose key is the name up to case and whose value is usable;
    entries of that name with other values are passed over.  Hence the
    case of the name asked for does not matter. *)
Theorem getHeader_plain_object (p : Proto) (props : list (string * value))
  (name : string) :
  hasGetAccessor props = false ->
  getHeader (VObj p props) name
  = match find (matchesHeader name) props with
    | Some kx => usableHeader (snd kx)
    | None => None
    end
  /\ (forall name',
         toLowerCase name' = toLowerCase name ->
         getHeader (VObj p props) name' = getHeader (VObj p props) name).
Proof.
  intros Hg.
  assert (forall nm,
             getHeader (VObj p props) nm
             = match find (matchesHeader nm) props with
               | Some kx => usableHeader (snd kx)
               | None => None
               end) as H.
  { intros nm. unfold getHeader, hasGetAccessor in *.
    cbn [falsy getProp entries].
    destruct (lookup "get" props); try discriminate;
      rewrite findHeader_find by apply toLowerCase_idem;
      now rewrite (find_agree _ _ _ (matchesHeader_lower nm)). }
  split; [apply H|].
  intros name' E. rewrite !H.
  assert (forall kx, matchesHeader name' kx = matchesHeader name kx) as Hm
      by (intros kx; unfold matchesHeader; now rewrite E).
  now rewrite (find_agree _ _ _ Hm).
Qed.

(** X9. What is not an object with headers gives nothing: [undefined], [null],
    [false], 0, [NaN], the empty string, and every other primitive and
    function.  An object with a callable [get] is asked through it alone,
    with the name as configured, and its answer counts only if it is a
    string. *)
Theorem getHeader_other_values (headers : value) (name : string) :
  (match headers with
   | VObj _ _ | VArr _ => False
   | _ => True
   end -> getHeader headers name = None)
  /\ (forall p props n get,
         headers = VObj p props ->
         lookup "get" props = VFun n get ->
         getHeader headers name
         = match get name with VStr v => Some v | _ => None end).
Proof.
  split.
  - destruct headers as [| |b|n|s| | |]; intros H; try contradiction;
      try reflexivity.
    + destruct b; reflexivity.
    + unfold getHeader. destruct (falsy (VNum n)); reflexivity.
    + destruct s; reflexivity.
  - intros p props n get -> Hl. unfold getHeader. cbn [falsy getProp].
    now rewrite Hl.
Qed.

(** X10. The status of an error is decided by the first of [response.status],
    [status] and [statusCode] that is neither [null] nor [undefined], even
    when that one is no usable number: two errors that agree on it have
    the same status, whatever else they carry. *)
Theorem getStatus_precedence (err err' : value) :
  let nested e := optProp (optProp e "response") "status" in
  let isNullish v := match v with VUndefined | VNull => True | _ => False end in
  (nested err = nested err' -> ~ isNullish (nested err) ->
   getStatus err = getStatus err')
  /\ (isNullish (nested err) -> isNullish (nested err') ->
      optProp err "status" = optProp err' "status" ->
      ~ isNullish (optProp err "status") ->
      getStatus err = getStatus err')
  /\ (~ isNullish (nested err) ->
      match nested err with
      | VNum (Fin _) => False
      | VStr t => isFinite (Number t) = false
      | _ => True
      end ->
      getStatus err = None).
Proof.
  cbv zeta. unfold getStatus. split; [|split].
  - intros E Hn. rewrite <- E.
    destruct (optProp (optProp err "response") "status"); simpl in *;
      try reflexivity; exfalso; apply Hn; exact I.
  - intros H1 H2 E Hn. rewrite <- E.
    destruct (optProp (optProp err "response") "status");
      destruct (optProp (optProp err' "response") "status");
      simpl in H1, H2; try contradiction; cbn [nullish];
      destruct (optProp err "status"); simpl in *;
      try reflexivity; exfalso; apply Hn; exact I.
  - intros Hn Hv.
    destruct (optProp (optProp err "response") "status") as [| |b|n|t| | |];
      simpl in *; try reflexivity; try (exfalso; apply Hn; exact I).
    + destruct n; try reflexivity; contradiction.
    + destruct (Number t); try reflexivity; discriminate Hv.
Qed.

(** X11. The default classifier in closed form: the error is retried unless the
    signal is aborted, the error is cancellation-like, or it carries a
    status outside the retriable set.  Its code, its message and its class
    never change the decision. *)
Theorem defaultShouldRetry_closed_form (err : value) (ctx : RetryContext W)
  (w : W) :
  defaultShouldRetry err ctx w
  = negb (signalAborted (ctx_signal ctx) w)
    && negb (isAbortLikeError err)
    && match getStatus err with
       | Some status => hasStatus status
       | None => true
       end.
Proof.
  unfold defaultShouldRetry.
  destruct (signalAborted (ctx_signal ctx) w); [reflexivity|].
  destruct (isAbortLikeError err); [reflexivity|].
  destruct (getStatus err); [reflexivity|]. cbn [negb andb].
  repeat match goal with
         | |- context [if ?b then _ else _] => destruct b
         end; reflexivity.
Qed.

(* ------------------------------------------------------------------ *)
(** *** More on the options *)

Lemma assertValidMaxAttempts_bad (v : number) :
  integerAtLeast1 v = false ->
  assertValidMaxAttempts v = Some (RangeError "maxAttempts" v).
Proof.
  intros H. destruct (assertValidMaxAttempts v) eqn:E.
  - unfold assertValidMaxAttempts in E.
    destruct (_ || _) in E; congruence.
  - apply assertValidMaxAttempts_spec in E. congruence.
Qed.

Lemma assertFiniteNonNegative_bad (name : string) (v : number) :
  finiteAtLeast0 v = false ->
  assertFiniteNonNegative name (Some v) = Some (RangeError name v).
Proof.
  intros H. destruct (assertFiniteNonNegative name (Some v)) eqn:E.
  - unfold assertFiniteNonNegative in E.
    destruct (_ || _) in E; congruence.
  - apply assertFiniteNonNegative_spec in E. congruence.
Qed.

Lemma assertFinitePositive_bad (name : string) (v : number) :
  finiteAbove0 v = false ->
  assertFinitePositive name (Some v) = Some (RangeError name v).
Proof.
  intros H. destruct (assertFinitePositive name (Some v)) eqn:E.
  - unfold assertFinitePositive in E.
    destruct (_ || _) in E; congruence.
  - apply assertFinitePositive_spec in E. congruence.
Qed.

Lemma orDefault_ok {A} (ok : A -> bool) (f : Field A) (d : A) :
  ok d = true -> presentButNot ok f = false -> ok (orDefault f d) = true.
Proof.
  intros Hd H. destruct f; simpl in *; auto.
  now apply negb_false_iff.
Qed.

(** X12. The checks of [normalizeOptions] run in the order [maxAttempts],
    [baseMs], [capMs], [factor], [maxElapsedMs], and the [RangeError]
    names the first option that fails its check, with the value
    received. *)
Theorem normalizeOptions_first_invalid (o : RetryOptions W) (v : number) :
  (maxAttempts o = Value v -> integerAtLeast1 v = false ->
   normalizeOptions o = inl (RangeError "maxAttempts" v))
  /\ (presentButNot integerAtLeast1 (maxAttempts o) = false ->
      baseMs o = Value v -> finiteAtLeast0 v = false ->
      normalizeOptions o = inl (RangeError "baseMs" v))
  /\ (presentButNot integerAtLeast1 (maxAttempts o) = false ->
      presentButNot finiteAtLeast0 (baseMs o) = false ->
      capMs o = Value v -> finiteAtLeast0 v = false ->
      normalizeOptions o = inl (RangeError "capMs" v))
  /\ (presentButNot integerAtLeast1 (maxAttempts o) = false ->
      presentButNot finiteAtLeast0 (baseMs o) = false ->
      presentButNot finiteAtLeast0 (capMs o) = false ->
      factor o = Value v -> finiteAbove0 v = false ->
      normalizeOptions o = inl (RangeError "factor" v))
  /\ (presentButNot integerAtLeast1 (maxAttempts o) = false ->
      presentButNot finiteAtLeast0 (baseMs o) = false ->
      presentButNot finiteAtLeast0 (capMs o) = false ->
      presentButNot finiteAbove0 (factor o) = false ->
      maxElapsedMs o = Value v -> finiteAtLeast0 v = false ->
      normalizeOptions o = inl (RangeError "maxElapsedMs" v)).
Proof.
  assert (forall f, presentButNot integerAtLeast1 f = false ->
                    assertValidMaxAttempts (orDefault f (ofZ 3)) = None) as A1.
  { intros f H. apply assertValidMaxAttempts_spec.
    now apply orDefault_ok. }
  assert (forall name f d, finiteAtLeast0 d = true ->
                           presentButNot finiteAtLeast0 f = false ->
                           assertFiniteNonNegative name (Some (orDefault f d))
                           = None) as A2.
  { intros name f d Hd H. apply assertFiniteNonNegative_spec.
    now apply orDefault_ok. }
  assert (forall name f d, finiteAbove0 d = true ->
                           presentButNot finiteAbove0 f = false ->
                           assertFinitePositive name (Some (orDefault f d))
                           = None) as A3.
  { intros name f d Hd H. apply assertFinitePositive_spec.
    now apply orDefault_ok. }
  unfold normalizeOptions. cbv zeta. cbn [firstThrown].
  split; [|split; [|split; [|split]]].
  - intros -> H. cbn [orDefault].
    now rewrite (assertValidMaxAttempts_bad _ H).
  - intros H1 -> H. cbn [orDefault].
    now rewrite (A1 _ H1), (assertFiniteNonNegative_bad _ _ H).
  - intros H1 H2 -> H. cbn [orDefault].
    now rewrite (A1 _ H1), (A2 "baseMs"%string _ (ofZ 200) eq_refl H2),
      (assertFiniteNonNegative_bad _ _ H).
  - intros H1 H2 H3 -> H. cbn [orDefault].
    now rewrite (A1 _ H1), (A2 "baseMs"%string _ (ofZ 200) eq_refl H2),
      (A2 "capMs"%string _ (ofZ 2000) eq_refl H3),
      (assertFinitePositive_bad _ _ H).
  - intros H1 H2 H3 H4 -> H. cbn [present].
    now rewrite (A1 _ H1), (A2 "baseMs"%string _ (ofZ 200) eq_refl H2),
      (A2 "capMs"%string _ (ofZ 2000) eq_refl H3),
      (A3 "factor"%string _ (ofZ 2) eq_refl H4),
      (assertFiniteNonNegative_bad _ _ H).
Qed.

Lemma trimEnd_idem (s : string) : trimEnd (trimEnd s) = trimEnd s.
Proof.
  induction s as [|c r IH]; [reflexivity|].
  cbn [trimEnd]. destruct (trimEnd r) as [|c' r'] eqn:E.
  - destruct (isWhiteSpace c) eqn:Hc; [reflexivity|].
    cbn [trimEnd]. now rewrite Hc.
  - cbn [trimEnd] in IH |- *.
    change (match (match trimEnd r' with
                    | EmptyString =>
                        if isWhiteSpace c' then EmptyString
                        else String c' EmptyString
                    | String a r0 => String c' (String a r0)
                    end) with
            | EmptyString =>
                if isWhiteSpace c then EmptyString else String c EmptyString
            | String a r0 => String c (String a r0)
            end = String c (String c' r')).
    now rewrite IH.
Qed.

Lemma trimStart_head (s : string) :
  match trimStart s with
  | EmptyString => True
  | String c _ => isWhiteSpace c = false
  end.
Proof.
  induction s as [|c r IH]; [exact I|].
  cbn [trimStart]. destruct (isWhiteSpace c) eqn:Hc; [exact IH | exact Hc].
Qed.

Lemma trim_head (s : string) :
  match trim s with
  | EmptyString => True
  | String c _ => isWhiteSpace c = false
  end.
Proof.
  unfold trim. pose proof (trimStart_head s) as H.
  destruct (trimStart s) as [|c r]; [exact I|].
  cbn [trimEnd]. destruct (trimEnd r); [now rewrite H | exact H].
Qed.

Lemma trim_idem (s : string) : trim (trim s) = trim s.
Proof.
  pose proof (trim_head s) as H. unfold trim at 1.
  destruct (trim s) as [|c r] eqn:E; [reflexivity|].
  cbn [trimStart]. rewrite H. rewrite <- E. unfold trim.
  apply trimEnd_idem.
Qed.

Lemma trimStart_blank (s : string) :
  (forall c, In c (list_ascii_of_string s) -> isWhiteSpace c = true) ->
  trimStart s = EmptyString.
Proof.
  induction s as [|c r IH]; [reflexivity|]. intros H.
  cbn [trimStart]. rewrite (H c (or_introl eq_refl)).
  apply IH. intros c' Hc'. apply H. now right.
Qed.

(** X13. The header name that [normalizeOptions] settles on is never empty and
    carries no white space around it; a configured name that is empty or
    all white space, like an omitted or [undefined] one, gives
    ['retry-after'].  Its case is kept as configured. *)
Theorem normalizeOptions_header_name (o : RetryOptions W)
  (opts : Normalized W) :
  normalizeOptions o = inr opts ->
  opts_retryAfterHeaderName opts <> EmptyString
  /\ trim (opts_retryAfterHeaderName opts) = opts_retryAfterHeaderName opts
  /\ (present (retryAfterHeaderName o) = None ->
      opts_retryAfterHeaderName opts = "retry-after"%string)
  /\ (forall given,
         retryAfterHeaderName o = Value given ->
         (forall c, In c (list_ascii_of_string given) ->
                    isWhiteSpace c = true) ->
         opts_retryAfterHeaderName opts = "retry-after"%string)
  /\ (forall given,
         retryAfterHeaderName o = Value given ->
         trim given <> EmptyString ->
         opts_retryAfterHeaderName opts = trim given).
Proof.
  unfold normalizeOptions. cbv zeta. destruct (firstThrown _); [discriminate|].
  intros H. injection H as <-. cbn [opts_retryAfterHeaderName].
  split; [|split; [|split; [|split]]].
  - destruct (trim _); discriminate.
  - destruct (trim (orDefault (retryAfterHeaderName o) "retry-after"%string))
      eqn:E; [reflexivity|]. rewrite <- E. apply trim_idem.
  - destruct (retryAfterHeaderName o); try discriminate; reflexivity.
  - intros given -> Hw. cbn [orDefault]. unfold trim.
    now rewrite (trimStart_blank _ Hw).
  - intros given -> Hn. cbn [orDefault].
    destruct (trim given); [congruence | reflexivity].
Qed.

(** X14. An override that is present but [undefined] hides the default of the
    factory, and [normalizeOptions] then falls back to the built-in
    default; an override that is absent leaves the factory's default in
    place. *)
Theorem undefined_override_restores_builtin (d o : RetryOptions W)
  (opts : Normalized W) :
  normalizeOptions (spread d o) = inr opts ->
  (maxAttempts o = Undefined -> opts_maxAttempts opts = ofZ 3)
  /\ (baseMs o = Undefined -> opts_baseMs opts = ofZ 200)
  /\ (capMs o = Undefined -> opts_capMs opts = ofZ 2000)
  /\ (factor o = Undefined -> opts_factor opts = ofZ 2)
  /\ (jitter o = Undefined -> opts_jitter opts = JitterFull)
  /\ (rng o = Undefined -> opts_rng opts = Math_random)
  /\ (respectRetryAfter o = Undefined -> opts_respectRetryAfter opts = true)
  /\ (retryAfterHeaderName o = Undefined ->
      opts_retryAfterHeaderName opts = "retry-after"%string)
  /\ (retryAfterBodyUnit o = Undefined ->
      opts_retryAfterBodyUnit opts = UnitFalse)
  /\ (signal o = Undefined -> opts_signal opts = None)
  /\ (maxElapsedMs o = Undefined -> opts_maxElapsedMs opts = None)
  /\ (onRetry o = Undefined -> opts_onRetry opts = None)
  /\ (wrapError o = Undefined -> opts_wrapError opts = false)
  /\ (maxAttempts o = Absent ->
      opts_maxAttempts opts = orDefault (maxAttempts d) (ofZ 3))
  /\ (signal o = Absent -> opts_signal opts = present (signal d))
  /\ (maxElapsedMs o = Absent ->
      opts_maxElapsedMs opts = present (maxElapsedMs d))
  /\ (wrapError o = Absent ->
      opts_wrapError opts = orDefault (wrapError d) false).
Proof.
  unfold normalizeOptions. cbv zeta. destruct (firstThrown _); [discriminate|].
  intros H. injection H as <-. unfold spread.
  cbn [opts_maxAttempts opts_baseMs opts_capMs opts_factor opts_jitter
       opts_rng opts_respectRetryAfter opts_retryAfterHeaderName
       opts_retryAfterBodyUnit opts_signal opts_maxElapsedMs opts_onRetry
       opts_wrapError maxAttempts baseMs capMs factor jitter rng signal
       maxElapsedMs shouldRetry onRetry respectRetryAfter
       retryAfterHeaderName retryAfterBodyUnit wrapError].
  repeat split; intros ->; reflexivity.
Qed.

Lemma spreadField_assoc {A} (a b c : Field A) :
  spreadField (spreadField a b) c = spreadField a (spreadField b c).
Proof. destruct c; reflexivity. Qed.

Lemma spreadField_idem {A} (a : Field A) : spreadField a a = a.
Proof. destruct a; reflexivity. Qed.

(** X15. Spreading is associative, [{}] is neutral on both sides, and
    spreading an object over itself changes nothing.  Hence a factory
    made from layered defaults is the factory of the first layer called
    with the later layers spread under the overrides. *)
Theorem spread_layers (a b c : RetryOptions W) :
  spread (spread a b) c = spread a (spread b c)
  /\ spread emptyOptions a = a
  /\ spread a emptyOptions = a
  /\ spread a a = a
  /\ (forall fuel (task : Task W T) overrides (s : St W T),
         createRetry (Some (spread a b)) fuel task overrides s
         = createRetry (Some a) fuel task
             (Some (spread b (orEmpty overrides))) s).
Proof.
  split; [|split; [|split; [|split]]].
  - unfold spread; cbn. now rewrite !spreadField_assoc.
  - destruct a as [? ? ? ? ? ? ? ? ? ? ? ? ? ?]. unfold spread; cbn.
    repeat match goal with
           | |- context [spreadField Absent ?f] =>
               replace (spreadField Absent f) with f by (destruct f; reflexivity)
           end.
    reflexivity.
  - apply spread_emptyOptions_r.
  - destruct a. unfold spread; cbn. now rewrite !spreadField_idem.
  - intros fuel task overrides s. unfold createRetry. cbn [orEmpty].
    unfold spread; cbn. now rewrite !spreadField_assoc.
Qed.

(* ------------------------------------------------------------------ *)
(** *** Counting what a run does *)

Lemma draws_app (l1 l2 : list (Obs W T)) :
  draws (l1 ++ l2) = draws l1 ++ draws l2.
Proof.
  induction l1 as [|[] l1 IH]; simpl; auto. now rewrite IH.
Qed.

(** One pass through the [catch] block: no call of the task; at most one
    consultation of the classifier, and none at the ceiling; the hook, the
    random source and [sleep] only after a consultation; and a pass that
    lets the loop go round has consulted and slept once. *)
Lemma Failure_counts (opts : Normalized W) (startedAt : number) (k : Z)
  (ctx : RetryContext W) (err : value) (obs : list (Obs W T))
  (r : Completion unit) :
  Failure opts startedAt k ctx err obs r ->
  (length (classified obs) <= 1)%nat
  /\ (length (sleeps obs) <= length (classified obs))%nat
  /\ (length (retryEvents obs) <= length (classified obs))%nat
  /\ (length (draws obs) <= length (classified obs))%nat
  /\ (length (classified obs) = 1%nat ->
      geb (ofZ k) (opts_maxAttempts opts) = false)
  /\ (forall u, r = Normal u ->
                length (sleeps obs) = 1%nat
                /\ length (classified obs) = 1%nat).
Proof.
  intros F. inv F; planned; unfold hookObs;
    try destruct (opts_onRetry opts); simpl;
    repeat split; try lia; try assumption; try congruence;
    intros; try lia; try assumption; try congruence.
Qed.

Lemma Turn_counts (opts : Normalized W) (startedAt : number) (a : Z)
  (obs : list (Obs W T)) (r : Completion (option T)) :
  Turn opts startedAt a obs r ->
  (length (taskCalls obs) <= 1)%nat
  /\ (length (classified obs) <= length (taskCalls obs))%nat
  /\ (length (sleeps obs) <= length (classified obs))%nat
  /\ (length (retryEvents obs) <= length (classified obs))%nat
  /\ (length (draws obs) <= length (classified obs))%nat
  /\ (length (classified obs) = 1%nat ->
      geb (ofZ (a + 1)) (opts_maxAttempts opts) = false)
  /\ (r = Normal None ->
      length (taskCalls obs) = 1%nat
      /\ length (sleeps obs) = 1%nat
      /\ length (classified obs) = 1%nat)
  /\ (forall v, r = Normal (Some v) ->
                length (taskCalls obs) = 1%nat
                /\ length (classified obs) = 0%nat).
Proof.
  intros H. inv H; simpl.
  1-3: repeat split; try lia; try discriminate; intros; lia.
  pose proof (Failure_taskCalls _ _ _ _ _ _ _ H0) as Ht.
  apply Failure_counts in H0 as (K1 & K2 & K3 & K4 & K5 & K6).
  rewrite Ht. simpl.
  repeat split; try lia; try (now auto); intros;
    destruct r0 as [u| |]; try congruence;
    destruct (K6 u eq_refl); lia.
Qed.

Lemma Run_counts (opts : Normalized W) (startedAt : number) (N : Z) :
  eqb (opts_maxAttempts opts) (ofZ N) = true ->
  forall (a : Z) (obs : list (Obs W T)) (r : Completion T),
    Run opts startedAt a obs r ->
    a < N ->
    (length (sleeps obs) <= length (classified obs))%nat
    /\ (length (retryEvents obs) <= length (classified obs))%nat
    /\ (length (draws obs) <= length (classified obs))%nat
    /\ (length (classified obs) <= length (taskCalls obs))%nat
    /\ (length (taskCalls obs) <= length (sleeps obs) + 1)%nat
    /\ Z.of_nat (length (classified obs)) <= N - a - 1
    /\ (forall v, r = Normal v ->
                  length (taskCalls obs) = (length (sleeps obs) + 1)%nat
                  /\ length (classified obs) = length (sleeps obs)).
Proof.
  intros HN a obs r R.
  induction R as [a|a obs v Ht|a obs x Ht|a obs obs' r Ht R IH]; intros Ha.
  - simpl. repeat split; try lia; discriminate.
  - apply Turn_counts in Ht as (K1 & K2 & K3 & K4 & K5 & K6 & K7 & K8).
    destruct (K8 v eq_refl) as [E1 E2].
    repeat split; try lia.
  - apply Turn_counts in Ht as (K1 & K2 & K3 & K4 & K5 & K6 & K7 & K8).
    repeat split; try lia; try discriminate.
    destruct (length (classified obs)) as [|[|n]] eqn:E; try lia.
    specialize (K6 eq_refl).
    rewrite (geb_integral _ N) in K6 by assumption.
    apply Z.leb_gt in K6. lia.
  - pose proof (Turn_continues _ _ _ _ Ht) as Hc.
    rewrite (geb_integral _ N) in Hc by assumption.
    apply Z.leb_gt in Hc.
    apply Turn_counts in Ht as (K1 & K2 & K3 & K4 & K5 & K6 & K7 & K8).
    destruct (K7 eq_refl) as (E1 & E2 & E3).
    destruct (IH ltac:(lia)) as (I1 & I2 & I3 & I4 & I5 & I6 & I7).
    rewrite sleeps_app, retryEvents_app, draws_app, classified_app,
      taskCalls_app, !length_app.
    repeat split; try lia;
      match goal with
      | H : _ = Normal _ |- _ => destruct (I7 _ H)
      end; lia.
Qed.

(** X16. In every run of [retry]: the classifier is consulted at most once per
    call of the task; the hook, the random source and [sleep] are used at
    most once per consultation; between two calls of the task there is
    exactly one sleep, so the calls are at most one more than the sleeps;
    and a run that resolves has slept after every failure. *)
Theorem retry_trace_counts (fuel : nat) (task : Task W T)
  (options : option (RetryOptions W)) (opts : Normalized W) (s : St W T) :
  normalizeOptions (orEmpty options) = inr opts ->
  log s = [] ->
  let l := log (snd (retry fuel task options s)) in
  (length (sleeps l) <= length (classified l))%nat
  /\ (length (retryEvents l) <= length (classified l))%nat
  /\ (length (draws l) <= length (classified l))%nat
  /\ (length (classified l) <= length (taskCalls l))%nat
  /\ (length (taskCalls l) <= length (sleeps l) + 1)%nat
  /\ (forall v, fst (retry fuel task options s) = Normal v ->
                length (taskCalls l) = (length (sleeps l) + 1)%nat
                /\ length (classified l) = length (sleeps l)).
Proof.
  intros Hn Hs l.
  destruct (normalizeOptions_maxAttempts _ _ Hn) as (N & HN1 & HN).
  destruct (retry_Run fuel task options opts s Hn) as (st & obs & Hl & R).
  rewrite Hs in Hl. simpl in Hl. subst l. rewrite Hl.
  destruct (Run_counts _ _ _ HN _ _ _ R ltac:(lia))
    as (I1 & I2 & I3 & I4 & I5 & I6 & I7).
  repeat split; try lia;
    match goal with
    | H : _ = Normal _ |- _ => destruct (I7 _ H)
    end; lia.
Qed.

(** X17. With [maxAttempts = N] there are at most [N - 1] retries: the
    classifier is consulted, the hook called, the random source drawn
    from and [sleep] entered at most [N - 1] times each.  With
    [maxAttempts = 1] none of them is ever used. *)
Theorem retries_bounded (fuel : nat) (task : Task W T)
  (options : option (RetryOptions W)) (opts : Normalized W) (s : St W T)
  (N : Z) :
  normalizeOptions (orEmpty options) = inr opts ->
  eqb (opts_maxAttempts opts) (ofZ N) = true ->
  log s = [] ->
  let l := log (snd (retry fuel task options s)) in
  Z.of_nat (length (classified l)) <= N - 1
  /\ Z.of_nat (length (retryEvents l)) <= N - 1
  /\ Z.of_nat (length (draws l)) <= N - 1
  /\ Z.of_nat (length (sleeps l)) <= N - 1
  /\ (N = 1 ->
      classified l = [] /\ retryEvents l = [] /\ draws l = []
      /\ sleeps l = []).
Proof.
  intros Hn HN Hs l.
  destruct (normalizeOptions_maxAttempts _ _ Hn) as (N' & HN1 & HN').
  assert (N' = N) as ->.
  { destruct (opts_maxAttempts opts) as [q| | |]; simpl in HN, HN';
      try discriminate.
    apply Qeq_bool_iff in HN, HN'. rewrite HN in HN'.
    symmetry. now apply (proj1 (inject_Z_injective N N')). }
  destruct (retry_Run fuel task options opts s Hn) as (st & obs & Hl & R).
  rewrite Hs in Hl. simpl in Hl. subst l. rewrite Hl.
  destruct (Run_counts _ _ _ HN _ _ _ R ltac:(lia))
    as (I1 & I2 & I3 & I4 & I5 & I6 & I7).
  repeat split; try lia; subst N;
    match goal with
    | |- ?f obs = [] => destruct (f obs); [reflexivity | simpl in *; lia]
    end.
Qed.

(* ------------------------------------------------------------------ *)
(** *** The events in order *)

Lemma Failure_events_attempt (opts : Normalized W) (startedAt : number)
  (k : Z) (ctx : RetryContext W) (err : value) (obs : list (Obs W T))
  (r : Completion unit) :
  Failure opts startedAt k ctx err obs r ->
  (forall u, r = Normal u -> opts_onRetry opts <> None ->
             length (retryEvents obs) = 1%nat)
  /\ (forall ev, In ev (retryEvents obs) ->
                 ev_error ev = err
                 /\ ev_nextAttempt ev = k + 1
                 /\ 0 <= ev_delayMs ev).
Proof.
  intros F. split.
  - intros u -> Hh. inv F. planned; unfold hookObs;
      destruct (opts_onRetry opts); try congruence; reflexivity.
  - intros ev Hin.
    inv F; planned; unfold hookObs in Hin;
      try destruct (opts_onRetry opts); simpl in Hin; try contradiction;
      destruct Hin as [<-|[]]; simpl; repeat split; eauto.
Qed.

Lemma Turn_events_attempt (opts : Normalized W) (startedAt : number) (a : Z)
  (obs : list (Obs W T)) (r : Completion (option T)) :
  Turn opts startedAt a obs r ->
  (r = Normal None -> opts_onRetry opts <> None ->
   length (retryEvents obs) = 1%nat)
  /\ (length (retryEvents obs) <= 1)%nat
  /\ (forall ev, In ev (retryEvents obs) ->
                 ev_nextAttempt ev = a + 2
                 /\ 0 <= ev_delayMs ev
                 /\ exists c,
                      In (ObsTask c (Rejected (ev_error ev))) obs
                      /\ ctx_attempt c = a + 1).
Proof.
  intros H. inv H; simpl.
  1-3: repeat split; try discriminate; try lia; contradiction.
  pose proof (Failure_counts _ _ _ _ _ _ _ H0) as (K1 & _ & K3 & _).
  apply Failure_events_attempt in H0 as (F2 & F3).
  split; [|split; [lia|]].
  - destruct r0 as [u| |]; try discriminate. intros _. apply (F2 u eq_refl).
  - intros ev Hin. destruct (F3 ev Hin) as (E1 & E2 & E3).
    rewrite E1. repeat split; try lia.
    eexists. split; [left; reflexivity | reflexivity].
Qed.

Lemma Run_events_order (opts : Normalized W) (startedAt : number) (a : Z)
  (obs : list (Obs W T)) (r : Completion T) :
  opts_onRetry opts <> None ->
  Run opts startedAt a obs r ->
  forall i ev,
    nth_error (retryEvents obs) i = Some ev ->
    ev_nextAttempt ev = a + 2 + Z.of_nat i
    /\ 0 <= ev_delayMs ev
    /\ exists c,
         In (ObsTask c (Rejected (ev_error ev))) obs
         /\ ctx_attempt c = a + 1 + Z.of_nat i.
Proof.
  intros Hh.
  assert (forall a obs (r : Completion (option T)),
             Turn opts startedAt a obs r ->
             forall i ev,
               nth_error (retryEvents obs) i = Some ev ->
               ev_nextAttempt ev = a + 2 + Z.of_nat i
               /\ 0 <= ev_delayMs ev
               /\ exists c,
                    In (ObsTask c (Rejected (ev_error ev))) obs
                    /\ ctx_attempt c = a + 1 + Z.of_nat i) as Hturn.
  { intros a0 obs0 r0 Ht i ev E.
    apply Turn_events_attempt in Ht as (_ & L & F).
    destruct (retryEvents obs0) as [|ev0 [|? ?]] eqn:Er; simpl in L;
      try lia; destruct i as [|[|i]]; try discriminate.
    inv E. destruct (F ev (or_introl eq_refl)) as (? & ? & c & ? & ?).
    simpl. repeat split; try lia. exists c. split; [assumption | lia]. }
  intros R.
  induction R as [a|a obs v Ht|a obs x Ht|a obs obs' r Ht R IH].
  - intros [|i] ev; discriminate.
  - eapply Hturn; eauto.
  - eapply Hturn; eauto.
  - pose proof (Turn_events_attempt _ _ _ _ _ Ht) as (F2 & L & F).
    rewrite retryEvents_app. intros i ev E.
    specialize (F2 eq_refl Hh).
    destruct (retryEvents obs) as [|ev0 [|? ?]] eqn:Er; try discriminate.
    destruct i as [|i]; simpl in E.
    + destruct (Hturn _ _ _ Ht 0%nat ev) as (? & ? & c & ? & ?);
        [rewrite Er; exact E|].
      repeat split; try assumption. exists c.
      split; [apply in_or_app; now left | assumption].
    + apply IH in E as (? & ? & c & ? & ?).
      repeat split; try lia. exists c.
      split; [apply in_or_app; now right | lia].
Qed.

(** Without a hook no event is made, and without a signal the engine
    throws no [AbortError] of its own. *)
Lemma sleep_no_signal (ms : number) (s : St W T) :
  sleep ms None s
  = (Normal tt,
     {| world := awaitTimeout (toIntMs ms) (world s);
        log := log s ++ [ObsSleep (toIntMs ms)] |}).
Proof.
  unfold sleep, bind, emit, readW, liftW, ret. cbn [signalAborted world log].
  destruct (toIntMs ms =? 0) eqn:E; [|reflexivity].
  apply Z.eqb_eq in E. now rewrite E.
Qed.

Lemma onFailure_no_hook (opts : Normalized W) (startedAt : number) (k : Z)
  (ctx : RetryContext W) (err : value) (s s' : St W T) (r : Completion unit) :
  opts_onRetry opts = None ->
  onFailure opts startedAt k ctx err s = (r, s') ->
  retryEvents (log s') = retryEvents (log s).
Proof.
  unfold onFailure, now. intros Hh H. rewrite Hh in H. run_in H.
  repeat first [use_specs; simp | run_step; simp]; try congruence.
  all: intros.
  all: repeat match goal with
         | H : log ?s = _ |- _ => rewrite H in *; clear H
         end.
  all: rewrite ?retryEvents_app.
  all: repeat match goal with
         | D : _ = [] \/ _ |- _ => destruct D as [->|[? ->]]
         end.
  all: simpl; rewrite ?app_nil_r; reflexivity.
Qed.

Lemma onFailure_no_signal (opts : Normalized W) (startedAt : number) (k : Z)
  (ctx : RetryContext W) (err : value) (s s' : St W T) (r : Completion unit)
  (m : string) :
  opts_signal opts = None ->
  onFailure opts startedAt k ctx err s = (r, s') ->
  r <> Throw (AbortError m).
Proof.
  unfold onFailure, now, giveUp. intros Hh H. rewrite Hh in H. run_in H.
  cbn [signalAborted] in H.
  repeat first
    [ match goal with
      | E : context [sleep _ None _] |- _ => rewrite sleep_no_signal in E
      end
    | match goal with
      | E : planDelay _ _ _ ?s = (?c, _) |- _ =>
          is_var c;
          let reason := fresh "reason" in
          let d := fresh "d" in
          let rngs := fresh "rngs" in
          pose proof (planDelay_spec _ _ _ _ _ _ E)
            as (reason & d & rngs & -> & _ & _ & _);
          clear E
      end
    | run_step; simp ]; try congruence.
  all: destruct (opts_wrapError opts); discriminate.
Qed.

Lemma iteration_unconfigured (opts : Normalized W) (startedAt : number)
  (task : Task W T) (a : Z) (s s' : St W T) (r : Completion (option T)) :
  iteration opts startedAt task a s = (r, s') ->
  (opts_onRetry opts = None -> retryEvents (log s') = retryEvents (log s))
  /\ (opts_signal opts = None -> forall m, r <> Throw (AbortError m)).
Proof.
  intros H. split.
  - intros Hh. revert H. unfold iteration, now. intros H. run_in H.
    repeat first
      [ match goal with
        | E : onFailure _ _ _ _ _ _ = (?c, _) |- _ =>
            apply (onFailure_no_hook _ _ _ _ _ _ _ _ Hh) in E
        end
      | run_step; simp ]; try congruence.
    all: repeat match goal with
           | H : retryEvents _ = _ |- _ => rewrite H; clear H
           end.
    all: rewrite ?retryEvents_app; simpl; rewrite ?app_nil_r; reflexivity.
  - intros Hh m. revert H. unfold iteration, now. intros H. rewrite Hh in H.
    run_in H. cbn [signalAborted] in H.
    repeat first
      [ match goal with
        | E : onFailure _ _ _ _ _ _ = (?c, _) |- _ =>
            apply (fun E0 => onFailure_no_signal _ _ _ _ _ _ _ _ m Hh E0) in E
        end
      | run_step; simp ]; try congruence.
Qed.

Lemma retryLoop_unconfigured (fuel : nat) (opts : Normalized W)
  (startedAt : number) (task : Task W T) :
  forall (a : Z) (s s' : St W T) (r : Completion T),
    retryLoop fuel opts startedAt task a s = (r, s') ->
    (opts_onRetry opts = None -> retryEvents (log s') = retryEvents (log s))
    /\ (opts_signal opts = None -> forall m, r <> Throw (AbortError m)).
Proof.
  induction fuel as [|fuel IH]; intros a s s' r H.
  - cbn in H. apply pair_eq_inv in H as [<- <-].
    split; [reflexivity | discriminate].
  - cbn [retryLoop] in H. unfold bind in H.
    destruct (iteration opts startedAt task a s) as [c s1] eqn:E.
    apply iteration_unconfigured in E as [E1 E2].
    destruct c as [[v|]| |].
    + apply pair_eq_inv in H as [<- <-].
      split; [assumption | discriminate].
    + apply IH in H as [H1 H2]. split; [|assumption].
      intros Hh. now rewrite H1, E1.
    + apply pair_eq_inv in H as [<- <-]. split; [assumption|].
      intros Hs m Hc. apply Throw_inj in Hc. subst.
      now apply (E2 Hs m).
    + apply pair_eq_inv in H as [<- <-].
      split; [assumption | discriminate].
Qed.

Lemma retry_unconfigured (fuel : nat) (task : Task W T)
  (options : option (RetryOptions W)) (opts : Normalized W) (s : St W T) :
  normalizeOptions (orEmpty options) = inr opts ->
  (opts_onRetry opts = None ->
   retryEvents (log (snd (retry fuel task options s)))
   = retryEvents (log s))
  /\ (opts_signal opts = None ->
      forall m, fst (retry fuel task options s) <> Throw (AbortError m)).
Proof.
  intros Hn. unfold retry. rewrite Hn. unfold bind, now, liftW.
  destruct (Date_now (world s)) as [t w].
  destruct (retryLoop fuel opts t task 0 {| world := w; log := log s |})
    as [r s'] eqn:E.
  apply retryLoop_unconfigured in E. exact E.
Qed.

(** X18. The hook sees the retries in order and each once: the [i]-th event of
    a run (from 0) announces attempt [i + 2], its delay is not negative,
    and its error is what a call of the task for attempt [i + 1] threw. *)
Theorem retry_events_in_order (fuel : nat) (task : Task W T)
  (options : option (RetryOptions W)) (opts : Normalized W) (s : St W T) :
  normalizeOptions (orEmpty options) = inr opts ->
  log s = [] ->
  forall i ev,
    nth_error (retryEvents (log (snd (retry fuel task options s)))) i
    = Some ev ->
    ev_nextAttempt ev = Z.of_nat i + 2
    /\ 0 <= ev_delayMs ev
    /\ exists c,
         In (ObsTask c (Rejected (ev_error ev)))
           (log (snd (retry fuel task options s)))
         /\ ctx_attempt c = Z.of_nat i + 1.
Proof.
  intros Hn Hs i ev E.
  destruct (opts_onRetry opts) eqn:Hh.
  - destruct (retry_Run fuel task options opts s Hn) as (st & obs & Hl & R).
    rewrite Hs in Hl. simpl in Hl. rewrite Hl in E |- *.
    assert (opts_onRetry opts <> None) as Hh' by congruence.
    destruct (Run_events_order _ _ _ _ _ Hh' R i ev E)
      as (? & ? & c & ? & ?).
    repeat split; try lia. exists c. split; [assumption | lia].
  - destruct (retry_unconfigured fuel task options opts s Hn) as [H _].
    rewrite (H Hh), Hs in E. destruct i; discriminate.
Qed.

(* ------------------------------------------------------------------ *)
(** *** What a run rejects with *)

Lemma Rejection_app (opts : Normalized W) (startedAt : number)
  (l0 obs : list (Obs W T)) (x : Thrown) :
  Rejection opts startedAt obs x -> Rejection opts startedAt (l0 ++ obs) x.
Proof.
  destruct x as [v|name received|message|k e m cause|k e mx st cause];
    simpl; auto.
  intros (Hw & Hm & Hs & Ha & l & ctx & rest & -> & Hk & Hr).
  repeat (split; [assumption|]).
  exists (l0 ++ l), ctx, rest. rewrite app_assoc. auto.
Qed.

Lemma Failure_rejections (opts : Normalized W) (startedAt : number) (k : Z)
  (ctx : RetryContext W) (err : value) (obs : list (Obs W T))
  (r : Completion unit) (x : Thrown) :
  ctx_attempt ctx = k ->
  Failure opts startedAt k ctx err obs r ->
  r = Throw x ->
  Rejection opts startedAt (ObsTask ctx (Rejected err) :: obs) x.
Proof.
  intros Hk F Hr. subst r. inv F;
    repeat match goal with
           | H : Throw _ = Throw x |- _ => apply Throw_inj in H; subst x
           | H : _ = Normal _ \/ _ = Throw _ |- _ =>
               destruct H as [H|H]; [discriminate H|]
           | H : Throw x = Throw _ |- _ => apply Throw_inj in H; subst x
           | H : overBudget _ _ = Some _ |- _ =>
               apply overBudget_spec in H as [H _]
           end;
    try exact I; try reflexivity; try assumption.
  - unfold giveUp. destruct (opts_wrapError opts) eqn:Hw; simpl; [|exact I].
    repeat (split; [auto|]). exists [], ctx, []. auto.
  - unfold giveUp. destruct (opts_wrapError opts) eqn:Hw; simpl; [|exact I].
    repeat (split; [auto|]). exists [], ctx. eexists.
    split; [reflexivity|]. split; [reflexivity|]. right.
    eexists. reflexivity.
Qed.

Lemma Turn_rejections (opts : Normalized W) (startedAt : number) (a : Z)
  (obs : list (Obs W T)) (r : Completion (option T)) (x : Thrown) :
  Turn opts startedAt a obs r ->
  r = Throw x ->
  Rejection opts startedAt obs x.
Proof.
  intros H Hr. subst r.
  inversion H as [E|e0 m Hb E|e v E|e err obs' r0 F Eo E]; subst;
    try discriminate.
  - reflexivity.
  - simpl. now apply overBudget_spec in Hb as [Hb _].
  - destruct r0 as [u|y|]; try discriminate.
    match goal with
    | E0 : Throw _ = Throw _ |- _ => apply Throw_inj in E0; subst y
    end.
    eapply Failure_rejections; eauto.
Qed.

Lemma Run_rejections (opts : Normalized W) (startedAt : number) (a : Z)
  (obs : list (Obs W T)) (r : Completion T) (x : Thrown) :
  Run opts startedAt a obs r ->
  r = Throw x ->
  Rejection opts startedAt obs x.
Proof.
  intros R Hr.
  induction R as [a|a obs v Ht|a obs y Ht|a obs obs' r Ht R IH];
    try discriminate.
  - apply Throw_inj in Hr. subst y. eapply Turn_rejections; eauto.
  - apply Rejection_app. auto.
Qed.


(* ------------------------------------------------------------------ *)
(** *** More on the sleeper *)

(** X20. [sleep] depends on its delay only through [toIntMs].  Without a
    signal it never fails and waits for the timer once.  With a signal
    that is already aborted it fails at once, with no timer awaited.
    A zero delay still waits for a timer of 0 and looks at the signal
    again after it. *)
Theorem sleep_behaviour (ms : number) (sg : option (AbortSignal W))
  (s : St W T) :
  sleep ms sg s = sleep (ofZ (toIntMs ms)) sg s
  /\ (sg = None ->
      sleep ms sg s
      = (Normal tt,
         {| world := awaitTimeout (toIntMs ms) (world s);
            log := log s ++ [ObsSleep (toIntMs ms)] |}))
  /\ (signalAborted sg (world s) = true ->
      sleep ms sg s
      = (Throw (AbortError "Retry aborted"),
         {| world := world s; log := log s ++ [ObsSleep (toIntMs ms)] |}))
  /\ (signalAborted sg (world s) = false ->
      toIntMs ms = 0 ->
      sleep ms sg s
      = (if signalAborted sg (awaitTimeout 0 (world s))
         then Throw (AbortError "Retry aborted")
         else Normal tt,
         {| world := awaitTimeout 0 (world s);
            log := log s ++ [ObsSleep 0] |})).
Proof.
  split; [|split; [|split]].
  - unfold sleep. now rewrite toIntMs_idem.
  - intros ->. apply sleep_no_signal.
  - intros Ha. unfold sleep, bind, emit, readW, liftW, ret, throw.
    cbn [world log]. destruct sg as [g|]; [|discriminate].
    cbn [signalAborted] in *.
    destruct (toIntMs ms =? 0); cbv beta; cbn [world log];
      rewrite Ha; reflexivity.
  - intros Ha Hz. unfold sleep, bind, emit, readW, liftW, ret, throw.
    rewrite Hz. cbn [Z.eqb]. cbv beta. cbn [world log]. rewrite Ha.
    cbv beta. cbn [world log].
    destruct (signalAborted sg (awaitTimeout 0 (world s))); reflexivity.
Qed.

(* ------------------------------------------------------------------ *)
(** *** The engine's errors, seen by an enclosing retry *)

Lemma lookup_AsyncRetryError (name message code k : string) (cause : value)
  (rest : list (string * value)) :
  k <> "message"%string -> k <> "name"%string -> k <> "code"%string ->
  k <> "cause"%string ->
  lookup k (AsyncRetryError name message code cause ++ rest) = lookup k rest.
Proof.
  intros H1 H2 H3 H4. unfold AsyncRetryError. cbn [app lookup].
  rewrite (proj2 (String.eqb_neq _ _)) by congruence.
  rewrite (proj2 (String.eqb_neq _ _)) by congruence.
  rewrite (proj2 (String.eqb_neq _ _)) by congruence.
  destruct cause; cbn [app lookup]; try reflexivity;
    now rewrite (proj2 (String.eqb_neq _ _)) by congruence.
Qed.

(** X21. The objects of [errors.ts] under the engine's own tests.  The
    engine's [AbortError] is cancellation-like, so an enclosing retry
    rethrows it at once.  [RetryTimeoutError] and [RetryExhaustedError]
    are not, and carry no status, whatever their cause carries: the
    default classifier of an enclosing retry accepts them unless its
    signal is aborted. *)
Theorem engine_errors_classified (show : number -> string) (e : Thrown)
  (v : value) :
  thrownObject show e = Some v ->
  match e with
  | ThrownValue _ | RangeError _ _ => True
  | AbortError _ =>
      isAbortLikeError v = true
      /\ getCode v = Some "ERR_ASYNC_RETRY_ABORTED"%string
      /\ forall (opts : Normalized W) startedAt k ctx (s : St W T),
           onFailure opts startedAt k ctx v s = (Throw (ThrownValue v), s)
  | RetryTimeoutError _ _ _ _ =>
      isAbortLikeError v = false
      /\ getCode v = Some "ERR_ASYNC_RETRY_TIMEOUT"%string
      /\ getStatus v = None
      /\ forall (ctx : RetryContext W) w,
           defaultShouldRetry v ctx w = negb (signalAborted (ctx_signal ctx) w)
  | RetryExhaustedError _ _ _ _ cause =>
      isAbortLikeError v = false
      /\ getCode v = Some "ERR_ASYNC_RETRY_EXHAUSTED"%string
      /\ getStatus v = None
      /\ (cause <> VUndefined -> optProp v "cause" = cause)
      /\ forall (ctx : RetryContext W) w,
           defaultShouldRetry v ctx w = negb (signalAborted (ctx_signal ctx) w)
  end.
Proof.
  assert (forall v0, isAbortLikeError v0 = false -> getStatus v0 = None ->
                     forall (ctx : RetryContext W) w,
                       defaultShouldRetry v0 ctx w
                       = negb (signalAborted (ctx_signal ctx) w)) as Hd.
  { intros v0 Ha Hs ctx w. unfold defaultShouldRetry. rewrite Ha, Hs.
    destruct (signalAborted (ctx_signal ctx) w); [reflexivity|].
    repeat match goal with
           | |- context [if ?b then _ else _] => destruct b
           end; reflexivity. }
  destruct e as [x|name received|message|k el m cause|k el mx st cause];
    simpl; auto; intros H; injection H as <-.
  - assert (isAbortLikeError (newAbortError message) = true) as Ha
        by reflexivity.
    split; [exact Ha|]. split; [reflexivity|].
    intros opts startedAt k ctx s. unfold onFailure. now rewrite Ha.
  - assert (isAbortLikeError
              (newRetryTimeoutError show k el m
                 match cause with Some err => err | None => VUndefined end)
            = false) as Ha by reflexivity.
    assert (getStatus
              (newRetryTimeoutError show k el m
                 match cause with Some err => err | None => VUndefined end)
            = None) as Hs.
    { unfold getStatus, newRetryTimeoutError. cbn [optProp getProp].
      rewrite !lookup_AsyncRetryError by discriminate. reflexivity. }
    split; [exact Ha|]. split; [reflexivity|]. split; [exact Hs|].
    now apply Hd.
  - assert (isAbortLikeError (newRetryExhaustedError show k el mx st cause)
            = false) as Ha by reflexivity.
    assert (getStatus (newRetryExhaustedError show k el mx st cause) = None)
      as Hs.
    { unfold getStatus, newRetryExhaustedError. cbn [optProp getProp].
      rewrite !lookup_AsyncRetryError by discriminate. reflexivity. }
    split; [exact Ha|]. split; [reflexivity|]. split; [exact Hs|].
    split; [|now apply Hd].
    intros Hc. destruct cause; try congruence; reflexivity.
Qed.

(* ------------------------------------------------------------------ *)
(** *** Success ends the run *)

Lemma In_taskCalls (l : list (Obs W T)) (ctx : RetryContext W)
  (r : Settled T) :
  In (ObsTask ctx r) l -> In ctx (taskCalls l).
Proof.
  induction l as [|o l IH]; simpl; [auto|].
  intros [->|Hin]; [now left|].
  destruct o; simpl; auto.
Qed.

Lemma Turn_resolved (opts : Normalized W) (startedAt : number) (a : Z)
  (obs : list (Obs W T)) (r : Completion (option T)) :
  Turn opts startedAt a obs r ->
  (forall ctx v,
      In (ObsTask ctx (Fulfilled v)) obs ->
      obs = [ObsTask ctx (Fulfilled v)] /\ r = Normal (Some v))
  /\ (forall v, r = Normal (Some v) ->
                exists ctx, obs = [ObsTask ctx (Fulfilled v)]).
Proof.
  intros Ht.
  inversion Ht as [E|e0 m Hb E|e v E|e err obs' r0 F Eo E]; subst; simpl.
  - split; [intros ? ? [] | discriminate].
  - split; [intros ? ? [] | discriminate].
  - split.
    + intros ctx v' [Hin|[]]. inv Hin. auto.
    + intros v' Hv. apply Normal_inj in Hv. inv Hv. eauto.
  - split.
    + intros ctx v [Hin|Hin]; [discriminate|].
      apply In_taskCalls in Hin.
      rewrite (Failure_taskCalls _ _ _ _ _ _ _ F) in Hin. contradiction.
    + intros v Hv. destruct r0; discriminate.
Qed.

Lemma Run_resolved_last (opts : Normalized W) (startedAt : number) (a : Z)
  (obs : list (Obs W T)) (r : Completion T) :
  Run opts startedAt a obs r ->
  (forall ctx v,
      In (ObsTask ctx (Fulfilled v)) obs ->
      r = Normal v /\ exists l, obs = l ++ [ObsTask ctx (Fulfilled v)])
  /\ (forall v, r = Normal v ->
                exists l ctx, obs = l ++ [ObsTask ctx (Fulfilled v)]).
Proof.
  intros R.
  induction R as [a|a obs v Ht|a obs x Ht|a obs obs' r Ht R IH].
  - split; [intros ? ? [] | discriminate].
  - destruct (Turn_resolved _ _ _ _ _ Ht) as [H1 H2]. split.
    + intros ctx v' Hin. destruct (H1 ctx v' Hin) as [-> E].
      apply Normal_inj in E. inv E. split; [reflexivity | now exists []].
    + intros v' Hv. apply Normal_inj in Hv. subst v'.
      destruct (H2 v eq_refl) as [ctx ->]. now exists [], ctx.
  - destruct (Turn_resolved _ _ _ _ _ Ht) as [H1 H2]. split.
    + intros ctx v' Hin. destruct (H1 ctx v' Hin) as [_ E]. discriminate.
    + discriminate.
  - destruct (Turn_resolved _ _ _ _ _ Ht) as [H1 H2].
    destruct IH as [I1 I2]. split.
    + intros ctx v Hin. apply in_app_or in Hin as [Hin|Hin].
      * destruct (H1 ctx v Hin) as [_ E]. discriminate.
      * destruct (I1 ctx v Hin) as [-> [l ->]].
        split; [reflexivity|]. exists (obs ++ l). now rewrite app_assoc.
    + intros v Hv. destruct (I2 v Hv) as (l & ctx & ->).
      exists (obs ++ l), ctx. now rewrite app_assoc.
Qed.

(** X22. [retry] resolves exactly when the last thing it did was a call of the
    task that resolved, and then with that call's value: after a call of
    the task has resolved nothing more is called, and the attempt that
    resolved is the last of the calls counted from 1. *)
Theorem resolution_is_last (fuel : nat) (task : Task W T)
  (options : option (RetryOptions W)) (opts : Normalized W) (s : St W T) :
  normalizeOptions (orEmpty options) = inr opts ->
  log s = [] ->
  let l := log (snd (retry fuel task options s)) in
  (forall ctx v,
      In (ObsTask ctx (Fulfilled v)) l ->
      fst (retry fuel task options s) = Normal v
      /\ (exists l0, l = l0 ++ [ObsTask ctx (Fulfilled v)])
      /\ ctx_attempt ctx = Z.of_nat (length (taskCalls l)))
  /\ (forall v,
         fst (retry fuel task options s) = Normal v ->
         exists l0 ctx, l = l0 ++ [ObsTask ctx (Fulfilled v)]).
Proof.
  intros Hn Hs l.
  destruct (normalizeOptions_maxAttempts _ _ Hn) as (N & HN1 & HN).
  destruct (retry_Run fuel task options opts s Hn) as (st & obs & Hl & R).
  rewrite Hs in Hl. simpl in Hl. subst l. rewrite Hl.
  destruct (Run_resolved_last _ _ _ _ _ R) as [H1 H2].
  split; [|exact H2].
  intros ctx v Hin. destruct (H1 ctx v Hin) as [Hr [l0 El]].
  split; [exact Hr|]. split; [now exists l0|].
  destruct (Run_taskCalls _ _ _ HN _ _ _ R ltac:(lia)) as [_ Hnth].
  rewrite El, taskCalls_app in Hnth |- *. cbn [taskCalls] in Hnth |- *.
  specialize (Hnth (length (taskCalls l0)) ctx).
  rewrite nth_error_app2, Nat.sub_diag in Hnth by lia.
  destruct (Hnth eq_refl) as [Ha _].
  rewrite length_app. cbn [length]. lia.
Qed.

(* ------------------------------------------------------------------ *)
(** *** The contexts of a run *)

Lemma Failure_contexts (opts : Normalized W) (startedAt : number) (k : Z)
  (ctx : RetryContext W) (err : value) (obs : list (Obs W T))
  (r : Completion unit) :
  Failure opts startedAt k ctx err obs r ->
  (forall o c, In o obs -> obsContext o = Some c ->
               exists e, c = withElapsed ctx e)
  /\ (forall err' c b,
         In (ObsShouldRetry err' c b) obs ->
         err' = err
         /\ exists rest, obs = ObsShouldRetry err c b :: rest).
Proof.
  intros F. inv F; planned; unfold hookObs;
    try destruct (opts_onRetry opts); simpl; split;
    try (intros ? ? []);
    try (intros ? ? ? []);
    intros;
    repeat match goal with
           | D : _ \/ _ |- _ => destruct D
           | D : False |- _ => destruct D
           end; subst; simpl in *;
    repeat match goal with
           | E : Some _ = Some _ |- _ => inv E
           | E : ObsShouldRetry _ _ _ = ObsShouldRetry _ _ _ |- _ => inv E
           end; try discriminate; eauto.
Qed.

Lemma Turn_contexts (opts : Normalized W) (startedAt : number) (a : Z)
  (obs : list (Obs W T)) (r : Completion (option T)) :
  Turn opts startedAt a obs r ->
  (forall o c, In o obs -> obsContext o = Some c ->
               exists e, c = contextOf opts startedAt (a + 1) e)
  /\ (forall err c b,
         In (ObsShouldRetry err c b) obs ->
         exists ctx e rest,
           obs = ObsTask ctx (Rejected err) :: ObsShouldRetry err c b :: rest
           /\ c = withElapsed ctx e).
Proof.
  intros Ht.
  inversion Ht as [E|e0 m Hb E|e v E|e err obs' r0 F Eo E]; subst; simpl.
  - split; [intros ? ? [] | intros ? ? ? []].
  - split; [intros ? ? [] | intros ? ? ? []].
  - split.
    + intros o c [<-|[]] Hc. inv Hc. eauto.
    + intros err c b [Hin|[]]. discriminate.
  - destruct (Failure_contexts _ _ _ _ _ _ _ F) as [H1 H2]. split.
    + intros o c [<-|Hin] Hc.
      * inv Hc. eauto.
      * destruct (H1 o c Hin Hc) as [e' ->]. exists e'. reflexivity.
    + intros err' c b [Hin|Hin]; [discriminate|].
      pose proof (H1 _ c Hin eq_refl) as [e' Hc].
      destruct (H2 err' c b Hin) as [-> [rest ->]].
      eauto 6.
Qed.

Lemma Run_contexts (opts : Normalized W) (startedAt : number) (a : Z)
  (obs : list (Obs W T)) (r : Completion T) :
  Run opts startedAt a obs r ->
  (forall o c, In o obs -> obsContext o = Some c ->
               ctx_startedAt c = startedAt
               /\ ctx_maxAttempts c = opts_maxAttempts opts
               /\ ctx_signal c = opts_signal opts
               /\ a < ctx_attempt c)
  /\ (forall err c b,
         In (ObsShouldRetry err c b) obs ->
         exists l ctx e rest,
           obs = l ++ ObsTask ctx (Rejected err)
                        :: ObsShouldRetry err c b :: rest
           /\ c = withElapsed ctx e).
Proof.
  assert (forall a obs (r : Completion (option T)),
             Turn opts startedAt a obs r ->
             forall o c, In o obs -> obsContext o = Some c ->
                         ctx_startedAt c = startedAt
                         /\ ctx_maxAttempts c = opts_maxAttempts opts
                         /\ ctx_signal c = opts_signal opts
                         /\ a < ctx_attempt c) as Hturn.
  { intros a0 obs0 r0 Ht o c Hin Hc.
    destruct (Turn_contexts _ _ _ _ _ Ht) as [H1 _].
    destruct (H1 o c Hin Hc) as [e ->]. simpl.
    repeat split; lia. }
  assert (forall a obs (r : Completion (option T)),
             Turn opts startedAt a obs r ->
             forall err c b,
               In (ObsShouldRetry err c b) obs ->
               exists l ctx e rest,
                 obs = l ++ ObsTask ctx (Rejected err)
                              :: ObsShouldRetry err c b :: rest
                 /\ c = withElapsed ctx e) as Hturn2.
  { intros a0 obs0 r0 Ht err c b Hin.
    destruct (Turn_contexts _ _ _ _ _ Ht) as [_ H2].
    destruct (H2 err c b Hin) as (ctx & e & rest & -> & ->).
    exists [], ctx, e, rest. auto. }
  intros R.
  induction R as [a|a obs v Ht|a obs x Ht|a obs obs' r Ht R IH].
  - split; [intros ? ? [] | intros ? ? ? []].
  - split; [eapply Hturn | eapply Hturn2]; eauto.
  - split; [eapply Hturn | eapply Hturn2]; eauto.
  - destruct IH as [I1 I2]. split.
    + intros o c Hin Hc. apply in_app_or in Hin as [Hin|Hin].
      * eapply Hturn; eauto.
      * destruct (I1 o c Hin Hc) as (? & ? & ? & ?).
        repeat split; try assumption; lia.
    + intros err c b Hin. apply in_app_or in Hin as [Hin|Hin].
      * destruct (Hturn2 _ _ _ Ht err c b Hin)
          as (l & ctx & e & rest & -> & ->).
        exists l, ctx, e, (rest ++ obs'). split; [|reflexivity].
        rewrite <- app_assoc. reflexivity.
      * destruct (I2 err c b Hin) as (l & ctx & e & rest & -> & ->).
        exists (obs ++ l), ctx, e, rest. split; [|reflexivity].
        now rewrite app_assoc.
Qed.

(** X23. Every context that a run hands to the task carries the same
    [startedAt], the one reading of the clock that [retry] makes before the
    loop, the ceiling and the signal of the options, and an attempt from 1
    on.  The classifier is asked right after a call of the task that
    failed, about that failure. *)
Theorem contexts_consistent (fuel : nat) (task : Task W T)
  (options : option (RetryOptions W)) (opts : Normalized W) (s : St W T) :
  normalizeOptions (orEmpty options) = inr opts ->
  log s = [] ->
  let l := log (snd (retry fuel task options s)) in
  (forall c r, In (ObsTask c r) l ->
               ctx_startedAt c = fst (Date_now (world s))
               /\ ctx_maxAttempts c = opts_maxAttempts opts
               /\ ctx_signal c = opts_signal opts
               /\ 1 <= ctx_attempt c)
  /\ (forall err c b,
         In (ObsShouldRetry err c b) l ->
         exists l0 ctx rest,
           l = l0 ++ ObsTask ctx (Rejected err)
                       :: ObsShouldRetry err c b :: rest).
Proof.
  intros Hn Hs l. subst l. unfold retry. rewrite Hn.
  unfold bind, now, liftW.
  destruct (Date_now (world s)) as [t w]. cbn [fst].
  destruct (retryLoop fuel opts t task 0 {| world := w; log := log s |})
    as [r s'] eqn:E.
  apply retryLoop_Run in E as (obs & Hl & R). cbn [snd log] in *.
  rewrite Hs in Hl. simpl in Hl. rewrite Hl.
  destruct (Run_contexts _ _ _ _ _ R) as [H1 H2].
  split.
  - intros c r0 Hin.
    destruct (H1 (ObsTask c r0) c Hin eq_refl) as (? & ? & ? & ?).
    repeat split; try assumption; lia.
  - intros err c b Hin.
    destruct (H2 err c b Hin) as (l0 & ctx & e & rest & -> & _).
    exists l0, ctx, rest. reflexivity.
Qed.

(* ------------------------------------------------------------------ *)
(** *** The promise inside the sleeper *)

(** X24. Whatever the timer and the signal do after the executor has run, and
    in whatever order: the promise settles on the first event and stays
    as that event made it, and from then on the timer is cleared, the
    listener is removed, and the list of clean-ups is empty.  Until then
    both are in place. *)
Theorem sleeper_settles_once (waitMs : Z) (evs : list Sleeper.Event) :
  let x := fold_left Sleeper.step evs (Sleeper.executor waitMs true) in
  match evs with
  | [] =>
      Sleeper.settled x = None
      /\ Sleeper.timer x = Some waitMs
      /\ Sleeper.listener x = true
  | ev :: _ =>
      Sleeper.settled x = Some (Sleeper.outcome ev)
      /\ Sleeper.done x = true
      /\ Sleeper.timer x = None
      /\ Sleeper.listener x = false
      /\ Sleeper.cleanups x = []
  end.
Proof.
  destruct evs as [|ev evs]; [cbn; auto|].
  cbv zeta. cbn [fold_left].
  set (x1 := Sleeper.step (Sleeper.executor waitMs true) ev).
  assert (Sleeper.settled x1 = Some (Sleeper.outcome ev)
          /\ Sleeper.done x1 = true
          /\ Sleeper.timer x1 = None
          /\ Sleeper.listener x1 = false
          /\ Sleeper.cleanups x1 = []) as H1
      by (destruct ev; cbn; auto).
  clearbody x1. revert x1 H1.
  induction evs as [|ev' evs IH]; intros x1 H1; [exact H1|].
  cbn [fold_left]. apply IH.
  destruct H1 as (Hs & Hd & Ht & Hl & Hc).
  destruct ev'; unfold Sleeper.step; rewrite ?Ht, ?Hl; auto.
Qed.

(* ------------------------------------------------------------------ *)
(** *** The checks of the signal *)

(** X25. Where the loop looks at the signal.  A turn entered with the signal
    aborted throws [AbortError] before it reads the clock or calls the
    task, and so does [retry] when the signal is aborted from the start.
    After a failure that is not the last attempt's, an aborted signal
    stops the loop before the classifier is asked.  After the failure of
    the last attempt the signal is not looked at: the loop gives up with
    the error, aborted or not. *)
Theorem abort_checks (opts : Normalized W) (startedAt : number)
  (task : Task W T) :
  (forall a (s : St W T),
      signalAborted (opts_signal opts) (world s) = true ->
      iteration opts startedAt task a s
      = (Throw (AbortError "Retry aborted"), s))
  /\ (forall fuel options (s : St W T) t w0,
         normalizeOptions (orEmpty options) = inr opts ->
         Date_now (world s) = (t, w0) ->
         signalAborted (opts_signal opts) w0 = true ->
         retry (S fuel) task options s
         = (Throw (AbortError "Retry aborted"),
            {| world := w0; log := log s |}))
  /\ (forall k ctx err (s : St W T) t w1,
         isAbortLikeError err = false ->
         Date_now (world s) = (t, w1) ->
         geb (ofZ k) (opts_maxAttempts opts) = false ->
         signalAborted (opts_signal opts) w1 = true ->
         onFailure opts startedAt k ctx err s
         = (Throw (AbortError "Retry aborted"),
            {| world := w1; log := log s |}))
  /\ (forall k ctx err (s : St W T) t w1,
         isAbortLikeError err = false ->
         Date_now (world s) = (t, w1) ->
         geb (ofZ k) (opts_maxAttempts opts) = true ->
         onFailure opts startedAt k ctx err s
         = (Throw (giveUp opts k (toIntMs (sub t startedAt)) startedAt err),
            {| world := w1; log := log s |})).
Proof.
  assert (forall st a (s : St W T),
             signalAborted (opts_signal opts) (world s) = true ->
             iteration opts st task a s
             = (Throw (AbortError "Retry aborted"), s)) as Hit.
  { intros st a s Ha. unfold iteration, bind, readW, throw.
    now rewrite Ha. }
  split; [apply Hit|]. split; [|split].
  - intros fuel options s t w0 Hn Ht Ha. unfold retry. rewrite Hn.
    unfold bind at 1. unfold now, liftW. rewrite Ht.
    cbn [retryLoop]. unfold bind. rewrite Hit by exact Ha. reflexivity.
  - intros k ctx err s t w1 He Ht Hk Ha.
    unfold onFailure, bind, now, liftW, readW, throw.
    rewrite He, Ht, Hk. cbn [world]. now rewrite Ha.
  - intros k ctx err s t w1 He Ht Hk.
    unfold onFailure, bind, now, liftW, readW, throw.
    now rewrite He, Ht, Hk.
Qed.

(* ------------------------------------------------------------------ *)
(** *** The random source *)

Lemma planDelay_no_draw (opts : Normalized W) (k : Z) (err : value)
  (s s' : St W T) (reason : Reason) (d : Z) :
  planDelay opts k err s = (Normal (reason, d), s') ->
  opts_jitter opts = JitterNone \/ reason = ReasonRetryAfter ->
  log s' = log s.
Proof.
  unfold planDelay, applyFullJitter. intros H Hc. run_in H.
  destruct (hintDelay opts err s) as [c0 s0] eqn:Hh.
  apply hintDelay_spec in Hh as [[h ->] Hl]. simp.
  destruct h as [h|]; simp.
  - apply pair_eq_inv in H as [_ <-]. exact Hl.
  - destruct (opts_jitter opts) eqn:Hj.
    + destruct Hc as [Hc|Hc]; [discriminate|]. subst reason. run.
    + run; exact Hl.
Qed.

Lemma Failure_draws (opts : Normalized W) (startedAt : number) (k : Z)
  (ctx : RetryContext W) (err : value) (obs : list (Obs W T))
  (r : Completion unit) :
  opts_jitter opts = JitterNone ->
  Failure opts startedAt k ctx err obs r -> draws obs = [].
Proof.
  intros Hj F.
  assert (forall reason d (rngs : list (Obs W T)),
             Planned opts k err reason d rngs -> rngs = []) as Hp.
  { intros reason d rngs (s1 & s2 & P & Hl).
    rewrite (planDelay_no_draw _ _ _ _ _ _ _ P (or_introl Hj)) in Hl.
    rewrite <- (app_nil_r (log s1)) in Hl at 1.
    apply app_inv_head in Hl. now symmetry. }
  inv F; try reflexivity;
    match goal with
    | P : Planned _ _ _ _ _ _ |- _ => rewrite (Hp _ _ _ P)
    end; unfold hookObs; try destruct (opts_onRetry opts); reflexivity.
Qed.

Lemma Run_draws (opts : Normalized W) (startedAt : number) (a : Z)
  (obs : list (Obs W T)) (r : Completion T) :
  opts_jitter opts = JitterNone ->
  Run opts startedAt a obs r -> draws obs = [].
Proof.
  intros Hj.
  assert (forall a obs (r : Completion (option T)),
             Turn opts startedAt a obs r -> draws obs = []) as Hturn.
  { intros a0 obs0 r0 Ht. inv Ht; try reflexivity.
    simpl. eapply Failure_draws; eauto. }
  intros R.
  induction R as [a|a obs v Ht|a obs x Ht|a obs obs' r Ht R IH];
    try reflexivity; eauto.
  rewrite draws_app, IH. now rewrite (Hturn _ _ _ Ht).
Qed.

(** X26. The random source is for the jitter alone: with [jitter: 'none'] a
    run never draws from it, and a delay that comes from a retry hint is
    planned without a draw whatever the jitter. *)
Theorem rng_only_for_jitter (opts : Normalized W) :
  (forall fuel task options (s : St W T),
      normalizeOptions (orEmpty options) = inr opts ->
      opts_jitter opts = JitterNone ->
      log s = [] ->
      draws (log (snd (retry fuel task options s))) = [])
  /\ (forall k err (s s' : St W T) d,
         planDelay opts k err s = (Normal (ReasonRetryAfter, d), s') ->
         log s' = log s).
Proof.
  split.
  - intros fuel task options s Hn Hj Hs.
    destruct (retry_Run fuel task options opts s Hn) as (st & obs & Hl & R).
    rewrite Hs in Hl. simpl in Hl. rewrite Hl.
    eapply Run_draws; eauto.
  - intros k err s s' d P.
    exact (planDelay_no_draw _ _ _ _ _ _ _ P (or_intror eq_refl)).
Qed.

(* ------------------------------------------------------------------ *)
(** *** The factory validates what it merges *)

(** X27. A function made by [createRetry] validates the merged options at
    each call, not the defaults when it is made: it rejects with
    [RangeError], before anything else is done, exactly when the merge of
    the overrides over the defaults is an invalid configuration.  So an
    override can repair an invalid default, and can break a valid one. *)
Theorem createRetry_validates_merged (defaults overrides : option (RetryOptions W))
  (fuel : nat) (task : Task W T) (s : St W T) :
  let merged := spread (orEmpty defaults) (orEmpty overrides) in
  if invalidConfiguration merged
  then exists name received,
         createRetry defaults fuel task overrides s
         = (Throw (RangeError name received), s)
  else forall name received,
         fst (createRetry defaults fuel task overrides s)
         <> Throw (RangeError name received).
Proof.
  cbv zeta. unfold createRetry.
  pose proof (normalizeOptions_spec
                (spread (orEmpty defaults) (orEmpty overrides))) as H.
  destruct (invalidConfiguration _).
  - destruct H as (name & received & H). exists name, received.
    unfold retry. cbn [orEmpty]. now rewrite H.
  - destruct H as (opts & H). intros name received Hx.
    destruct (retry_Run fuel task
                (Some (spread (orEmpty defaults) (orEmpty overrides)))
                opts s H) as (st & obs & _ & R).
    exact (Run_rejections _ _ _ _ _ _ R Hx).
Qed.

End Properties.

(* ================================================================== *)
(** ** The properties at work *)
(* ================================================================== *)

Import Scenario.

Lemma retry_attempts_bounded_witness :
  normalizeOptions (orEmpty None) = inr (normalized emptyOptions)
  /\ exists (N : Z) (obs : list (Obs World string)),
       1 <= N
       /\ eqb (opts_maxAttempts (normalized emptyOptions)) (ofZ N) = true
       /\ log (snd (retry 5 (failing boom) None start)) = log start ++ obs
       /\ Z.of_nat (length (taskCalls obs)) <= N
       /\ (forall i ctx,
             nth_error (taskCalls obs) i = Some ctx ->
             ctx_attempt ctx = Z.of_nat i + 1
             /\ 1 <= ctx_attempt ctx <= N)
       /\ (N <= Z.of_nat 5 ->
           fst (retry 5 (failing boom) None start) <> Pending).
Proof.
  split; [reflexivity|].
  apply (retry_attempts_bounded 5 (failing boom) None
           (normalized emptyOptions) start).
  reflexivity.
Defined.

Lemma retry_invalid_configuration_witness :
  invalidConfiguration (onlyMaxAttempts (ofZ 0)) = true
  /\ exists name received,
       retry 5 succeeding (Some (onlyMaxAttempts (ofZ 0))) start
       = (Throw (RangeError name received), start).
Proof.
  split; [reflexivity|].
  exact (retry_invalid_configuration (onlyMaxAttempts (ofZ 0)) eq_refl
           5 succeeding start).
Defined.

(** The delay after attempt 1 with [baseMs = 1.5] and a random source that
    returns 0.75 is 0: the backoff 1.5 is brought to 1 before the jitter.
    The formula of the specification gives [floor(0.75 * 1.5) = 1]. *)
Lemma full_jitter_delay_counterexample :
  fst (planDelay (normalized fractionalOptions) 1 boom start)
  = Normal (ReasonBackoff, 0)
  /\ sleeps (log (snd (retry 5 (flaky 1 0 boom) (Some fractionalOptions)
                         start))) = [0]
  /\ specFullJitterDelay 0.75 1.5 1500 2 1 = 1
  /\ fst (planDelay (normalized fractionalOptions) 1 boom start)
     <> Normal (ReasonBackoff, specFullJitterDelay 0.75 1.5 1500 2 1).
Proof.
  repeat split; try reflexivity. vm_compute. discriminate.
Qed.

Lemma planDelay_backoff_witness :
  normalizeOptions exampleOptions = inr (normalized exampleOptions)
  /\ hintDelay (normalized exampleOptions) boom start = (Normal None, start)
  /\ (forall w, fst (opts_rng (normalized exampleOptions) w) = Fin 0.5)
  /\ exists b c f,
       opts_baseMs (normalized exampleOptions) = Fin b
       /\ opts_capMs (normalized exampleOptions) = Fin c
       /\ opts_factor (normalized exampleOptions) = Fin f
       /\ fst (planDelay (normalized exampleOptions) 2 boom start)
          = Normal (ReasonBackoff,
                    match opts_jitter (normalized exampleOptions) with
                    | JitterFull => fullJitterDelay (Fin 0.5) b c f 2
                    | JitterNone => noJitterDelay b c f 2
                    end)
       /\ 0 <= fullJitterDelay (Fin 0.5) b c f 2 <= noJitterDelay b c f 2
       /\ fullJitterDelay (Fin 0.5) 1000 1500 2 1 = 500
       /\ fullJitterDelay (Fin 0.5) 1000 1500 2 2 = 750.
Proof.
  split; [reflexivity|]. split; [reflexivity|]. split; [reflexivity|].
  destruct (planDelay_backoff exampleOptions (normalized exampleOptions) 2
              boom start start (Fin 0.5) eq_refl eq_refl (fun _ => eq_refl))
    as (b & c & f & Hb & Hc & Hf & Hp & _ & Hj & _ & H1 & H2).
  exists b, c, f.
  exact (conj Hb (conj Hc (conj Hf (conj Hp (conj Hj
           (conj H1 (H2 eq_refl))))))).
Defined.

(** In the example of the specification no power and no product needs
    rounding, the capped backoff is a whole number and the draw lies
    within the clamp. *)
Example example_is_exact :
  exactly (pow (Fin 2) (2 - 1)) (2 ^ (2 - 1))
  /\ exactly (mul (Fin 1000) (Fin (2 ^ (2 - 1)))) (1000 * 2 ^ (2 - 1))
  /\ Qfloor (cappedBackoff 1000 1500 2 2) = 1500
  /\ (cappedBackoff 1000 1500 2 2 == inject_Z 1500)%Q
  /\ exactly (mul (Fin (clampDraw (Fin 0.5))) (ofZ 1500))
       (clampDraw (Fin 0.5) * inject_Z 1500)
  /\ specFullJitterDelay 0.5 1000 1500 2 2 = 750.
Proof.
  split; [exists 2%Q; split; vm_compute; reflexivity|].
  split; [exists 2000%Q; split; vm_compute; reflexivity|].
  split; [vm_compute; reflexivity|]. split; [vm_compute; reflexivity|].
  split; [exists 750%Q; split; vm_compute; reflexivity|].
  vm_compute. reflexivity.
Qed.

(** A header of [1e308] seconds reads as a finite number, but its product
    with 1000 is [Infinity]: the delay is 0, not the seconds in
    milliseconds, and the reason is still ['retry-after']. *)
Lemma retry_after_overflow_counterexample :
  match Number (trim "1e308") with
  | Fin n => (10 ^ 308 <=? Qfloor (n * 1000)) = true
  | _ => False
  end
  /\ mul (Number (trim "1e308")) (ofZ 1000) = PInf
  /\ planDelay (normalized emptyOptions) 1 (tooMany "1e308") start
     = (Normal (ReasonRetryAfter, 0), start)
  /\ map ev_delayMs
       (retryEvents
          (log (snd (retry 5 (failing (tooMany "1e308"))
                       (Some (hintOptions Absent Absent)) start)))) = [0].
Proof.
  split; [vm_compute; reflexivity|]. split; [vm_compute; reflexivity|].
  split; vm_compute; reflexivity.
Qed.

Lemma retry_after_header_seconds_witness :
  opts_respectRetryAfter (normalized (hintOptions Absent Absent)) = true
  /\ is429 (getStatus (tooMany "2")) = true
  /\ getHeader (optProp (optProp (tooMany "2") "response") "headers")
       (opts_retryAfterHeaderName (normalized (hintOptions Absent Absent)))
     = Some "2"%string
  /\ Number (trim "2") = Fin 2
  /\ planDelay (normalized (hintOptions Absent Absent)) 1 (tooMany "2") start
     = (Normal (ReasonRetryAfter, 2000), start)
  /\ (forall ev,
        In ev (retryEvents
                 (log (snd (retry 5 (failing (tooMany "2"))
                              (Some (hintOptions Absent Absent)) start)))) ->
        ev_error ev = tooMany "2" ->
        ev_reason ev = ReasonRetryAfter /\ ev_delayMs ev = 2000)
  /\ log (snd (onFailure (normalized (hintOptions Absent Absent)) (ofZ 0) 1
                 (firstContext (hintOptions Absent Absent) 0) (tooMany "2")
                 start))
     = [ObsShouldRetry (tooMany "2")
          (firstContext (hintOptions Absent Absent) 0) (Fulfilled true);
        ObsRetry
          (eventOf (tooMany "2") ReasonRetryAfter 2000 1
             (firstContext (hintOptions Absent Absent) 0)) (Fulfilled tt);
        ObsSleep 2000].
Proof.
  repeat (split; [reflexivity|]).
  pose proof (retry_after_header_seconds (T := string)
                (normalized (hintOptions Absent Absent)) (tooMany "2") "2" 2
                eq_refl eq_refl eq_refl eq_refl) as H.
  assert (toIntMs (mul (Fin 2) (ofZ 1000)) = 2000) as E
      by (vm_compute; reflexivity).
  cbv zeta in H. rewrite E in H. destruct H as (_ & _ & _ & _ & _ & H5 & H6).
  split.
  - intros ev Hin He.
    exact (H5 5%nat (failing (tooMany "2"))
             (Some (hintOptions Absent Absent)) start eq_refl eq_refl
             ev Hin He).
  - exact (H6 (ofZ 0) 1 (firstContext (hintOptions Absent Absent) 0) start
             (ofZ 0) (world start) (world start) quietHook
             eq_refl eq_refl eq_refl eq_refl eq_refl eq_refl eq_refl).
Defined.




Lemma cancellation_like_rethrown_witness :
  normalizeOptions (orEmpty (Some tightBudget)) = inr (normalized tightBudget)
  /\ log start = []
  /\ isAbortLikeError abortLike = true
  /\ fst (retry 5 (failing abortLike) (Some tightBudget) start)
     = Throw (ThrownValue abortLike).
Proof.
  split; [reflexivity|]. split; [reflexivity|]. split; [reflexivity|].
  refine (proj1 (proj1 (proj2 (proj2
            (cancellation_like_rethrown 5 (failing abortLike)
               (Some tightBudget) (normalized tightBudget) start
               eq_refl eq_refl)))
            (firstContext tightBudget 0) abortLike _ eq_refl)).
  left. reflexivity.
Defined.


Lemma defaultShouldRetry_spec_witness :
  signalAborted (ctx_signal (firstContext emptyOptions 0)) (world start)
  = false
  /\ isAbortLikeError (tooMany "2") = false
  /\ getStatus (tooMany "2") = Some (Fin 429)
  /\ (defaultShouldRetry (tooMany "2") (firstContext emptyOptions 0)
        (world start) = true
      <-> (429 == 408 \/ 429 == 425 \/ 429 == 429 \/ 429 == 500
           \/ 429 == 502 \/ 429 == 503 \/ 429 == 504)%Q).
Proof.
  split; [reflexivity|]. split; [reflexivity|]. split; [reflexivity|].
  exact (proj1 (defaultShouldRetry_spec (tooMany "2")
                  (firstContext emptyOptions 0) (world start)
                  eq_refl eq_refl) 429%Q eq_refl).
Defined.

(** *** Some runs *)

(** The example of the specification: 500 after attempt 1, 750 after
    attempt 2. *)
Example example_delays :
  sleeps (log (snd (retry 5 (flaky 2 10 boom) (Some exampleOptions) start)))
  = [500; 750].
Proof. vm_compute. reflexivity. Qed.

(** A first attempt that succeeds: one call of the task and nothing else. *)
Example first_attempt_succeeds :
  retry 5 succeeding None start
  = (Normal "ok"%string,
     {| world := {| clock := 0; calls := 1; abortAt := None |};
        log := [ObsTask (firstContext emptyOptions 0) (Fulfilled "ok"%string)] |}).
Proof. vm_compute. reflexivity. Qed.

(** A budget of 100 ms and a delay of 150 ms: no sleep, no second attempt. *)
Example budget_before_sleep :
  fst (retry 5 (failing boom) (Some tightBudget) start)
  = Throw (RetryTimeoutError 1 0 (ofZ 100) (Some boom))
  /\ sleeps (log (snd (retry 5 (failing boom) (Some tightBudget) start))) = []
  /\ calls (world (snd (retry 5 (failing boom) (Some tightBudget) start))) = 1.
Proof. repeat apply conj; vm_compute; reflexivity. Qed.

(** [wrapError] wraps the error of the last attempt. *)
Example exhausted_wrapped :
  fst (retry 5 (failing boom)
         (Some (spread tightBudget (onlyMaxAttempts (ofZ 1)))) start)
  = Throw (RetryExhaustedError 1 0 (ofZ 1) (ofZ 0) boom).
Proof. vm_compute. reflexivity. Qed.

(** An override that is present and [undefined] replaces the default, and
    [normalizeOptions] then falls back on the built-in default. *)
Example undefined_override :
  let override :=
    {| maxAttempts := Undefined; baseMs := Absent; capMs := Absent;
       factor := Absent; jitter := Absent; rng := Absent; signal := Absent;
       maxElapsedMs := Absent; shouldRetry := Absent; onRetry := Absent;
       respectRetryAfter := Absent; retryAfterHeaderName := Absent;
       retryAfterBodyUnit := Absent; wrapError := Absent |} in
  opts_maxAttempts
    (normalized (spread (onlyMaxAttempts (ofZ 5)) override)) = ofZ 3.
Proof. vm_compute. reflexivity. Qed.

(** A status outside the retriable set stops the retries whatever the code
    says; the same code without a status is retried. *)
Example status_overrides_code :
  defaultShouldRetry notFoundReset (firstContext emptyOptions 0) (world start)
  = false
  /\ defaultShouldRetry (VObj ProtoObject [("code", VStr "ECONNRESET")]%string)
       (firstContext emptyOptions 0) (world start)
     = true.
Proof. split; vm_compute; reflexivity. Qed.

(** A source that returns 1 is clamped to 0.999999999: the delay stays
    below the backoff. *)
Example jitter_is_clamped :
  jitterOf 1000 (ofZ 1) = 999 /\ jitterOf 1000 NaN = 0.
Proof. split; vm_compute; reflexivity. Qed.

(** The signal is aborted before [retry] is called: the task is not
    called. *)
Example abort_before_first_attempt :
  retry 5 succeeding (Some abortable) (startAbortingAt 0)
  = (Throw (AbortError "Retry aborted"), startAbortingAt 0).
Proof. vm_compute. reflexivity. Qed.

(** The factory with overrides: [maxAttempts: 1] replaces the default 3,
    the other defaults stay. *)
Example factory_overrides :
  fst (createRetry (Some exampleOptions) 5 (failing boom) (Some onceWrapped)
         start)
  = Throw (RetryExhaustedError 1 0 (ofZ 1) (ofZ 0) boom)
  /\ calls (world (snd (createRetry (Some exampleOptions) 5 (failing boom)
                          (Some onceWrapped) start))) = 1
  /\ opts_baseMs (normalized (spread exampleOptions onceWrapped)) = ofZ 1000.
Proof. repeat apply conj; vm_compute; reflexivity. Qed.

(** Where a retry hint is read from: a header whose value is an array, a
    headers object with a [get] accessor, the body when the unit is set;
    a header that reads as nothing is ignored, and a blank header name
    falls back on ['retry-after']. *)
Example hint_sources :
  let plan (o : RetryOptions World) (err : value) :=
    fst (planDelay (T := string) (normalized o) 1 err start) in
  plan (hintOptions Absent Absent)
    (tooManyWith (VObj ProtoObject [("Retry-After"%string, VArr [VStr "2"])]))
  = Normal (ReasonRetryAfter, 2000)
  /\ plan (hintOptions Absent Absent) (tooManyWith fetchHeadersLike)
     = Normal (ReasonRetryAfter, 2000)
  /\ plan (hintOptions Absent (Value UnitSeconds)) tooManyBody
     = Normal (ReasonRetryAfter, 2000)
  /\ plan (hintOptions Absent Absent) tooManyBody
     = Normal (ReasonBackoff, 100)
  /\ plan (hintOptions Absent Absent) (tooMany "nonsense")
     = Normal (ReasonBackoff, 100)
  /\ plan (hintOptions (Value "   "%string) Absent) (tooMany "1")
     = Normal (ReasonRetryAfter, 1000).
Proof. repeat apply conj; vm_compute; reflexivity. Qed.

(** *** The further properties at work *)

Lemma applyFullJitter_below_backoff_witness :
  0 <= 1500
  /\ exists d,
       applyFullJitter 1500 (constantRng (Fin 0.5)) start
       = (Normal d,
          {| world := snd (constantRng (Fin 0.5) (world start));
             log := log start
                    ++ [ObsRng (fst (constantRng (Fin 0.5) (world start)))] |})
       /\ 0 <= d <= 1500
       /\ (0 < 1500 -> d < 1500).
Proof.
  split; [lia|].
  apply (applyFullJitter_below_backoff 1500 (constantRng (Fin 0.5)) start).
  lia.
Defined.

Lemma backoff_within_cap_witness :
  normalizeOptions exampleOptions = inr (normalized exampleOptions)
  /\ exists c,
       opts_capMs (normalized exampleOptions) = Fin c
       /\ forall ev,
            In ev (retryEvents
                     (log (snd (retry 5 (flaky 2 10 boom)
                                  (Some exampleOptions) start))))
            -> ev_reason ev = ReasonBackoff
            -> 0 <= ev_delayMs ev <= Qfloor c.
Proof.
  split; [reflexivity|].
  destruct (backoff_within_cap (T := string) exampleOptions
              (normalized exampleOptions)
              eq_refl) as (c & Hc & _ & H).
  exists c. split; [exact Hc|].
  intros ev. exact (H 5%nat (flaky 2 10 boom) start ev eq_refl).
Defined.

Lemma computeBackoffMs_monotone_witness :
  (0 <= 1000)%Q
  /\ pow (Fin 2) (1 - 1) = Fin 1
  /\ (0 <= 1)%Q
  /\ pow (Fin 2) (2 - 1) = Fin 2
  /\ (1 <= 2)%Q
  /\ computeBackoffMs 1 (Fin 1000) (Fin 1500) (Fin 2)
     <= computeBackoffMs 2 (Fin 1000) (Fin 1500) (Fin 2).
Proof.
  assert (0 <= 1000)%Q as Hb by (unfold Qle; simpl; lia).
  assert (0 <= 1)%Q as Hp by (unfold Qle; simpl; lia).
  assert (1 <= 2)%Q as Hle by (unfold Qle; simpl; lia).
  assert (pow (Fin 2) (2 - 1) = Fin 2) as Ep by (vm_compute; reflexivity).
  split; [exact Hb|]. split; [reflexivity|]. split; [exact Hp|].
  split; [exact Ep|]. split; [exact Hle|].
  apply (computeBackoffMs_monotone 1000 1500 1 (Fin 2) 1 2 Hb eq_refl Hp).
  right. exists 2%Q. split; [exact Ep | exact Hle].
Defined.

(** The host above rounds each power to the nearest double, so that with a
    factor of at least 1 its powers do not shrink as the exponent grows:
    there the backoff never shrinks from one attempt to the next. *)
Lemma nearestPower_rounds (f : Q) (e : Z) :
  0 <= e -> pow (Fin f) e = round64 (f ^ e).
Proof.
  intros He. unfold pow. destruct e as [|n|n]; [|..|lia].
  - vm_compute. reflexivity.
  - cbn [exponentiate host]. unfold nearestPower, ofZ.
    rewrite Qfloor_Z.
    assert (Qeq_bool (inject_Z (Z.pos n)) (inject_Z (Z.pos n)) = true) as ->
        by (apply Qeq_bool_iff; reflexivity).
    reflexivity.
Qed.

Lemma nearestPower_monotone (b c f : Q) (k k' : Z) :
  (0 <= b)%Q -> (1 <= f)%Q -> 1 <= k <= k' ->
  computeBackoffMs k (Fin b) (Fin c) (Fin f)
  <= computeBackoffMs k' (Fin b) (Fin c) (Fin f).
Proof.
  intros Hb Hf Hk.
  assert (0 <= f ^ (k - 1))%Q as H0 by (apply Qpower_0_le; lra).
  assert (f ^ (k - 1) <= f ^ (k' - 1))%Q as H1
      by (apply Qpower_le_compat_l; [lia | assumption]).
  pose proof (nearestPower_rounds f (k - 1)) as E.
  pose proof (nearestPower_rounds f (k' - 1)) as E'.
  destruct (round64_mono _ _ H0 H1) as [R|(v & v' & R & R' & Hv & Hle)].
  - destruct (round64_mono 0 (f ^ (k - 1))) as [R0|(u & u' & _ & R0 & Hu0 & Hu)];
      [lra | exact H0 | |].
    + unfold computeBackoffMs. rewrite E, E', R, R0 by lia. lia.
    + apply (computeBackoffMs_steps b c u' (Fin f) k k' Hb);
        [rewrite E by lia; exact R0 | lra |].
      left. rewrite E' by lia. exact R.
  - apply (computeBackoffMs_steps b c v (Fin f) k k' Hb);
      [rewrite E by lia; exact R | exact Hv |].
    right. exists v'. split; [rewrite E' by lia; exact R' | exact Hle].
Qed.

Lemma hint_needs_429_witness :
  opts_respectRetryAfter (normalized (@emptyOptions World))
  && is429 (getStatus notFoundReset) = false
  /\ forall s : St World string,
       hintDelay (normalized emptyOptions) notFoundReset s = (Normal None, s).
Proof.
  split; [reflexivity|].
  exact (proj1 (hint_needs_429 (T := string) (normalized emptyOptions)
                  notFoundReset eq_refl)).
Defined.

Lemma retry_after_http_date_witness :
  isFinite (Number (trim httpDate)) = false
  /\ Date_parse (Host := datedHost) (trim httpDate) = ofZ 1445412480000
  /\ planDelay (host := datedHost) (normalized emptyOptions) 1
       (tooMany httpDate) (startAt 1445412470000)
     = (Normal (ReasonRetryAfter, 10000), startAt 1445412470000).
Proof.
  split; [reflexivity|]. split; [reflexivity|].
  exact (proj1 (retry_after_http_date (host := datedHost)
                  (normalized emptyOptions) 1 (tooMany httpDate)
                  (startAt 1445412470000) httpDate
                  (inject_Z 1445412480000) (ofZ 1445412470000)
                  (world (startAt 1445412470000))
                  eq_refl eq_refl eq_refl eq_refl eq_refl eq_refl)).
Defined.

Lemma retry_after_body_witness :
  getHeader (optProp (optProp tooManyBody "response") "headers")
    (opts_retryAfterHeaderName
       (normalized (hintOptions Absent (Value UnitSeconds)))) = None
  /\ readRetryAfterBody tooManyBody = VStr "2"
  /\ planDelay (normalized (hintOptions Absent (Value UnitSeconds))) 1
       tooManyBody start
     = (Normal (ReasonRetryAfter, 2000), start).
Proof.
  split; [reflexivity|]. split; [reflexivity|].
  refine (proj1 (proj2 (retry_after_body
                          (normalized (hintOptions Absent (Value UnitSeconds)))
                          1 tooManyBody start eq_refl eq_refl eq_refl))
            2%Q _ _).
  - right. exists "2"%string. split; reflexivity.
  - discriminate.
Defined.

Lemma getHeader_plain_object_witness :
  hasGetAccessor [("Retry-After"%string, VStr "2")] = false
  /\ getHeader (VObj ProtoObject [("Retry-After"%string, VStr "2")])
       "RETRY-AFTER"
     = getHeader (VObj ProtoObject [("Retry-After"%string, VStr "2")])
         "retry-after".
Proof.
  split; [reflexivity|].
  exact (proj2 (getHeader_plain_object ProtoObject
                  [("Retry-After"%string, VStr "2")] "retry-after" eq_refl)
           "RETRY-AFTER"%string eq_refl).
Defined.

Lemma normalizeOptions_header_name_witness :
  normalizeOptions (hintOptions (Value "  X-Retry-In "%string) Absent)
  = inr (normalized (hintOptions (Value "  X-Retry-In "%string) Absent))
  /\ opts_retryAfterHeaderName
       (normalized (hintOptions (Value "  X-Retry-In "%string) Absent))
     = trim "  X-Retry-In ".
Proof.
  split; [reflexivity|].
  refine (proj2 (proj2 (proj2 (proj2
            (normalizeOptions_header_name
               (hintOptions (Value "  X-Retry-In "%string) Absent)
               (normalized (hintOptions (Value "  X-Retry-In "%string) Absent))
               eq_refl))))
            "  X-Retry-In "%string eq_refl _).
  discriminate.
Defined.

Lemma undefined_override_restores_builtin_witness :
  normalizeOptions (spread (onlyMaxAttempts (ofZ 5)) undefinedMaxAttempts)
  = inr (normalized (spread (onlyMaxAttempts (ofZ 5)) undefinedMaxAttempts))
  /\ maxAttempts undefinedMaxAttempts = Undefined
  /\ opts_maxAttempts
       (normalized (spread (onlyMaxAttempts (ofZ 5)) undefinedMaxAttempts))
     = ofZ 3.
Proof.
  split; [reflexivity|]. split; [reflexivity|].
  exact (proj1 (undefined_override_restores_builtin
                  (onlyMaxAttempts (ofZ 5)) undefinedMaxAttempts
                  (normalized
                     (spread (onlyMaxAttempts (ofZ 5)) undefinedMaxAttempts))
                  eq_refl) eq_refl).
Defined.

Lemma retry_trace_counts_witness :
  normalizeOptions (orEmpty (Some exampleOptions))
  = inr (normalized exampleOptions)
  /\ log start = []
  /\ (length (taskCalls
                (log (snd (retry 5 (flaky 2 10 boom) (Some exampleOptions)
                             start))))
      <= length (sleeps
                   (log (snd (retry 5 (flaky 2 10 boom)
                                (Some exampleOptions) start)))) + 1)%nat.
Proof.
  split; [reflexivity|]. split; [reflexivity|].
  exact (proj1 (proj2 (proj2 (proj2 (proj2
           (retry_trace_counts 5 (flaky 2 10 boom) (Some exampleOptions)
              (normalized exampleOptions) start eq_refl eq_refl)))))).
Defined.

Lemma retries_bounded_witness :
  normalizeOptions (orEmpty (Some exampleOptions))
  = inr (normalized exampleOptions)
  /\ eqb (opts_maxAttempts (normalized exampleOptions)) (ofZ 3) = true
  /\ log start = []
  /\ Z.of_nat
       (length (sleeps
                  (log (snd (retry 5 (failing boom) (Some exampleOptions)
                               start))))) <= 3 - 1.
Proof.
  split; [reflexivity|]. split; [reflexivity|]. split; [reflexivity|].
  exact (proj1 (proj2 (proj2 (proj2
           (retries_bounded 5 (failing boom) (Some exampleOptions)
              (normalized exampleOptions) start 3 eq_refl eq_refl
              eq_refl))))).
Defined.

Lemma retry_events_in_order_witness :
  normalizeOptions (orEmpty (Some exampleOptions))
  = inr (normalized exampleOptions)
  /\ log start = []
  /\ match nth_error
             (retryEvents
                (log (snd (retry 5 (flaky 2 10 boom) (Some exampleOptions)
                             start)))) 1 with
     | Some ev => ev_nextAttempt ev = 3 /\ 0 <= ev_delayMs ev
     | None => False
     end.
Proof.
  split; [reflexivity|]. split; [reflexivity|].
  destruct (nth_error
              (retryEvents
                 (log (snd (retry 5 (flaky 2 10 boom) (Some exampleOptions)
                              start)))) 1) as [ev|] eqn:E.
  - destruct (retry_events_in_order 5 (flaky 2 10 boom) (Some exampleOptions)
                (normalized exampleOptions) start eq_refl eq_refl 1%nat ev E)
      as (H1 & H2 & _).
    exact (conj H1 H2).
  - vm_compute in E. discriminate E.
Defined.


Lemma engine_errors_classified_witness :
  thrownObject showInteger
    (RetryExhaustedError 1 0 (ofZ 1) (ofZ 0) notFoundReset)
  = Some (newRetryExhaustedError showInteger 1 0 (ofZ 1) (ofZ 0)
            notFoundReset)
  /\ getStatus notFoundReset = Some (ofZ 404)
  /\ getStatus
       (newRetryExhaustedError showInteger 1 0 (ofZ 1) (ofZ 0) notFoundReset)
     = None.
Proof.
  split; [reflexivity|]. split; [reflexivity|].
  exact (proj1 (proj2 (proj2
           (engine_errors_classified (W := World) (T := string) showInteger
              (RetryExhaustedError 1 0 (ofZ 1) (ofZ 0) notFoundReset)
              (newRetryExhaustedError showInteger 1 0 (ofZ 1) (ofZ 0)
                 notFoundReset)
              eq_refl)))).
Defined.

Lemma resolution_is_last_witness :
  normalizeOptions (orEmpty (Some exampleOptions))
  = inr (normalized exampleOptions)
  /\ log start = []
  /\ fst (retry 5 (flaky 2 10 boom) (Some exampleOptions) start)
     = Normal "ok"%string
  /\ exists l0 ctx,
       log (snd (retry 5 (flaky 2 10 boom) (Some exampleOptions) start))
       = l0 ++ [ObsTask ctx (Fulfilled "ok"%string)].
Proof.
  split; [reflexivity|]. split; [reflexivity|]. split; [reflexivity|].
  exact (proj2 (resolution_is_last 5 (flaky 2 10 boom) (Some exampleOptions)
                  (normalized exampleOptions) start eq_refl eq_refl)
           "ok"%string eq_refl).
Defined.

Lemma contexts_consistent_witness :
  normalizeOptions (orEmpty (Some exampleOptions))
  = inr (normalized exampleOptions)
  /\ log (startAt 7) = []
  /\ forall c r,
       In (ObsTask c r)
         (log (snd (retry 5 (flaky 2 10 boom) (Some exampleOptions)
                      (startAt 7)))) ->
       ctx_startedAt c = ofZ 7
       /\ ctx_maxAttempts c = opts_maxAttempts (normalized exampleOptions)
       /\ ctx_signal c = opts_signal (normalized exampleOptions)
       /\ 1 <= ctx_attempt c.
Proof.
  split; [reflexivity|]. split; [reflexivity|].
  exact (proj1 (contexts_consistent 5 (flaky 2 10 boom) (Some exampleOptions)
                  (normalized exampleOptions) (startAt 7) eq_refl eq_refl)).
Defined.

(** *** Some more runs *)

(** A hint that is an HTTP date ten seconds ahead, and the same date when
    it is past. *)
Example http_date_hint :
  fst (planDelay (host := datedHost) (T := string) (normalized emptyOptions)
         1 (tooMany httpDate) (startAt 1445412470000))
  = Normal (ReasonRetryAfter, 10000)
  /\ fst (planDelay (host := datedHost) (T := string)
            (normalized emptyOptions) 1 (tooMany httpDate)
            (startAt 1445412490000))
     = Normal (ReasonRetryAfter, 0).
Proof. split; vm_compute; reflexivity. Qed.

(** What an enclosing retry makes of the rejections of an inner one: the
    inner [AbortError] is rethrown at once, the inner
    [RetryExhaustedError] is retried though its cause is a 404. *)
Example nested_rejections :
  fst (retry 5 (failing (newAbortError "Retry aborted")) None start)
  = Throw (ThrownValue (newAbortError "Retry aborted"))
  /\ calls (world (snd (retry 5 (failing (newAbortError "Retry aborted"))
                          None start))) = 1
  /\ calls (world (snd (retry 5 (failing notFoundReset) None start))) = 1
  /\ calls (world
              (snd (retry 5
                      (failing
                         (newRetryExhaustedError showInteger 1 0 (ofZ 1)
                            (ofZ 0) notFoundReset)) None start))) = 3.
Proof. repeat apply conj; vm_compute; reflexivity. Qed.

(** The arithmetic is that of doubles.  [Number('0.1')] is the double
    nearest to one tenth; a header of [1.001] seconds gives 1000 ms, for
    [1.001 * 1000] is 1000.9999999999999; a body of [0.009] seconds gives
    9 ms; [0.3 * 10 ** 1] is 3, and so is [floor(0.3 * 10)]; a status of
    ['1e309'] reads as [Infinity] and does not count, a status of
    ['429.00000000000000001'] is 429. *)
Example doubles :
  Number "0.1" = Fin (3602879701896397 # 36028797018963968)
  /\ fst (planDelay (T := string) (normalized (hintOptions Absent Absent)) 1
            (tooMany "1.001") start)
     = Normal (ReasonRetryAfter, 1000)
  /\ parseRetryAfterBodyMs (VNum (Number "0.009")) UnitSeconds = Some 9
  /\ computeBackoffMs 2 (Number "0.3") (ofZ 1000) (ofZ 10) = 3
  /\ jitterOf 10 (Number "0.3") = 3
  /\ Number "1e309" = PInf
  /\ getStatus (VObj ProtoObject [("status", VStr "1e309")]%string) = None
  /\ getStatus
       (VObj ProtoObject [("status", VStr "429.00000000000000001")]%string)
     = Some (ofZ 429)
  /\ mul (Number "1e308") (ofZ 1000) = PInf.
Proof. repeat apply conj; vm_compute; reflexivity. Qed.

(** The timer fires and the abort comes after it, and the other way
    round. *)
Example sleeper_races :
  Sleeper.settled
    (fold_left Sleeper.step [Sleeper.TimerFires; Sleeper.AbortFires]
       (Sleeper.executor 500 true)) = Some None
  /\ Sleeper.settled
       (fold_left Sleeper.step [Sleeper.AbortFires; Sleeper.TimerFires]
          (Sleeper.executor 500 true))
     = Some (Some (AbortError "Retry aborted")).
Proof. split; vm_compute; reflexivity. Qed.
